(** * GEOP: the send-to-delivery pipeline of the email dispatch service

    A shallow embedding of the server code (services/email.ts,
    services/compliance.ts, services/tracking.ts, utils/smtp-router.ts,
    utils/rate-limiter.ts, storage.ts and the two tracking routes) together with
    the properties the specification states about it.

    Conventions of the embedding.
    - A JavaScript string is a [string]; every character stands for one UTF-16
      code unit in the range 0..255. Case mapping, white space and URI encoding
      are written out for that range.
    - JavaScript numbers that the code uses as counters, identifiers, priorities,
      capacities and time stamps are integers of [Z].
    - An [async] function is a computation in the monad [M] below: it threads the
      process state and the database, and it either returns or throws. *)

From Stdlib Require Import ZArith String Ascii List Lia Bool Sorting.Sorted.
From Stdlib Require Import Sorting.Permutation.
From stdpp Require Import gmap strings list.
From Equations Require Import Equations.

Open Scope string_scope.
Open Scope Z_scope.

(* ===================================================================== *)
(** ** JavaScript strings                                                *)
(* ===================================================================== *)

Module JsString.

Definition code (c : ascii) : nat := nat_of_ascii c.

(** [WhiteSpace] and [LineTerminator] code units below 256: TAB, LF, VT, FF,
    CR, SP and NBSP. This is what [\s] and [String.prototype.trim] see. *)
Definition isWhiteSpace (c : ascii) : bool :=
  existsb (Nat.eqb (code c)) [9; 10; 11; 12; 13; 32; 160]%nat.

(** [String.prototype.toLowerCase] on one code unit: A..Z, and the capital
    letters of the Latin-1 supplement (C0..DE without the multiplication
    sign D7). *)
Definition lowerChar (c : ascii) : ascii :=
  let n := code c in
  if ((65 <=? n) && (n <=? 90))%nat then ascii_of_nat (n + 32)
  else if ((192 <=? n) && (n <=? 222) && negb (n =? 215))%nat
       then ascii_of_nat (n + 32)
       else c.

Fixpoint toLowerCase (s : string) : string :=
  match s with
  | EmptyString => EmptyString
  | String c t => String (lowerChar c) (toLowerCase t)
  end.

Definition startsWith (s p : string) : bool := String.prefix p s.

(** [s.includes(p)] *)
Fixpoint includes (s p : string) : bool :=
  startsWith s p ||
  match s with
  | EmptyString => false
  | String _ t => includes t p
  end.

Fixpoint take (n : nat) (s : string) : string :=
  match n, s with
  | S k, String c t => String c (take k t)
  | _, _ => EmptyString
  end.

Fixpoint drop (n : nat) (s : string) : string :=
  match n, s with
  | S k, String _ t => drop k t
  | _, _ => s
  end.

Fixpoint trimStart (s : string) : string :=
  match s with
  | EmptyString => EmptyString
  | String c t => if isWhiteSpace c then trimStart t else s
  end.

Fixpoint trimEnd (s : string) : string :=
  match s with
  | EmptyString => EmptyString
  | String c t =>
      match trimEnd t with
      | EmptyString => if isWhiteSpace c then EmptyString else String c EmptyString
      | r => String c r
      end
  end.

(** [s.trim()] *)
Definition trim (s : string) : string := trimEnd (trimStart s).

(** JavaScript truthiness of a string: only the empty string is falsy. *)
Definition truthy (s : string) : bool :=
  match s with EmptyString => false | _ => true end.

(** The characters of [s] all satisfy [p]. *)
Fixpoint all (p : ascii -> bool) (s : string) : bool :=
  match s with
  | EmptyString => true
  | String c t => p c && all p t
  end.

(** Longest prefix whose characters satisfy [p], and what follows it: a
    greedy character-class repetition. *)
Fixpoint span (p : ascii -> bool) (s : string) : string * string :=
  match s with
  | EmptyString => (EmptyString, EmptyString)
  | String c t =>
      if p c then let '(a, b) := span p t in (String c a, b)
      else (EmptyString, s)
  end.

(** [GetSubstitution] for a string pattern (no capture groups): in the
    replacement text [$$] is a dollar sign, [$&] the matched text, [$`] the
    text before the match and [$'] the text after it; every other [$] stands
    for itself. *)
Fixpoint getSubstitution (matched before after replacement : string) : string :=
  match replacement with
  | EmptyString => EmptyString
  | String c t =>
      if Ascii.eqb c "$" then
        match t with
        | EmptyString => String c EmptyString
        | String d r =>
            if Ascii.eqb d "$" then String "$" (getSubstitution matched before after r)
            else if Ascii.eqb d "&" then matched +:+ getSubstitution matched before after r
            else if Ascii.eqb d "`" then before +:+ getSubstitution matched before after r
            else if Ascii.eqb d "'" then after +:+ getSubstitution matched before after r
            else String c (getSubstitution matched before after t)
        end
      else String c (getSubstitution matched before after t)
  end.

(** First occurrence of [p] in [s]: the text before it and the text after. *)
Fixpoint breakOn (p s : string) : option (string * string) :=
  if startsWith s p then Some (EmptyString, drop (String.length p) s)
  else match s with
       | EmptyString => None
       | String c t =>
           match breakOn p t with
           | Some (a, b) => Some (String c a, b)
           | None => None
           end
       end.

(** [s.replace(p, replacement)] with a string pattern: the first occurrence
    only, the replacement text expanded by [getSubstitution]. *)
Definition replaceFirst (s p replacement : string) : string :=
  match breakOn p s with
  | Some (a, b) => a +:+ getSubstitution p a b replacement +:+ b
  | None => s
  end.

Definition hexDigit (n : nat) : ascii :=
  if (n <? 10)%nat then ascii_of_nat (48 + n) else ascii_of_nat (55 + n).

Definition percent (n : nat) : string :=
  String "%" (String (hexDigit (n / 16)) (String (hexDigit (n mod 16)) EmptyString)).

(** Characters [encodeURIComponent] leaves alone: letters, digits and
    [- _ . ! ~ * ' ( )]. *)
Definition uriUnreserved (c : ascii) : bool :=
  let n := code c in
  ((65 <=? n) && (n <=? 90) || (97 <=? n) && (n <=? 122) || (48 <=? n) && (n <=? 57)
   || existsb (Nat.eqb n) [45; 95; 46; 33; 126; 42; 39; 40; 41])%nat.

(** [encodeURIComponent]: every other code unit is written as the percent
    escapes of its UTF-8 bytes (one byte below 128, two bytes from 128 to 255). *)
Fixpoint encodeURIComponent (s : string) : string :=
  match s with
  | EmptyString => EmptyString
  | String c t =>
      let n := code c in
      (if uriUnreserved c then String c EmptyString
       else if (n <? 128)%nat then percent n
            else percent (192 + n / 64) +:+ percent (128 + n mod 64))
      +:+ encodeURIComponent t
  end.

End JsString.

(* ===================================================================== *)
(** ** [String.prototype.replace] with a global regular expression      *)
(* ===================================================================== *)

Module RegExp.
Import JsString.

Section Replace.
(** [exec s] is the anchored match of the pattern at the start of [s]:
    [Some (capture, n)] when the pattern matches the first [S n]
    characters of [s], with the text of its capture group. *)
Variable exec : string -> option (string * nat).
(** [(match, capture) => replacement] *)
Variable replacer : string -> string -> string.

(** The scan of a [/g] expression: try the pattern at the current position;
    on a match emit the replacement and go on after the match, otherwise
    copy one character and go on at the next position. *)
Equations? replaceAll (s : string) : string by wf (String.length s) lt :=
  replaceAll EmptyString := EmptyString;
  replaceAll (String c t) with exec (String c t) := {
    | Some (capture, n) => replacer (String c (take n t)) capture +:+ replaceAll (drop n t);
    | None => String c (replaceAll t) }.
Proof.
  clear. revert t. induction n as [|n IH]; intros [|d t]; simpl; try lia.
  specialize (IH t). lia.
Qed.

(** The captures of all the matches of the scan, in order. *)
Equations? captures (s : string) : list string by wf (String.length s) lt :=
  captures EmptyString := [];
  captures (String c t) with exec (String c t) := {
    | Some (capture, n) => capture :: captures (drop n t);
    | None => captures t }.
Proof.
  clear. revert t. induction n as [|n IH]; intros [|d t]; simpl; try lia.
  specialize (IH t). lia.
Qed.
End Replace.

End RegExp.

(* ===================================================================== *)
(** ** services/email.ts: template rendering                             *)
(* ===================================================================== *)

Module TemplateEngine.
Import JsString.

Definition notRBrace (c : ascii) : bool := negb (Ascii.eqb c "}").

(** The pattern [\{\{([^}]+)\}\}] tried at the start of [s]. The class
    repetition is greedy and cannot give characters back: the character after
    the longest run is a closing brace or the end of the text. *)
Definition execPlaceholder (s : string) : option (string * nat) :=
  match s with
  | String a (String b t) =>
      if Ascii.eqb a "{" && Ascii.eqb b "{" then
        match span notRBrace t with
        | (String n0 n1 as name, String e (String f _)) =>
            if Ascii.eqb e "}" && Ascii.eqb f "}"
            then Some (name, (String.length name + 3)%nat)
            else None
        | _ => None
        end
      else None
  | _ => None
  end.

(** [variables[key]] on a plain object: an own property when there is one,
    otherwise what the prototype chain holds under that name. [proto] gives
    the inherited members (functions such as [toString], never an empty text)
    as the text that [replace] would insert for them. *)
Definition propertyRead (proto : string -> option string) (variables : gmap string string)
    (key : string) : option string :=
  match variables !! key with
  | Some v => Some v
  | None => proto key
  end.

(** [(match, variable) => variables[variable.trim()] || match] *)
Definition replacer (proto : string -> option string) (variables : gmap string string)
    (matched variable : string) : string :=
  match propertyRead proto variables (trim variable) with
  | Some v => if truthy v then v else matched
  | None => matched
  end.

(** [processTemplate(content, variables)] *)
Definition processTemplate (proto : string -> option string)
    (content : string) (variables : gmap string string) : string :=
  RegExp.replaceAll execPlaceholder (replacer proto variables) content.

(** The value that the replacer function finds for a captured name, when it
    finds one that is truthy. *)
Definition value (proto : string -> option string) (variables : gmap string string)
    (variable : string) : option string :=
  match propertyRead proto variables (trim variable) with
  | Some v => if truthy v then Some v else None
  | None => None
  end.

(** The values that a rendering substitutes for its placeholders, in order. *)
Definition substituted (proto : string -> option string)
    (content : string) (variables : gmap string string) : list string :=
  flat_map (fun variable => match value proto variables variable with
                            | Some v => [v]
                            | None => []
                            end)
           (RegExp.captures execPlaceholder content).

End TemplateEngine.

(* ===================================================================== *)
(** ** shared/schema.ts: the rows of the tables the pipeline touches     *)
(* ===================================================================== *)

(** Only the columns that the pipeline reads or writes are kept; [metadata]
    and the columns no function below mentions are left out. Time stamps are
    milliseconds. *)

Module SmtpProvider.
Record t := mk {
  id : Z;
  name : string;
  region : string;
  isActive : bool;
  priority : Z;
  maxSendsPerHour : Z
}.
End SmtpProvider.

Module Template.
Record t := mk {
  id : Z;
  htmlContent : string;
  textContent : string
}.
End Template.

Module Email.
Record t := mk {
  id : Z;
  to : string;
  from : string;
  subject : string;
  templateId : option Z;
  smtpProviderId : option Z;
  status : string;
  region : string;
  sentAt : Z;
  deliveredAt : option Z;
  openedAt : option Z;
  clickedAt : option Z;
  trackingId : string;
  fingerprint : string
}.
End Email.

Module BlockedRegion.
Record t := mk {
  id : Z;
  regionCode : string;
  reason : string;
  isActive : bool
}.
End BlockedRegion.

Module TrackingEvent.
Record t := mk {
  emailId : Z;
  trackingId : string;
  eventType : string;
  rotatingFingerprint : string
}.
End TrackingEvent.

Module SystemMetric.
Record t := mk {
  metricName : string;
  metricValue : string;
  region : string
}.
End SystemMetric.

(* ===================================================================== *)
(** ** The process: database, connection pool, clock, and what it did    *)
(* ===================================================================== *)

(** What the code does to the outside world, in the order it does it: one
    event for every database statement, every SMTP operation and every line
    on the error console, and one at the entry of the functions that the
    ordering properties speak about. *)
Inductive Event :=
| DbGetBlockedRegionByCode (regionCode : string)
| DbGetTemplate (id : Z)
| DbGetSmtpProvidersByRegion (region : string)
| DbGetSmtpProviders
| DbCreateEmail (trackingId : string)
| DbUpdateEmailStatus (id : Z) (status : string)
| DbGetEmailByTrackingId (trackingId : string)
| DbUpdateEmailTracking (trackingId : string) (type : string)
| DbLogTrackingEvent (emailId : Z) (eventType : string)
| DbCreateSystemMetric (metricName : string)
| RenderTemplate
| CallSendEmail
| PoolGetConnection (providerId : Z)
| SmtpVerify (providerId : Z)
| SmtpSendMail (providerId : Z) (html : string)
| ConsoleError (label : string) (message : string).

(** What the process cannot decide: which database statements and SMTP
    operations fail (the n-th operation of the process throws
    [Error(message)] when [fault n = Some message]), the identifiers that
    [uuidv4] and the mail server hand out, the random part of a
    fingerprint, the [HOST] variable of the environment, and the members
    that plain objects inherit. *)
Record Env := {
  fault : nat -> option string;
  uuidv4 : nat -> string;
  messageIdOf : nat -> string;
  generateFingerprint : nat -> string -> string;
  HOST : option string;
  objectPrototype : string -> option string
}.

Record Database := {
  smtpProviders : list SmtpProvider.t;
  templates : list Template.t;
  emails : list Email.t;
  blockedRegions : list BlockedRegion.t;
  emailTrackingEvents : list TrackingEvent.t;
  systemMetrics : list SystemMetric.t;
  emailsIdSeq : Z
}.

Record World := {
  env : Env;
  db : Database;
  (** [SmtpConnectionPool.connections]: provider id to the time of last use *)
  connections : gmap Z Z;
  (** the clock, [Date.now()] *)
  now : Z;
  (** how many operations of the outside world were started *)
  tick : nat;
  log : list Event
}.

Definition withDb (d : Database) (w : World) : World :=
  {| env := env w; db := d; connections := connections w; now := now w;
     tick := tick w; log := log w |}.

Definition withConnections (c : gmap Z Z) (w : World) : World :=
  {| env := env w; db := db w; connections := c; now := now w;
     tick := tick w; log := log w |}.

Definition withTick (n : nat) (w : World) : World :=
  {| env := env w; db := db w; connections := connections w; now := now w;
     tick := n; log := log w |}.

Definition withLog (l : list Event) (w : World) : World :=
  {| env := env w; db := db w; connections := connections w; now := now w;
     tick := tick w; log := l |}.

Definition withNow (t : Z) (w : World) : World :=
  {| env := env w; db := db w; connections := connections w; now := t;
     tick := tick w; log := log w |}.

Definition withEmails (l : list Email.t) (d : Database) : Database :=
  {| smtpProviders := smtpProviders d; templates := templates d; emails := l;
     blockedRegions := blockedRegions d; emailTrackingEvents := emailTrackingEvents d;
     systemMetrics := systemMetrics d; emailsIdSeq := emailsIdSeq d |}.

Definition withEmailsIdSeq (n : Z) (d : Database) : Database :=
  {| smtpProviders := smtpProviders d; templates := templates d; emails := emails d;
     blockedRegions := blockedRegions d; emailTrackingEvents := emailTrackingEvents d;
     systemMetrics := systemMetrics d; emailsIdSeq := n |}.

Definition withEmailTrackingEvents (l : list TrackingEvent.t) (d : Database) : Database :=
  {| smtpProviders := smtpProviders d; templates := templates d; emails := emails d;
     blockedRegions := blockedRegions d; emailTrackingEvents := l;
     systemMetrics := systemMetrics d; emailsIdSeq := emailsIdSeq d |}.

Definition withSystemMetrics (l : list SystemMetric.t) (d : Database) : Database :=
  {| smtpProviders := smtpProviders d; templates := templates d; emails := emails d;
     blockedRegions := blockedRegions d; emailTrackingEvents := emailTrackingEvents d;
     systemMetrics := l; emailsIdSeq := emailsIdSeq d |}.

(** *** Asynchronous functions *)

Inductive Outcome (A : Type) :=
| Returned (value : A)
| Thrown (message : string).
Arguments Returned {A} value.
Arguments Thrown {A} message.

(** An [async] function run to completion from a state of the process. *)
Definition M (A : Type) : Type := World -> Outcome A * World.

Definition ret {A} (a : A) : M A := fun w => (Returned a, w).

Definition throw {A} (message : string) : M A := fun w => (Thrown message, w).

Definition bind {A B} (m : M A) (f : A -> M B) : M B :=
  fun w => match m w with
           | (Returned a, w') => f a w'
           | (Thrown e, w') => (Thrown e, w')
           end.

(** [try { body } catch (error) { handler }] *)
Definition tryCatch {A} (body : M A) (handler : string -> M A) : M A :=
  fun w => match body w with
           | (Returned a, w') => (Returned a, w')
           | (Thrown e, w') => handler e w'
           end.

(** A promise that is started and not awaited, its rejection sent to the
    console: [p.catch(console.error)]. *)
Definition fireAndForget {A} (m : M A) : M unit :=
  fun w => match m w with
           | (Returned _, w') => (Returned tt, w')
           | (Thrown e, w') => (Returned tt, withLog (log w' ++ [ConsoleError EmptyString e]) w')
           end.

Declare Scope async_scope.
Delimit Scope async_scope with async.
Notation "x <- m ;; k" := (bind m (fun x => k))
  (at level 100, m at next level, right associativity) : async_scope.
Notation "m ;; k" := (bind m (fun _ => k))
  (at level 100, right associativity) : async_scope.
Open Scope async_scope.

Definition get {A} (f : World -> A) : M A := fun w => (Returned (f w), w).

Definition note (e : Event) : M unit :=
  fun w => (Returned tt, withLog (log w ++ [e]) w).

(** [console.error(label, error)] *)
Definition consoleError (label message : string) : M unit :=
  note (ConsoleError label message).

(** One operation of the outside world: it is logged, and it fails when the
    environment says so, before it has changed anything. *)
Definition io (e : Event) : M unit :=
  fun w =>
    let w' := withTick (S (tick w)) (withLog (log w ++ [e]) w) in
    match fault (env w) (tick w) with
    | Some message => (Thrown message, w')
    | None => (Returned tt, w')
    end.

(** A value that the environment hands out ([uuidv4()], a message id). *)
Definition fresh (f : Env -> nat -> string) : M string :=
  fun w => (Returned (f (env w) (tick w)), withTick (S (tick w)) w).

Definition modifyDb (f : Database -> Database) : M unit :=
  fun w => (Returned tt, withDb (f (db w)) w).

Definition modifyConnections (f : gmap Z Z -> gmap Z Z) : M unit :=
  fun w => (Returned tt, withConnections (f (connections w)) w).

(** [array.sort(compare)]: the sort is stable; [compare a b <= 0] keeps [a]
    before [b]. *)
Fixpoint insertSorted {A} (compare : A -> A -> Z) (x : A) (l : list A) : list A :=
  match l with
  | [] => [x]
  | y :: l' => if compare x y <=? 0 then x :: y :: l' else y :: insertSorted compare x l'
  end.

Definition sort {A} (compare : A -> A -> Z) (l : list A) : list A :=
  fold_right (insertSorted compare) [] l.

(* ===================================================================== *)
(** ** storage.ts: [DatabaseStorage], the storage the services import    *)
(* ===================================================================== *)

Module Storage.

Definition getTemplate (id : Z) : M (option Template.t) :=
  io (DbGetTemplate id) ;;
  rows <- get (fun w => templates (db w)) ;;
  ret (head (List.filter (fun t => Template.id t =? id) rows)).

Definition getSmtpProviders : M (list SmtpProvider.t) :=
  io DbGetSmtpProviders ;;
  get (fun w => smtpProviders (db w)).

(** [where region = ? and is_active order by priority asc]; rows of equal
    priority come in table order. *)
Definition getSmtpProvidersByRegion (region : string) : M (list SmtpProvider.t) :=
  io (DbGetSmtpProvidersByRegion region) ;;
  rows <- get (fun w => smtpProviders (db w)) ;;
  ret (sort (fun a b => SmtpProvider.priority a - SmtpProvider.priority b)
            (List.filter (fun p => String.eqb (SmtpProvider.region p) region && SmtpProvider.isActive p)
                    rows)).

Definition getEmailByTrackingId (trackingId : string) : M (option Email.t) :=
  io (DbGetEmailByTrackingId trackingId) ;;
  rows <- get (fun w => emails (db w)) ;;
  ret (head (List.filter (fun e => String.eqb (Email.trackingId e) trackingId) rows)).

(** What [createEmail] is given: [InsertEmail]. *)
Record InsertEmail := {
  to : string;
  from : string;
  subject : string;
  templateId : option Z;
  smtpProviderId : option Z;
  region : string;
  trackingId : string
}.

(** [insert into emails ... returning]: the row gets the next serial id,
    [status = 'sent'], [sent_at = now()] and no other time stamp. *)
Definition createEmail (insertEmail : InsertEmail) : M Email.t :=
  fingerprint <- fresh (fun e n => generateFingerprint e n (trackingId insertEmail)) ;;
  io (DbCreateEmail (trackingId insertEmail)) ;;
  id <- get (fun w => emailsIdSeq (db w)) ;;
  sentAt <- get now ;;
  let email :=
    {| Email.id := id; Email.to := to insertEmail; Email.from := from insertEmail;
       Email.subject := subject insertEmail; Email.templateId := templateId insertEmail;
       Email.smtpProviderId := smtpProviderId insertEmail; Email.status := "sent";
       Email.region := region insertEmail; Email.sentAt := sentAt;
       Email.deliveredAt := None; Email.openedAt := None; Email.clickedAt := None;
       Email.trackingId := trackingId insertEmail; Email.fingerprint := fingerprint |} in
  modifyDb (fun d => withEmailsIdSeq (id + 1) (withEmails (emails d ++ [email]) d)) ;;
  ret email.

Definition setStatus (status : string) (at_ : Z) (e : Email.t) : Email.t :=
  {| Email.id := Email.id e; Email.to := Email.to e; Email.from := Email.from e;
     Email.subject := Email.subject e; Email.templateId := Email.templateId e;
     Email.smtpProviderId := Email.smtpProviderId e; Email.status := status;
     Email.region := Email.region e; Email.sentAt := Email.sentAt e;
     Email.deliveredAt := if String.eqb status "delivered" then Some at_ else Email.deliveredAt e;
     Email.openedAt := Email.openedAt e; Email.clickedAt := Email.clickedAt e;
     Email.trackingId := Email.trackingId e; Email.fingerprint := Email.fingerprint e |}.

(** [update emails set status = ? (, delivered_at = now) where id = ? returning] *)
Definition updateEmailStatus (id : Z) (status : string) : M (option Email.t) :=
  io (DbUpdateEmailStatus id status) ;;
  at_ <- get now ;;
  rows <- get (fun w => emails (db w)) ;;
  let rows' := map (fun e => if Email.id e =? id then setStatus status at_ e else e) rows in
  modifyDb (withEmails rows') ;;
  ret (head (List.filter (fun e => Email.id e =? id) rows')).

Definition setOpenedAt (at_ : Z) (e : Email.t) : Email.t :=
  {| Email.id := Email.id e; Email.to := Email.to e; Email.from := Email.from e;
     Email.subject := Email.subject e; Email.templateId := Email.templateId e;
     Email.smtpProviderId := Email.smtpProviderId e; Email.status := Email.status e;
     Email.region := Email.region e; Email.sentAt := Email.sentAt e;
     Email.deliveredAt := Email.deliveredAt e;
     Email.openedAt := Some at_; Email.clickedAt := Email.clickedAt e;
     Email.trackingId := Email.trackingId e; Email.fingerprint := Email.fingerprint e |}.

Definition setClickedAt (at_ : Z) (e : Email.t) : Email.t :=
  {| Email.id := Email.id e; Email.to := Email.to e; Email.from := Email.from e;
     Email.subject := Email.subject e; Email.templateId := Email.templateId e;
     Email.smtpProviderId := Email.smtpProviderId e; Email.status := Email.status e;
     Email.region := Email.region e; Email.sentAt := Email.sentAt e;
     Email.deliveredAt := Email.deliveredAt e;
     Email.openedAt := Email.openedAt e; Email.clickedAt := Some at_;
     Email.trackingId := Email.trackingId e; Email.fingerprint := Email.fingerprint e |}.

Inductive TrackingType := opened | clicked.

Definition typeName (type : TrackingType) : string :=
  match type with opened => "opened" | clicked => "clicked" end.

(** The row that [updateEmailTracking] is about: the tracking id is the
    given one and the time stamp of [type] is still null. *)
Definition untracked (trackingId : string) (type : TrackingType) (e : Email.t) : bool :=
  String.eqb (Email.trackingId e) trackingId &&
  match type with
  | opened => match Email.openedAt e with None => true | Some _ => false end
  | clicked => match Email.clickedAt e with None => true | Some _ => false end
  end.

Definition logTrackingEvent (emailId : Z) (trackingId eventType : string) : M unit :=
  fingerprint <- fresh (fun e n => generateFingerprint e n trackingId) ;;
  io (DbLogTrackingEvent emailId eventType) ;;
  modifyDb (fun d => withEmailTrackingEvents
                       (emailTrackingEvents d ++
                        [{| TrackingEvent.emailId := emailId;
                            TrackingEvent.trackingId := trackingId;
                            TrackingEvent.eventType := eventType;
                            TrackingEvent.rotatingFingerprint := fingerprint |}]) d).

(** [update emails set opened_at = now where tracking_id = ? and opened_at is
    null returning] (or the same for [clicked_at]); a tracking event is
    written when a row was updated. *)
Definition updateEmailTracking (trackingId : string) (type : TrackingType)
    : M (option Email.t) :=
  at_ <- get now ;;
  io (DbUpdateEmailTracking trackingId (typeName type)) ;;
  rows <- get (fun w => emails (db w)) ;;
  let stamp := match type with opened => setOpenedAt at_ | clicked => setClickedAt at_ end in
  let updated := map stamp (List.filter (untracked trackingId type) rows) in
  modifyDb (withEmails (map (fun e => if untracked trackingId type e then stamp e else e) rows)) ;;
  match head updated with
  | Some updatedEmail =>
      logTrackingEvent (Email.id updatedEmail) trackingId (typeName type) ;;
      ret (Some updatedEmail)
  | None => ret None
  end.

(** [where region_code = ? and is_active limit 1] *)
Definition getBlockedRegionByCode (regionCode : string) : M (option BlockedRegion.t) :=
  io (DbGetBlockedRegionByCode regionCode) ;;
  rows <- get (fun w => blockedRegions (db w)) ;;
  ret (head (List.filter (fun r => String.eqb (BlockedRegion.regionCode r) regionCode
                              && BlockedRegion.isActive r) rows)).

Definition createSystemMetric (metric : SystemMetric.t) : M SystemMetric.t :=
  io (DbCreateSystemMetric (SystemMetric.metricName metric)) ;;
  modifyDb (fun d => withSystemMetrics (systemMetrics d ++ [metric]) d) ;;
  ret metric.

End Storage.

(* ===================================================================== *)
(** ** utils/smtp-router.ts                                              *)
(* ===================================================================== *)

Module SmtpRouter.
Import JsString.

(** [SmtpConnectionPool.getConnection]: a cached transporter is reused and
    its time of last use refreshed; otherwise one is created, verified against
    the server, and cached. The transporter is named by its provider. *)
Definition getConnection (provider : SmtpProvider.t) : M Z :=
  let id := SmtpProvider.id provider in
  note (PoolGetConnection id) ;;
  cached <- get connections ;;
  match cached !! id with
  | Some _ =>
      lastUsed <- get now ;;
      modifyConnections (fun c => <[id := lastUsed]> c) ;;
      ret id
  | None =>
      io (SmtpVerify id) ;;
      lastUsed <- get now ;;
      modifyConnections (fun c => <[id := lastUsed]> c) ;;
      ret id
  end.

(** The region tag of the recipient address. *)
Definition regionOf (recipientEmail : string) : string :=
  if includes recipientEmail "+eu@" then "EU"
  else if includes recipientEmail "+apac@" then "APAC"
  else "NA".

(** [getSmtpProvider(recipientEmail, volume)] *)
Definition getSmtpProvider (recipientEmail : string) (volume : Z)
    : M (option SmtpProvider.t) :=
  let region := regionOf recipientEmail in
  providers <- Storage.getSmtpProvidersByRegion region ;;
  if (length providers =? 0)%nat then
    allProviders <- Storage.getSmtpProviders ;;
    let activeProviders := List.filter SmtpProvider.isActive allProviders in
    if (length activeProviders =? 0)%nat then ret None
    else ret (head (sort (fun a b => SmtpProvider.priority a - SmtpProvider.priority b)
                         activeProviders))
  else if volume >? 1000 then
    let highCapacityProviders :=
      List.filter (fun p => SmtpProvider.maxSendsPerHour p >=? volume) providers in
    if (0 <? length highCapacityProviders)%nat then ret (head highCapacityProviders)
    else ret (head (sort (fun a b => SmtpProvider.maxSendsPerHour b
                                     - SmtpProvider.maxSendsPerHour a) providers))
  else ret (head providers).

(** The double quote, as a one-character text. *)
Definition q : string := String "034" EmptyString.

(** [process.env.HOST || 'localhost'] *)
Definition hostName (e : Env) : string :=
  match HOST e with
  | Some h => if truthy h then h else "localhost"
  | None => "localhost"
  end.

Definition trackingPixel (host trackingId : string) : string :=
  "<img src=" +:+ q +:+ "http://" +:+ host +:+ ":5000/api/tracking/open/" +:+ trackingId +:+ q
  +:+ " alt=" +:+ q +:+ q +:+ " width=" +:+ q +:+ "1" +:+ q +:+ " height=" +:+ q +:+ "1" +:+ q
  +:+ " style=" +:+ q +:+ "display:none" +:+ q +:+ " class=" +:+ q +:+ "tracking-pixel" +:+ q
  +:+ " />".

(** The pixel goes before the first [</body>], unless the text
    [tracking-pixel] occurs in the body already. *)
Definition addTrackingPixel (host trackingId html : string) : string :=
  if negb (includes html "tracking-pixel")
  then replaceFirst html "</body>" (trackingPixel host trackingId +:+ "</body>")
  else html.

(** A literal of the pattern under the [i] flag: [p] is in lower case. *)
Fixpoint skipIgnoreCase (p s : string) : option string :=
  match p, s with
  | EmptyString, _ => Some s
  | String a p', String c s' =>
      if Ascii.eqb (lowerChar c) a then skipIgnoreCase p' s' else None
  | String _ _, EmptyString => None
  end.

Definition notQuote (c : ascii) : bool := negb (Ascii.eqb c "034").

(** The pattern [<a\s+href=Q([^Q]+)Q] with flag [i], Q the double quote,
    tried at the start of [s]. Both repetitions are greedy and cannot give
    characters back. *)
Definition execAnchor (s : string) : option (string * nat) :=
  match skipIgnoreCase "<a" s with
  | Some r0 =>
      match span isWhiteSpace r0 with
      | (String _ _ as spaces, r1) =>
          match skipIgnoreCase ("href=" +:+ q) r1 with
          | Some r2 =>
              match span notQuote r2 with
              | (String _ _ as url, String _ _) =>
                  Some (url, (String.length spaces + String.length url + 8)%nat)
              | _ => None
              end
          | None => None
          end
      | _ => None
      end
  | None => None
  end.

Definition trackingUrl (host trackingId url : string) : string :=
  "http://" +:+ host +:+ ":5000/api/tracking/click/" +:+ trackingId
  +:+ "?url=" +:+ encodeURIComponent url.

(** [html.replace(/<a\s+href=Q([^Q]+)Q/gi, (match, url) => ...)] *)
Definition addLinkTracking (host trackingId html : string) : string :=
  RegExp.replaceAll execAnchor
    (fun _ url => "<a href=" +:+ q +:+ trackingUrl host trackingId url +:+ q) html.

(** The tracking injection of [sendEmail]: the pixel, then the links. *)
Definition injectTracking (host trackingId html : string) : string :=
  addLinkTracking host trackingId (addTrackingPixel host trackingId html).

Record SendOptions := {
  to : string;
  from : string;
  subject : string;
  html : string;
  text : string;
  trackingId : string;
  volume : Z
}.

Record SendResult := {
  success : bool;
  messageId : option string;
  providerId : option Z;
  error : option string
}.

(** [transporter.sendMail(...)] *)
Definition sendMail (transporter : Z) (html : string) : M string :=
  io (SmtpSendMail transporter html) ;;
  fresh messageIdOf.

Definition metric (metricName metricValue region : string) : SystemMetric.t :=
  {| SystemMetric.metricName := metricName; SystemMetric.metricValue := metricValue;
     SystemMetric.region := region |}.

(** [sendEmail(options)] *)
Definition sendEmail (options : SendOptions) : M SendResult :=
  note CallSendEmail ;;
  tryCatch
    (let volume := if volume options =? 0 then 1 else volume options in
     provider <- getSmtpProvider (to options) volume ;;
     match provider with
     | None => throw "No suitable SMTP provider found"
     | Some provider =>
         transporter <- getConnection provider ;;
         host <- get (fun w => hostName (env w)) ;;
         let html := injectTracking host (trackingId options) (html options) in
         result <- sendMail transporter html ;;
         fireAndForget (Storage.createSystemMetric
                          (metric "email_sent" "success" (SmtpProvider.region provider))) ;;
         ret {| success := true; messageId := Some result;
                providerId := Some (SmtpProvider.id provider); error := None |}
     end)
    (fun error =>
       consoleError "Email sending error:" error ;;
       fireAndForget (Storage.createSystemMetric (metric "email_sent" "failure" "Global")) ;;
       ret {| success := false; messageId := None; providerId := None;
              error := Some error |}).

End SmtpRouter.

(* ===================================================================== *)
(** ** services/email.ts                                                 *)
(* ===================================================================== *)

Module EmailService.
Import JsString.

(** A request as [sendEmailSchema] hands it on: [region] and [volume] have
    their defaults filled in. *)
Record SendEmailRequest := {
  to : string;
  from : string;
  subject : string;
  html : option string;
  text : option string;
  templateId : option Z;
  variables : option (gmap string string);
  region : string;
  volume : Z
}.

Record ComplianceResult := {
  allowed : bool;
  reason : option string
}.

Definition countryMarkers : list (string * string) :=
  [("cu", "CU"); ("ir", "IR"); ("kp", "KP"); ("sy", "SY"); ("ua", "UA")].

(** The address heuristic: the lower-cased address holds [+marker@] or
    [.marker]. *)
Definition hasMarker (to marker : string) : bool :=
  includes (toLowerCase to) ("+" +:+ marker +:+ "@")
  || includes (toLowerCase to) ("." +:+ marker).

(** The loop of [checkRegionCompliance] over the remaining markers. *)
Fixpoint checkMarkers (markers : list (string * string)) (to : string)
    : M ComplianceResult :=
  match markers with
  | [] => ret {| allowed := true; reason := None |}
  | (marker, code) :: rest =>
      if hasMarker to marker then
        blockedRegion <- Storage.getBlockedRegionByCode code ;;
        match blockedRegion with
        | Some r => ret {| allowed := false; reason := Some (BlockedRegion.reason r) |}
        | None => checkMarkers rest to
        end
      else checkMarkers rest to
  end.

(** [checkRegionCompliance(to, region)]; the region is not looked at. *)
Definition checkRegionCompliance (to region : string) : M ComplianceResult :=
  checkMarkers countryMarkers to.

Record SendEmailResponse := {
  success : bool;
  emailId : option Z;
  trackingId : option string;
  message : string;
  error : option string
}.

(** [x || ''] for an optional text. *)
Definition orEmpty (x : option string) : string :=
  match x with Some s => s | None => EmptyString end.

(** [x || d] for a text. *)
Definition orElse (x d : string) : string := if truthy x then x else d.

(** A template id that is given and truthy (not zero). *)
Definition givenTemplateId (request : SendEmailRequest) : option Z :=
  match templateId request with
  | Some id => if id =? 0 then None else Some id
  | None => None
  end.

Definition pretty_id (id : Z) : string := pretty.pretty id.

(** [processTemplate(content, request.variables)]: a missing [variables]
    takes the default of the parameter, the empty object. *)
Definition render (content : string) (request : SendEmailRequest) : M string :=
  note RenderTemplate ;;
  proto <- get (fun w => objectPrototype (env w)) ;;
  ret (TemplateEngine.processTemplate proto content
         (match variables request with Some v => v | None => ∅ end)).

(** The end of the [try] block of [processEmailSend], from the comment
    [Record the email in the database] on: the record is created, the message
    is handed to [sendEmail], and the status is written according to the
    result. *)
Definition recordAndSend (request : SendEmailRequest) (trackingId_ html text : string)
    (provider : SmtpProvider.t) : M SendEmailResponse :=
  emailRecord <- Storage.createEmail
    {| Storage.to := to request; Storage.from := from request;
       Storage.subject := subject request;
       Storage.templateId := givenTemplateId request;
       Storage.smtpProviderId := Some (SmtpProvider.id provider);
       Storage.region := orElse (region request) (SmtpProvider.region provider);
       Storage.trackingId := trackingId_ |} ;;
  sendResult <- SmtpRouter.sendEmail
    {| SmtpRouter.to := to request; SmtpRouter.from := from request;
       SmtpRouter.subject := subject request;
       SmtpRouter.html := orElse html "<p>This email does not have HTML content</p>";
       SmtpRouter.text := orElse text "This email does not have text content";
       SmtpRouter.trackingId := trackingId_;
       SmtpRouter.volume := volume request |} ;;
  if negb (SmtpRouter.success sendResult) then
    Storage.updateEmailStatus (Email.id emailRecord) "failed" ;;
    ret {| success := false; emailId := Some (Email.id emailRecord);
           trackingId := Some trackingId_;
           message := "Failed to send email";
           error := SmtpRouter.error sendResult |}
  else
    Storage.updateEmailStatus (Email.id emailRecord) "sent" ;;
    ret {| success := true; emailId := Some (Email.id emailRecord);
           trackingId := Some trackingId_;
           message := "Email sent successfully"; error := None |}.

(** The [try] block of [processEmailSend] between the compliance check and
    there: the tracking id, the content, the provider. *)
Definition afterCompliance (request : SendEmailRequest) : M SendEmailResponse :=
  trackingId_ <- fresh uuidv4 ;;
  content <-
    match givenTemplateId request with
    | Some id =>
        template <- Storage.getTemplate id ;;
        match template with
        | None => ret None
        | Some template =>
            html <- render (Template.htmlContent template) request ;;
            text <- render (Template.textContent template) request ;;
            ret (Some (html, text))
        end
    | None => ret (Some (orEmpty (html request), orEmpty (text request)))
    end ;;
  match content with
  | None =>
      ret {| success := false; emailId := None; trackingId := None;
             message := "Template not found";
             error := Some ("Template with ID " +:+ pretty_id (default 0 (templateId request))
                            +:+ " does not exist") |}
  | Some (html, text) =>
      if negb (truthy html) && negb (truthy text) then
        ret {| success := false; emailId := None; trackingId := None;
               message := "Email content is required";
               error := Some "Either html, text, or templateId must be provided" |}
      else
        provider <- SmtpRouter.getSmtpProvider (to request)
                      (if volume request =? 0 then 1 else volume request) ;;
        match provider with
        | None =>
            ret {| success := false; emailId := None; trackingId := None;
                   message := "No suitable SMTP provider available";
                   error := Some "Failed to find an active SMTP provider for this request" |}
        | Some provider => recordAndSend request trackingId_ html text provider
        end
  end.

(** The [try] block of [processEmailSend]: the compliance check comes first. *)
Definition processEmailSendBody (request : SendEmailRequest) : M SendEmailResponse :=
  compliance <- checkRegionCompliance (to request) (orElse (region request) "Global") ;;
  if negb (allowed compliance) then
    ret {| success := false; emailId := None; trackingId := None;
           message := "Recipient is in a blocked region";
           error := Some ("Compliance violation: "
                          +:+ match reason compliance with Some r => r | None => "undefined" end) |}
  else afterCompliance request.

(** [processEmailSend(request)] *)
Definition processEmailSend (request : SendEmailRequest) : M SendEmailResponse :=
  tryCatch (processEmailSendBody request)
    (fun error =>
       consoleError "Email processing error:" error ;;
       ret {| success := false; emailId := None; trackingId := None;
              message := "Failed to process email request";
              error := Some error |}).

End EmailService.

(* ===================================================================== *)
(** ** services/compliance.ts                                            *)
(* ===================================================================== *)

Module ComplianceService.

Record Region := {
  code : string;
  reason : string
}.

Record ComplianceResult := {
  allowed : bool;
  region : option Region
}.

(** [checkRegionCompliance(regionCode)], the check behind
    [/api/compliance/check/:regionCode]. *)
Definition checkRegionCompliance (regionCode : string) : M ComplianceResult :=
  tryCatch
    (blockedRegion <- Storage.getBlockedRegionByCode regionCode ;;
     match blockedRegion with
     | Some r =>
         if BlockedRegion.isActive r then
           ret {| allowed := false;
                  region := Some {| code := BlockedRegion.regionCode r;
                                    reason := BlockedRegion.reason r |} |}
         else ret {| allowed := true; region := None |}
     | None => ret {| allowed := true; region := None |}
     end)
    (fun error =>
       consoleError "Region compliance check error:" error ;;
       ret {| allowed := false;
              region := Some {| code := regionCode;
                                reason := "System error during compliance check" |} |}).

End ComplianceService.

(* ===================================================================== *)
(** ** services/tracking.ts                                              *)
(* ===================================================================== *)

Module TrackingService.
Import JsString.

Record OpenResult := {
  success : bool;
  alreadyTracked : bool;
  emailId : option Z
}.

Definition isSome {A} (x : option A) : bool :=
  match x with Some _ => true | None => false end.

(** [trackEmailOpen(trackingId)] *)
Definition trackEmailOpen (trackingId : string) : M OpenResult :=
  tryCatch
    (email <- Storage.getEmailByTrackingId trackingId ;;
     match email with
     | None => ret {| success := false; alreadyTracked := false; emailId := None |}
     | Some email =>
         if isSome (Email.openedAt email) then
           ret {| success := true; alreadyTracked := true; emailId := Some (Email.id email) |}
         else
           updatedEmail <- Storage.updateEmailTracking trackingId Storage.opened ;;
           match updatedEmail with
           | None => ret {| success := false; alreadyTracked := false; emailId := None |}
           | Some _ =>
               Storage.createSystemMetric
                 (SmtpRouter.metric "email_opened" "1" (Email.region email)) ;;
               ret {| success := true; alreadyTracked := false;
                      emailId := Some (Email.id email) |}
           end
     end)
    (fun error =>
       consoleError "Email open tracking error:" error ;;
       ret {| success := false; alreadyTracked := false; emailId := None |}).

Record ClickResult := {
  clickSuccess : bool;
  clickAlreadyTracked : bool;
  clickEmailId : option Z;
  redirectUrl : string
}.

(** [trackEmailClick(trackingId, url)] *)
Definition trackEmailClick (trackingId url : string) : M ClickResult :=
  tryCatch
    (email <- Storage.getEmailByTrackingId trackingId ;;
     let redirectUrl := if truthy url then url else "/" in
     match email with
     | None => ret {| clickSuccess := false; clickAlreadyTracked := false;
                      clickEmailId := None; redirectUrl := redirectUrl |}
     | Some email =>
         updatedEmail <- Storage.updateEmailTracking trackingId Storage.clicked ;;
         let alreadyTracked := isSome (Email.clickedAt email) in
         (if isSome updatedEmail && negb alreadyTracked then
            Storage.createSystemMetric
              (SmtpRouter.metric "email_clicked" "1" (Email.region email)) ;;
            ret tt
          else ret tt) ;;
         ret {| clickSuccess := isSome updatedEmail; clickAlreadyTracked := alreadyTracked;
                clickEmailId := Some (Email.id email); redirectUrl := redirectUrl |}
     end)
    (fun error =>
       consoleError "Email click tracking error:" error ;;
       ret {| clickSuccess := false; clickAlreadyTracked := false; clickEmailId := None;
              redirectUrl := if truthy url then url else "/" |}).

End TrackingService.

(* ===================================================================== *)
(** ** routes.ts: the two tracking routes                                *)
(* ===================================================================== *)

Module Routes.
Import JsString.

(** A value of [req.query]: a text, or something that is not a text (absent,
    repeated, nested). *)
Inductive QueryValue :=
| QString (s : string)
| QOther.

Inductive Response :=
| BadRequest
| Redirect (url : string)
| Pixel.

(** The handler of [GET /api/tracking/open/:trackingId] *)
Definition trackingOpen (trackingId : string) : M Response :=
  tryCatch
    (if negb (truthy trackingId) then ret BadRequest
     else
       TrackingService.trackEmailOpen trackingId ;;
       ret Pixel)
    (fun error =>
       consoleError "Track open error:" error ;;
       ret Pixel).

(** The handler of [GET /api/tracking/click/:trackingId] *)
Definition trackingClick (trackingId : string) (url : QueryValue) : M Response :=
  tryCatch
    (match url with
     | QString u =>
         if negb (truthy trackingId) || negb (truthy u) then ret BadRequest
         else
           result <- TrackingService.trackEmailClick trackingId u ;;
           ret (Redirect (TrackingService.redirectUrl result))
     | QOther => ret BadRequest
     end)
    (fun error =>
       consoleError "Track click error:" error ;;
       ret (Redirect (match url with QString u => u | QOther => "/" end))).

End Routes.

(* ===================================================================== *)
(** ** utils/rate-limiter.ts                                             *)
(* ===================================================================== *)

Module RateLimiter.

Record Window := {
  count : Z;
  resetTime : Z
}.

(** [RateLimitStore.store] *)
Abbreviation Store := (gmap string Window).

(** The cleanup that runs every minute: expired entries are deleted. *)
Definition cleanup (now : Z) (store : Store) : Store :=
  filter (fun kv => negb (resetTime (snd kv) <? now) = true) store.

(** [RateLimitStore.increment(key, windowMs)] at time [now] *)
Definition increment (now : Z) (key : string) (windowMs : Z) (store : Store)
    : Window * Store :=
  match store !! key with
  | Some record =>
      if resetTime record <? now then
        let fresh := {| count := 1; resetTime := now + windowMs |} in
        (fresh, <[key := fresh]> store)
      else
        let record' := {| count := count record + 1; resetTime := resetTime record |} in
        (record', <[key := record']> store)
  | None =>
      let fresh := {| count := 1; resetTime := now + windowMs |} in
      (fresh, <[key := fresh]> store)
  end.

Record RateLimitRule := {
  windowMs : Z;
  max : Z;
  message : string
}.

(** The keys of [defaultRules] *)
Inductive RuleType := api | email | tracking.

Definition typeName (type : RuleType) : string :=
  match type with api => "api" | email => "email" | tracking => "tracking" end.

Definition defaultRules (type : RuleType) : RateLimitRule :=
  match type with
  | api => {| windowMs := 60 * 1000; max := 100;
              message := "Too many requests from this IP, please try again after a minute" |}
  | email => {| windowMs := 60 * 60 * 1000; max := 1000;
                message := "Email sending rate limit exceeded" |}
  | tracking => {| windowMs := 60 * 1000; max := 500;
                   message := "Too many tracking events" |}
  end.

Inductive Decision :=
| Next
| TooManyRequests (message : string).

Record Reply := {
  limit : Z;
  remaining : Z;
  reported : Z;
  decision : Decision
}.

(** The middleware that [createRateLimiter(type)] returns, for a request
    from [ip] at time [now]: the headers [X-RateLimit-Limit] and
    [X-RateLimit-Remaining], the count it reports as a system metric (a write
    that is not awaited and whose failure is only logged), and whether the
    request goes on to the route or is answered with status 429. *)
Definition createRateLimiter (type : RuleType) (ip : string) (now : Z) (store : Store)
    : Reply * Store :=
  let rule := defaultRules type in
  let key := typeName type +:+ ":" +:+ ip in
  let '(record, store') := increment now key (windowMs rule) store in
  ({| limit := max rule;
      remaining := Z.max 0 (max rule - count record);
      reported := count record;
      decision := if count record >? max rule
                  then TooManyRequests (message rule) else Next |},
   store').

End RateLimiter.

(** *** The limiter at work *)

Module RateLimiterProcess.
Import RateLimiter.

(** What happens to the store of a process: a request of some class from
    some address passes the middleware, or the periodic cleanup runs. *)
Inductive Step :=
| Request (type : RuleType) (ip : string) (now : Z)
| Cleanup (now : Z).

Definition timeOf (step : Step) : Z :=
  match step with Request _ _ now => now | Cleanup now => now end.

(** The steps run in order; every request is listed with its reply. *)
Fixpoint serve (steps : list Step) (store : Store)
    : list (RuleType * string * Reply) * Store :=
  match steps with
  | [] => ([], store)
  | Request type ip now :: rest =>
      let '(reply, store') := createRateLimiter type ip now store in
      let '(replies, store'') := serve rest store' in
      ((type, ip, reply) :: replies, store'')
  | Cleanup now :: rest => serve rest (cleanup now store)
  end.

Definition sameCaller (type : RuleType) (ip : string) (x : RuleType * string * Reply) : bool :=
  String.eqb (typeName (fst (fst x))) (typeName type) && String.eqb (snd (fst x)) ip.

(** The replies to the requests of one class from one address, in order. *)
Definition repliesTo (type : RuleType) (ip : string)
    (replies : list (RuleType * string * Reply)) : list Reply :=
  map snd (List.filter (sameCaller type ip) replies).

End RateLimiterProcess.

(** *** The tracking callbacks at work *)

Module TrackingProcess.

(** A tracking callback that reaches the service. *)
Inductive Call :=
| Open (trackingId : string)
| Click (trackingId url : string).

(** The callbacks fire one after the other, each at its own time. *)
Fixpoint fire (calls : list (Z * Call)) (w : World) : World :=
  match calls with
  | [] => w
  | (at_, Open trackingId) :: rest =>
      fire rest (snd (TrackingService.trackEmailOpen trackingId (withNow at_ w)))
  | (at_, Click trackingId url) :: rest =>
      fire rest (snd (TrackingService.trackEmailClick trackingId url (withNow at_ w)))
  end.

(** From one state of an email record to a later one: the same record, and
    a time stamp of an open or a click that is set stays what it is. *)
Definition keepsStamps (e e' : Email.t) : Prop :=
  Email.id e' = Email.id e /\
  Email.trackingId e' = Email.trackingId e /\
  (forall t, Email.openedAt e = Some t -> Email.openedAt e' = Some t) /\
  (forall t, Email.clickedAt e = Some t -> Email.clickedAt e' = Some t).

End TrackingProcess.

(* ===================================================================== *)
(** ** A process to run the code on                                      *)
(* ===================================================================== *)

Module Examples.

(** The rows that [MemStorage.initDefaultData] seeds. *)
Definition providers : list SmtpProvider.t :=
  [ SmtpProvider.mk 1 "Amazon SES (NA)" "NA" true 1 5000;
    SmtpProvider.mk 2 "Mailgun (EU)" "EU" true 1 3000;
    SmtpProvider.mk 3 "SendGrid (APAC)" "APAC" true 1 2000 ].

Definition cuba : BlockedRegion.t := BlockedRegion.mk 1 "CU" "US Embargo" true.

Definition blocked : list BlockedRegion.t :=
  [ cuba;
    BlockedRegion.mk 2 "IR" "US Sanctions" true;
    BlockedRegion.mk 3 "KP" "US Sanctions" true ].

Definition welcome : Template.t :=
  Template.mk 1 "<h1>Welcome!</h1><p>Thank you for signing up. {{name}}</p>"
                "Welcome! Thank you for signing up, {{name}}".

Definition database : Database :=
  {| smtpProviders := providers; templates := [welcome]; emails := [];
     blockedRegions := blocked; emailTrackingEvents := []; systemMetrics := [];
     emailsIdSeq := 1 |}.

(** The members a plain object inherits from [Object.prototype], as Node
    prints them. *)
Definition nodePrototype (key : string) : option string :=
  if existsb (String.eqb key)
       ["toString"; "toLocaleString"; "valueOf"; "hasOwnProperty"; "isPrototypeOf";
        "propertyIsEnumerable"; "__defineGetter__"; "__defineSetter__";
        "__lookupGetter__"; "__lookupSetter__"]
  then Some ("function " +:+ key +:+ "() { [native code] }")
  else if String.eqb key "constructor" then Some "function Object() { [native code] }"
  else if String.eqb key "__proto__" then Some "[object Object]"
  else None.

(** The last digit of [n], to tell apart what the environment hands out. *)
Definition digit (n : nat) : string :=
  String (ascii_of_nat (48 + n mod 10)) EmptyString.

(** An environment in which nothing fails. *)
Definition calm : Env :=
  {| fault := fun _ => None;
     uuidv4 := fun n => "9b2f6c1e-7d4a-4e9b-a1c6-5b0f9d2e8a4" +:+ digit n;
     messageIdOf := fun n => "<" +:+ digit n +:+ "@localhost>";
     generateFingerprint := fun n trackingId => digit n +:+ "-" +:+ trackingId;
     HOST := None;
     objectPrototype := nodePrototype |}.

(** An environment in which the database and the mail servers are down. *)
Definition down : Env :=
  {| fault := fun _ => Some "connection refused";
     uuidv4 := uuidv4 calm; messageIdOf := messageIdOf calm;
     generateFingerprint := generateFingerprint calm;
     HOST := None; objectPrototype := nodePrototype |}.

(** An environment in which one operation fails: the seventh, which in a
    send of [request] to an unblocked address is the handshake with the mail
    server. *)
Definition mailDown : Env :=
  {| fault := fun n => if (n =? 6)%nat then Some "connect ETIMEDOUT" else None;
     uuidv4 := uuidv4 calm; messageIdOf := messageIdOf calm;
     generateFingerprint := generateFingerprint calm;
     HOST := None; objectPrototype := nodePrototype |}.

Definition start (e : Env) : World :=
  {| env := e; db := database; connections := ∅; now := 1745014089754;
     tick := 0; log := [] |}.

Definition request (to : string) : EmailService.SendEmailRequest :=
  {| EmailService.to := to; EmailService.from := "noreply@example.com";
     EmailService.subject := "Welcome"; EmailService.html := None;
     EmailService.text := None; EmailService.templateId := Some 1;
     EmailService.variables := Some {[ "name" := "Ada" ]};
     EmailService.region := "Global"; EmailService.volume := 1 |}.

(** The process after a send to an unblocked address, and after the first
    open of that email a second later. *)
Definition sent : World :=
  snd (EmailService.processEmailSend (request "ada@example.com") (start calm)).

Definition opened : World :=
  snd (TrackingService.trackEmailOpen "9b2f6c1e-7d4a-4e9b-a1c6-5b0f9d2e8a40"
         (withNow 1745014090754 sent)).

End Examples.

(* ===================================================================== *)
(** * More of the server code                                            *)
(* ===================================================================== *)

Open Scope list_scope.

(* ===================================================================== *)
(** ** utils/smtp-router.ts: the periodic cleanup of the connection pool *)
(* ===================================================================== *)

Module SmtpConnectionPool.

Definition maxConnectionAge : Z := 5 * 60 * 1000.

(** The callback that the constructor of [SmtpConnectionPool] hands to
    [setInterval]: the connections whose last use is more than
    [maxConnectionAge] back are deleted. *)
Definition cleanup : M unit :=
  now_ <- get now ;;
  modifyConnections
    (filter (fun kv => negb (now_ - snd kv >? maxConnectionAge) = true)).

End SmtpConnectionPool.

(* ===================================================================== *)
(** ** storage.ts: [hashString]                                          *)
(* ===================================================================== *)

Module Fingerprint.
Import JsString.

(** [ToInt32]: the integer modulo 2^32 that lies in the range of a signed
    32-bit integer. *)
Definition toInt32 (z : Z) : Z := (z + 2 ^ 31) mod 2 ^ 32 - 2 ^ 31.

(** One turn of the loop of [hashString]. [hash] is a 32-bit integer; the
    shift gives a 32-bit integer, the subtraction and the addition are exact,
    and [hash & hash] brings the sum back into 32 bits. *)
Definition mix (hash : Z) (char : ascii) : Z :=
  toInt32 (toInt32 (Z.shiftl hash 5) - hash + Z.of_nat (code char)).

Fixpoint mixAll (hash : Z) (input : string) : Z :=
  match input with
  | EmptyString => hash
  | String char rest => mixAll (mix hash char) rest
  end.

(** A digit of [toString(16)]: [0..9], then [a..f]. *)
Definition digit16 (n : Z) : ascii :=
  if n <? 10 then ascii_of_nat (48 + Z.to_nat n) else ascii_of_nat (87 + Z.to_nat n).

(** The digits of [n] in base 16 in front of [acc]; [fuel] bounds the number
    of digits after the first. *)
Fixpoint digits16 (fuel : nat) (n : Z) (acc : string) : string :=
  let acc' := String (digit16 (n mod 16)) acc in
  match fuel with
  | O => acc'
  | S fuel' => if n <? 16 then acc' else digits16 fuel' (n / 16) acc'
  end.

(** [n.toString(16)] for an integer [n >= 0]. *)
Definition toString16 (n : Z) : string := digits16 (Z.to_nat (Z.log2 n)) n EmptyString.

(** [hashString(input)] *)
Definition hashString (input : string) : string :=
  toString16 (Z.abs (mixAll 0 input)).

End Fingerprint.

(* ===================================================================== *)
(** ** storage.ts: statements of [DatabaseStorage] behind the            *)
(**    administration and the statistics                                 *)
(* ===================================================================== *)

Module StorageAdmin.

(** A statement that the database runs for the administration or for the
    statistics. Like every operation of the outside world it fails when the
    environment says so, before it has changed anything. The log of events
    is that of the send pipeline and the tracking; these statements are not
    on it. *)
Definition statement : M unit :=
  fun w =>
    (match fault (env w) (tick w) with
     | Some message => Thrown message
     | None => Returned tt
     end,
     withTick (S (tick w)) w).

(** [select ... from blocked_regions where id = ? limit 1] *)
Definition getBlockedRegion (id : Z) : M (option BlockedRegion.t) :=
  statement ;;
  rows <- get (fun w => blockedRegions (db w)) ;;
  ret (head (List.filter (fun r => BlockedRegion.id r =? id) rows)).

Definition withSmtpProviders (l : list SmtpProvider.t) (d : Database) : Database :=
  {| smtpProviders := l; templates := templates d; emails := emails d;
     blockedRegions := blockedRegions d; emailTrackingEvents := emailTrackingEvents d;
     systemMetrics := systemMetrics d; emailsIdSeq := emailsIdSeq d |}.

Definition withTemplates (l : list Template.t) (d : Database) : Database :=
  {| smtpProviders := smtpProviders d; templates := l; emails := emails d;
     blockedRegions := blockedRegions d; emailTrackingEvents := emailTrackingEvents d;
     systemMetrics := systemMetrics d; emailsIdSeq := emailsIdSeq d |}.

Definition setIsActive (isActive : bool) (p : SmtpProvider.t) : SmtpProvider.t :=
  {| SmtpProvider.id := SmtpProvider.id p; SmtpProvider.name := SmtpProvider.name p;
     SmtpProvider.region := SmtpProvider.region p; SmtpProvider.isActive := isActive;
     SmtpProvider.priority := SmtpProvider.priority p;
     SmtpProvider.maxSendsPerHour := SmtpProvider.maxSendsPerHour p |}.

(** [updateSmtpProvider(id, { isActive })]: [update smtp_providers set
    is_active = ? where id = ? returning], the first of the rows that were
    updated. The patch holds the one column that the caller in
    services/compliance.ts sets. *)
Definition updateSmtpProvider (id : Z) (isActive : bool) : M (option SmtpProvider.t) :=
  statement ;;
  rows <- get (fun w => smtpProviders (db w)) ;;
  let rows' := map (fun p => if SmtpProvider.id p =? id then setIsActive isActive p else p)
                   rows in
  modifyDb (withSmtpProviders rows') ;;
  ret (head (List.filter (fun p => SmtpProvider.id p =? id) rows')).

(** [Partial<InsertTemplate>]: each of the four columns is given or not. *)
Record UpdateTemplateRequest := {
  name : option string;
  subject : option string;
  htmlContent : option string;
  textContent : option string
}.

Definition patch (request : UpdateTemplateRequest) (t : Template.t) : Template.t :=
  {| Template.id := Template.id t;
     Template.htmlContent :=
       match htmlContent request with Some h => h | None => Template.htmlContent t end;
     Template.textContent :=
       match textContent request with Some x => x | None => Template.textContent t end |}.

(** [update templates set ..., updated_at = now where id = ? returning] *)
Definition updateTemplate (id : Z) (request : UpdateTemplateRequest)
    : M (option Template.t) :=
  statement ;;
  rows <- get (fun w => templates (db w)) ;;
  let rows' := map (fun t => if Template.id t =? id then patch request t else t) rows in
  modifyDb (withTemplates rows') ;;
  ret (head (List.filter (fun t => Template.id t =? id) rows')).

(** [select ... from emails where id = ? limit 1] *)
Definition getEmail (id : Z) : M (option Email.t) :=
  statement ;;
  rows <- get (fun w => emails (db w)) ;;
  ret (head (List.filter (fun e => Email.id e =? id) rows)).

(** [select ... from emails order by sent_at desc limit ? offset ?]; rows
    sent at the same time come in table order. The database refuses a
    negative limit or offset. *)
Definition getEmails (limit offset : Z) : M (list Email.t) :=
  statement ;;
  if limit <? 0 then throw "LIMIT must not be negative"
  else if offset <? 0 then throw "OFFSET must not be negative"
  else
    rows <- get (fun w => emails (db w)) ;;
    ret (firstn (Z.to_nat limit)
           (skipn (Z.to_nat offset)
              (sort (fun a b => Email.sentAt b - Email.sentAt a) rows))).

End StorageAdmin.

(* ===================================================================== *)
(** ** services/compliance.ts: [updateBlockedRegionStatus]               *)
(* ===================================================================== *)

(** What the services of the administration answer:
    [{ success, message, error? }]. *)
Module ServiceResult.
Record t := mk {
  success : bool;
  message : string;
  error : option string
}.
End ServiceResult.

Module ComplianceAdmin.
Import ServiceResult.

(** [updateBlockedRegionStatus(id, isActive)]. The region is looked up in
    the table of blocked regions; the update goes to
    [storage.updateSmtpProvider]. *)
Definition updateBlockedRegionStatus (id : Z) (isActive : bool) : M ServiceResult.t :=
  tryCatch
    (existingRegion <- StorageAdmin.getBlockedRegion id ;;
     match existingRegion with
     | None =>
         ret (mk false "Blocked region not found"
                (Some ("Blocked region with ID " +:+ EmailService.pretty_id id
                       +:+ " does not exist")))
     | Some _ =>
         updatedRegion <- StorageAdmin.updateSmtpProvider id isActive ;;
         match updatedRegion with
         | None =>
             ret (mk false "Failed to update blocked region"
                    (Some "Database update operation failed"))
         | Some _ =>
             ret (mk true
                    ("Region " +:+ (if isActive then "activated" else "deactivated")
                     +:+ " successfully")
                    None)
         end
     end)
    (fun error =>
       consoleError "Blocked region update error:" error ;;
       ret (mk false "Failed to update blocked region" (Some error))).

End ComplianceAdmin.

(* ===================================================================== *)
(** ** services/template.ts: [updateTemplate]                            *)
(* ===================================================================== *)

Module TemplateService.
Import JsString.

(** [[...content.matchAll(variableRegex)].map(match => match[1].trim())] *)
Definition variablesIn (content : string) : list string :=
  map trim (RegExp.captures TemplateEngine.execPlaceholder content).

(** [array.includes(v)] on an array of texts. *)
Definition includes (l : list string) (v : string) : bool := existsb (String.eqb v) l.

(** [array.join(separator)] *)
Fixpoint join (separator : string) (l : list string) : string :=
  match l with
  | [] => EmptyString
  | [x] => x
  | x :: rest => x +:+ separator +:+ join separator rest
  end.

Definition missingVariables (html text : string) : list string :=
  List.filter (fun v => negb (includes (variablesIn text) v)) (variablesIn html).

(** [x && y] is truthy for two optional texts: both are given and neither
    is empty. *)
Definition bothGiven (x y : option string) : option (string * string) :=
  match x, y with
  | Some a, Some b => if truthy a && truthy b then Some (a, b) else None
  | _, _ => None
  end.

(** [updateTemplate(id, request)] *)
Definition updateTemplate (id : Z) (request : StorageAdmin.UpdateTemplateRequest)
    : M ServiceResult.t :=
  tryCatch
    (existingTemplate <- Storage.getTemplate id ;;
     match existingTemplate with
     | None =>
         ret (ServiceResult.mk false "Template not found"
                (Some ("Template with ID " +:+ EmailService.pretty_id id
                       +:+ " does not exist")))
     | Some _ =>
         let update :=
           updatedTemplate <- StorageAdmin.updateTemplate id request ;;
           match updatedTemplate with
           | None =>
               ret (ServiceResult.mk false "Failed to update template"
                      (Some "Database update operation failed"))
           | Some _ => ret (ServiceResult.mk true "Template updated successfully" None)
           end in
         match bothGiven (StorageAdmin.htmlContent request)
                         (StorageAdmin.textContent request) with
         | Some (html, text) =>
             let missing := missingVariables html text in
             if (0 <? length missing)%nat then
               ret (ServiceResult.mk false
                      "HTML and text template versions have mismatched variables"
                      (Some ("Variables found in HTML but not in text: "
                             +:+ join ", " missing)))
             else update
         | None => update
         end
     end)
    (fun error =>
       consoleError "Template update error:" error ;;
       ret (ServiceResult.mk false "Failed to update template" (Some error))).

End TemplateService.

(* ===================================================================== *)
(** ** services/tracking.ts: the statistics                              *)
(* ===================================================================== *)

Module TrackingStatistics.
Import TrackingService.

(** A rate in per cent: [0], or [(part / whole) * 100]. The division and
    the multiplication are those of floating point numbers; the rate is kept
    as the two counts it is made of. *)
Inductive Rate :=
| Zero
| Percent (part whole : Z).

(** [array.filter(f).length] *)
Definition count {A} (f : A -> bool) (l : list A) : Z := Z.of_nat (length (List.filter f l)).

Record Statistics := {
  totalSent : Z;
  totalOpened : Z;
  totalClicked : Z;
  openRate : Rate;
  clickRate : Rate;
  clickThroughRate : Rate
}.

(** [getTrackingStatistics()] *)
Definition getTrackingStatistics : M Statistics :=
  emails <- StorageAdmin.getEmails 1000 0 ;;
  let totalSent := Z.of_nat (length emails) in
  let totalOpened := count (fun email => isSome (Email.openedAt email)) emails in
  let totalClicked := count (fun email => isSome (Email.clickedAt email)) emails in
  ret {| totalSent := totalSent;
         totalOpened := totalOpened;
         totalClicked := totalClicked;
         openRate := if totalSent >? 0 then Percent totalOpened totalSent else Zero;
         clickRate := if totalSent >? 0 then Percent totalClicked totalSent else Zero;
         clickThroughRate :=
           if totalOpened >? 0 then Percent totalClicked totalOpened else Zero |}.

Record EmailStats := {
  emailId : Z;
  sent : bool;
  delivered : bool;
  opened : bool;
  clicked : bool;
  sentAt : Z;
  deliveredAt : option Z;
  openedAt : option Z;
  clickedAt : option Z
}.

(** [getEmailTrackingStats(emailId)] *)
Definition getEmailTrackingStats (emailId_ : Z) : M EmailStats :=
  email <- StorageAdmin.getEmail emailId_ ;;
  match email with
  | None => throw ("Email with ID " +:+ EmailService.pretty_id emailId_ +:+ " not found")
  | Some email =>
      ret {| emailId := Email.id email;
             sent := true;
             delivered := String.eqb (Email.status email) "delivered"
                          || isSome (Email.deliveredAt email);
             opened := isSome (Email.openedAt email);
             clicked := isSome (Email.clickedAt email);
             sentAt := Email.sentAt email;
             deliveredAt := Email.deliveredAt email;
             openedAt := Email.openedAt email;
             clickedAt := Email.clickedAt email |}
  end.

End TrackingStatistics.

(** *** Status updates at work *)

Module StatusProcess.

(** The status of emails is written, one update after the other, each at
    its own time: [(at, id, status)]. *)
Fixpoint apply (updates : list (Z * Z * string)) (w : World) : World :=
  match updates with
  | [] => w
  | (at_, id, status) :: rest =>
      apply rest (snd (Storage.updateEmailStatus id status (withNow at_ w)))
  end.

End StatusProcess.

(* ===================================================================== *)
(** ** More of the process to run the code on                            *)
(* ===================================================================== *)

Module Scenarios.
Import Examples.

(** What a computation returned, or [d] if it threw. *)
Definition valueOf {A} (d : A) (o : Outcome A) : A :=
  match o with Returned a => a | Thrown _ => d end.

(** An environment in which the [n]-th operation fails and no other. *)
Definition failingAt (n : nat) (message : string) : Env :=
  {| fault := fun k => if (k =? n)%nat then Some message else None;
     uuidv4 := uuidv4 calm; messageIdOf := messageIdOf calm;
     generateFingerprint := generateFingerprint calm;
     HOST := None; objectPrototype := nodePrototype |}.

Definition amazon : SmtpProvider.t := SmtpProvider.mk 1 "Amazon SES (NA)" "NA" true 1 5000.

Definition newsletter : SmtpRouter.SendOptions :=
  {| SmtpRouter.to := "ada@example.com"; SmtpRouter.from := "noreply@example.com";
     SmtpRouter.subject := "News";
     SmtpRouter.html := "<html><body><p>Hello</p></body></html>";
     SmtpRouter.text := "Hello"; SmtpRouter.trackingId := "t1";
     SmtpRouter.volume := 1 |}.

Definition noResult : SmtpRouter.SendResult :=
  {| SmtpRouter.success := false; SmtpRouter.messageId := None;
     SmtpRouter.providerId := None; SmtpRouter.error := None |}.

Definition noResponse : EmailService.SendEmailResponse :=
  {| EmailService.success := false; EmailService.emailId := None;
     EmailService.trackingId := None; EmailService.message := EmptyString;
     EmailService.error := None |}.

(** A request without a template and without content, and one that names a
    template that does not exist. *)
Definition bare : EmailService.SendEmailRequest :=
  {| EmailService.to := "ada@example.com"; EmailService.from := "noreply@example.com";
     EmailService.subject := "Welcome"; EmailService.html := None;
     EmailService.text := None; EmailService.templateId := None;
     EmailService.variables := None;
     EmailService.region := "Global"; EmailService.volume := 1 |}.

Definition withTemplateId (id : Z) (request : EmailService.SendEmailRequest)
    : EmailService.SendEmailRequest :=
  {| EmailService.to := EmailService.to request;
     EmailService.from := EmailService.from request;
     EmailService.subject := EmailService.subject request;
     EmailService.html := EmailService.html request;
     EmailService.text := EmailService.text request;
     EmailService.templateId := Some id;
     EmailService.variables := EmailService.variables request;
     EmailService.region := EmailService.region request;
     EmailService.volume := EmailService.volume request |}.

(** What [createEmail] is given for an email to [to]. *)
Definition insertFor (to trackingId : string) : Storage.InsertEmail :=
  {| Storage.to := to; Storage.from := "noreply@example.com";
     Storage.subject := "Welcome"; Storage.templateId := Some 1;
     Storage.smtpProviderId := Some 1; Storage.region := "NA";
     Storage.trackingId := trackingId |}.

(** The tracking id of the email of [Examples.sent]. *)
Definition adaTrackingId : string := "9b2f6c1e-7d4a-4e9b-a1c6-5b0f9d2e8a40".

(** The process of [Examples.sent] a second later, in another environment. *)
Definition sentUnder (e : Env) : World :=
  {| env := e; db := db sent; connections := connections sent;
     now := 1745014090754; tick := 0; log := [] |}.

(** The process after the first click of the email of [Examples.sent]. *)
Definition clickedOnce : World :=
  snd (TrackingService.trackEmailClick adaTrackingId "https://example.com/"
         (withNow 1745014090754 sent)).

End Scenarios.

(* ===================================================================== *)
(** ** storage.ts: [MemStorage], the storage that keeps its tables in     *)
(**    memory                                                             *)
(* ===================================================================== *)

(** A [Map] with numbers as keys: its entries in insertion order. *)
Module JsMap.

Definition t (V : Type) : Type := list (Z * V).

Definition get {V} (key : Z) (m : t V) : option V :=
  match List.find (fun kv => fst kv =? key) m with
  | Some kv => Some (snd kv)
  | None => None
  end.

Definition has {V} (key : Z) (m : t V) : bool :=
  existsb (fun kv => fst kv =? key) m.

(** [map.set(key, value)]: a key that the map has keeps its place. *)
Definition set {V} (key : Z) (value : V) (m : t V) : t V :=
  if has key m then map (fun kv => if fst kv =? key then (key, value) else kv) m
  else m ++ [(key, value)].

(** [map.delete(key)]: whether the map had the key, and the map without it. *)
Definition delete {V} (key : Z) (m : t V) : bool * t V :=
  (has key m, List.filter (fun kv => negb (fst kv =? key)) m).

(** [Array.from(map.values())] *)
Definition values {V} (m : t V) : list V := map snd m.

End JsMap.

(** [array.slice(start, end)] for integers [start] and [end]: a negative
    index counts from the end of the array. *)
Definition slice {A} (start end_ : Z) (l : list A) : list A :=
  let len := Z.of_nat (length l) in
  let k := if start <? 0 then Z.max (len + start) 0 else Z.min start len in
  let final := if end_ <? 0 then Z.max (len + end_) 0 else Z.min end_ len in
  firstn (Z.to_nat (final - k)) (skipn (Z.to_nat k) l).

Module MemStorage.

(** [InsertTemplate] *)
Record InsertTemplate := {
  name : string;
  subject : string;
  htmlContent : string;
  textContent : string
}.

(** A template of [MemStorage]: [{ ...insertTemplate, id, createdAt,
    updatedAt }]. *)
Record TemplateRow := {
  templateInsert : InsertTemplate;
  templateId : Z;
  createdAt : Z;
  updatedAt : Z
}.

(** [InsertSmtpProvider] and [Partial<InsertSmtpProvider>], the columns of
    [SmtpProvider.t]. *)
Record InsertSmtpProvider := {
  providerName : string;
  providerRegion : string;
  providerIsActive : bool;
  providerPriority : Z;
  providerMaxSendsPerHour : Z
}.

Record PartialSmtpProvider := {
  newName : option string;
  newRegion : option string;
  newIsActive : option bool;
  newPriority : option Z;
  newMaxSendsPerHour : option Z
}.

(** [InsertBlockedRegion], the columns of [BlockedRegion.t]. *)
Record InsertBlockedRegion := {
  regionCode : string;
  reason : string;
  isActive : bool
}.

(** An email of [MemStorage]: [{ ...insertEmail, id, status, sentAt,
    deliveredAt, openedAt, clickedAt }]. *)
Record EmailRow := {
  emailInsert : Storage.InsertEmail;
  emailId : Z;
  status : string;
  sentAt : Z;
  deliveredAt : option Z;
  openedAt : option Z;
  clickedAt : option Z
}.

(** The tables of templates, providers, emails and blocked regions with
    their counters. The tables of users and metrics are left out: no method
    of these four reads or writes them. *)
Record t := {
  templates : JsMap.t TemplateRow;
  smtpProviders : JsMap.t SmtpProvider.t;
  emails : JsMap.t EmailRow;
  blockedRegions : JsMap.t BlockedRegion.t;
  templateIdCounter : Z;
  smtpProviderIdCounter : Z;
  emailIdCounter : Z;
  blockedRegionIdCounter : Z
}.

Definition withTemplates (m : JsMap.t TemplateRow) (counter : Z) (s : t) : t :=
  {| templates := m; smtpProviders := smtpProviders s; emails := emails s;
     blockedRegions := blockedRegions s; templateIdCounter := counter;
     smtpProviderIdCounter := smtpProviderIdCounter s;
     emailIdCounter := emailIdCounter s;
     blockedRegionIdCounter := blockedRegionIdCounter s |}.

Definition withSmtpProviders (m : JsMap.t SmtpProvider.t) (counter : Z) (s : t) : t :=
  {| templates := templates s; smtpProviders := m; emails := emails s;
     blockedRegions := blockedRegions s; templateIdCounter := templateIdCounter s;
     smtpProviderIdCounter := counter;
     emailIdCounter := emailIdCounter s;
     blockedRegionIdCounter := blockedRegionIdCounter s |}.

Definition withEmails (m : JsMap.t EmailRow) (counter : Z) (s : t) : t :=
  {| templates := templates s; smtpProviders := smtpProviders s; emails := m;
     blockedRegions := blockedRegions s; templateIdCounter := templateIdCounter s;
     smtpProviderIdCounter := smtpProviderIdCounter s;
     emailIdCounter := counter;
     blockedRegionIdCounter := blockedRegionIdCounter s |}.

Definition withBlockedRegions (m : JsMap.t BlockedRegion.t) (counter : Z) (s : t) : t :=
  {| templates := templates s; smtpProviders := smtpProviders s; emails := emails s;
     blockedRegions := m; templateIdCounter := templateIdCounter s;
     smtpProviderIdCounter := smtpProviderIdCounter s;
     emailIdCounter := emailIdCounter s;
     blockedRegionIdCounter := counter |}.

(** *** Templates *)

Definition getTemplate (id : Z) (s : t) : option TemplateRow :=
  JsMap.get id (templates s).

Definition getTemplates (s : t) : list TemplateRow := JsMap.values (templates s).

Definition createTemplate (insertTemplate : InsertTemplate) (now : Z) (s : t)
    : TemplateRow * t :=
  let id := templateIdCounter s in
  let template := {| templateInsert := insertTemplate; templateId := id;
                     createdAt := now; updatedAt := now |} in
  (template, withTemplates (JsMap.set id template (templates s)) (id + 1) s).

(** [{ ...existingTemplate, ...template }] on the columns of the insert. *)
Definition spreadTemplate (template : StorageAdmin.UpdateTemplateRequest)
    (existing : InsertTemplate) : InsertTemplate :=
  {| name := match StorageAdmin.name template with Some x => x | None => name existing end;
     subject := match StorageAdmin.subject template with
                | Some x => x | None => subject existing end;
     htmlContent := match StorageAdmin.htmlContent template with
                    | Some x => x | None => htmlContent existing end;
     textContent := match StorageAdmin.textContent template with
                    | Some x => x | None => textContent existing end |}.

Definition updateTemplate (id : Z) (template : StorageAdmin.UpdateTemplateRequest)
    (now : Z) (s : t) : option TemplateRow * t :=
  match JsMap.get id (templates s) with
  | None => (None, s)
  | Some existingTemplate =>
      let updatedTemplate :=
        {| templateInsert := spreadTemplate template (templateInsert existingTemplate);
           templateId := templateId existingTemplate;
           createdAt := createdAt existingTemplate;
           updatedAt := now |} in
      (Some updatedTemplate,
       withTemplates (JsMap.set id updatedTemplate (templates s)) (templateIdCounter s) s)
  end.

Definition deleteTemplate (id : Z) (s : t) : bool * t :=
  let (had, m) := JsMap.delete id (templates s) in
  (had, withTemplates m (templateIdCounter s) s).

(** *** Providers *)

Definition getSmtpProvider (id : Z) (s : t) : option SmtpProvider.t :=
  JsMap.get id (smtpProviders s).

Definition getSmtpProviders (s : t) : list SmtpProvider.t := JsMap.values (smtpProviders s).

Definition getSmtpProvidersByRegion (region : string) (s : t) : list SmtpProvider.t :=
  sort (fun a b => SmtpProvider.priority a - SmtpProvider.priority b)
       (List.filter (fun provider => String.eqb (SmtpProvider.region provider) region
                                     && SmtpProvider.isActive provider)
                    (JsMap.values (smtpProviders s))).

Definition createSmtpProvider (insertProvider : InsertSmtpProvider) (s : t)
    : SmtpProvider.t * t :=
  let id := smtpProviderIdCounter s in
  let provider := {| SmtpProvider.id := id;
                     SmtpProvider.name := providerName insertProvider;
                     SmtpProvider.region := providerRegion insertProvider;
                     SmtpProvider.isActive := providerIsActive insertProvider;
                     SmtpProvider.priority := providerPriority insertProvider;
                     SmtpProvider.maxSendsPerHour :=
                       providerMaxSendsPerHour insertProvider |} in
  (provider, withSmtpProviders (JsMap.set id provider (smtpProviders s)) (id + 1) s).

Definition orKeep {A} (given : option A) (existing : A) : A :=
  match given with Some x => x | None => existing end.

Definition updateSmtpProvider (id : Z) (provider : PartialSmtpProvider) (s : t)
    : option SmtpProvider.t * t :=
  match JsMap.get id (smtpProviders s) with
  | None => (None, s)
  | Some existingProvider =>
      let updatedProvider :=
        {| SmtpProvider.id := SmtpProvider.id existingProvider;
           SmtpProvider.name := orKeep (newName provider) (SmtpProvider.name existingProvider);
           SmtpProvider.region :=
             orKeep (newRegion provider) (SmtpProvider.region existingProvider);
           SmtpProvider.isActive :=
             orKeep (newIsActive provider) (SmtpProvider.isActive existingProvider);
           SmtpProvider.priority :=
             orKeep (newPriority provider) (SmtpProvider.priority existingProvider);
           SmtpProvider.maxSendsPerHour :=
             orKeep (newMaxSendsPerHour provider)
                    (SmtpProvider.maxSendsPerHour existingProvider) |} in
      (Some updatedProvider,
       withSmtpProviders (JsMap.set id updatedProvider (smtpProviders s))
                         (smtpProviderIdCounter s) s)
  end.

Definition deleteSmtpProvider (id : Z) (s : t) : bool * t :=
  let (had, m) := JsMap.delete id (smtpProviders s) in
  (had, withSmtpProviders m (smtpProviderIdCounter s) s).

(** *** Emails *)

Definition getEmail (id : Z) (s : t) : option EmailRow := JsMap.get id (emails s).

Definition trackingIdOf (email : EmailRow) : string :=
  Storage.trackingId (emailInsert email).

Definition getEmailByTrackingId (trackingId : string) (s : t) : option EmailRow :=
  List.find (fun email => String.eqb (trackingIdOf email) trackingId)
            (JsMap.values (emails s)).

(** [getEmails(limit, offset)]; a caller that leaves them out gets 100 and
    0. *)
Definition getEmails (limit offset : Z) (s : t) : list EmailRow :=
  slice offset (offset + limit)
        (sort (fun a b => sentAt b - sentAt a) (JsMap.values (emails s))).

Definition createEmail (insertEmail : Storage.InsertEmail) (now : Z) (s : t)
    : EmailRow * t :=
  let id := emailIdCounter s in
  let email := {| emailInsert := insertEmail; emailId := id; status := "sent";
                  sentAt := now; deliveredAt := None; openedAt := None;
                  clickedAt := None |} in
  (email, withEmails (JsMap.set id email (emails s)) (id + 1) s).

Definition updateEmailStatus (id : Z) (status_ : string) (now : Z) (s : t)
    : option EmailRow * t :=
  match JsMap.get id (emails s) with
  | None => (None, s)
  | Some email =>
      let updatedEmail :=
        {| emailInsert := emailInsert email; emailId := emailId email; status := status_;
           sentAt := sentAt email;
           deliveredAt := if String.eqb status_ "delivered" then Some now
                          else deliveredAt email;
           openedAt := openedAt email; clickedAt := clickedAt email |} in
      (Some updatedEmail, withEmails (JsMap.set id updatedEmail (emails s)) (emailIdCounter s) s)
  end.

Definition isOpened (type : Storage.TrackingType) : bool :=
  match type with Storage.opened => true | Storage.clicked => false end.

Definition updateEmailTracking (trackingId : string) (type : Storage.TrackingType)
    (now : Z) (s : t) : option EmailRow * t :=
  match List.find (fun email => String.eqb (trackingIdOf email) trackingId)
                  (JsMap.values (emails s)) with
  | None => (None, s)
  | Some email =>
      let updatedEmail :=
        if isOpened type && negb (TrackingService.isSome (openedAt email)) then
          {| emailInsert := emailInsert email; emailId := emailId email;
             status := status email; sentAt := sentAt email;
             deliveredAt := deliveredAt email;
             openedAt := Some now; clickedAt := clickedAt email |}
        else if negb (isOpened type) && negb (TrackingService.isSome (clickedAt email)) then
          {| emailInsert := emailInsert email; emailId := emailId email;
             status := status email; sentAt := sentAt email;
             deliveredAt := deliveredAt email;
             openedAt := openedAt email; clickedAt := Some now |}
        else email in
      (Some updatedEmail,
       withEmails (JsMap.set (emailId email) updatedEmail (emails s)) (emailIdCounter s) s)
  end.

(** *** Blocked regions *)

Definition getBlockedRegion (id : Z) (s : t) : option BlockedRegion.t :=
  JsMap.get id (blockedRegions s).

Definition getBlockedRegions (s : t) : list BlockedRegion.t := JsMap.values (blockedRegions s).

Definition getBlockedRegionByCode (regionCode_ : string) (s : t) : option BlockedRegion.t :=
  List.find (fun region => String.eqb (BlockedRegion.regionCode region) regionCode_
                           && BlockedRegion.isActive region)
            (JsMap.values (blockedRegions s)).

Definition createBlockedRegion (insertRegion : InsertBlockedRegion) (s : t)
    : BlockedRegion.t * t :=
  let id := blockedRegionIdCounter s in
  let region := {| BlockedRegion.id := id;
                   BlockedRegion.regionCode := regionCode insertRegion;
                   BlockedRegion.reason := reason insertRegion;
                   BlockedRegion.isActive := isActive insertRegion |} in
  (region, withBlockedRegions (JsMap.set id region (blockedRegions s)) (id + 1) s).

Definition deleteBlockedRegion (id : Z) (s : t) : bool * t :=
  let (had, m) := JsMap.delete id (blockedRegions s) in
  (had, withBlockedRegions m (blockedRegionIdCounter s) s).

(** *** The constructor *)

Definition defaultProviders : list InsertSmtpProvider :=
  [ {| providerName := "Amazon SES (NA)"; providerRegion := "NA";
       providerIsActive := true; providerPriority := 1;
       providerMaxSendsPerHour := 5000 |};
    {| providerName := "Mailgun (EU)"; providerRegion := "EU";
       providerIsActive := true; providerPriority := 1;
       providerMaxSendsPerHour := 3000 |};
    {| providerName := "SendGrid (APAC)"; providerRegion := "APAC";
       providerIsActive := true; providerPriority := 1;
       providerMaxSendsPerHour := 2000 |} ].

Definition defaultBlockedRegions : list InsertBlockedRegion :=
  [ {| regionCode := "CU"; reason := "US Embargo"; isActive := true |};
    {| regionCode := "IR"; reason := "US Sanctions"; isActive := true |};
    {| regionCode := "KP"; reason := "US Sanctions"; isActive := true |} ].

Definition initDefaultData (now : Z) (s : t) : t :=
  let s1 := fold_left (fun s provider => snd (createSmtpProvider provider s))
                      defaultProviders s in
  let s2 := fold_left (fun s region => snd (createBlockedRegion region s))
                      defaultBlockedRegions s1 in
  snd (createTemplate
         {| name := "Welcome Email"; subject := "Welcome to our platform";
            htmlContent := "<h1>Welcome!</h1><p>Thank you for signing up. {{name}}</p>";
            textContent := "Welcome! Thank you for signing up, {{name}}" |} now s2).

(** [new MemStorage()] at the time [now]. *)
Definition new (now : Z) : t :=
  initDefaultData now
    {| templates := []; smtpProviders := []; emails := []; blockedRegions := [];
       templateIdCounter := 1; smtpProviderIdCounter := 1; emailIdCounter := 1;
       blockedRegionIdCounter := 1 |}.

End MemStorage.

(** The calls that change a [MemStorage], each at its time, one after the
    other. *)
Module MemStorageProcess.
Import MemStorage.

Inductive Call :=
| CreateTemplate (insertTemplate : InsertTemplate)
| UpdateTemplate (id : Z) (template : StorageAdmin.UpdateTemplateRequest)
| DeleteTemplate (id : Z)
| CreateSmtpProvider (insertProvider : InsertSmtpProvider)
| UpdateSmtpProvider (id : Z) (provider : PartialSmtpProvider)
| DeleteSmtpProvider (id : Z)
| CreateEmail (insertEmail : Storage.InsertEmail)
| UpdateEmailStatus (id : Z) (status : string)
| UpdateEmailTracking (trackingId : string) (type : Storage.TrackingType)
| CreateBlockedRegion (insertRegion : InsertBlockedRegion)
| DeleteBlockedRegion (id : Z).

Definition call (c : Call) (now : Z) (s : t) : t :=
  match c with
  | CreateTemplate insertTemplate => snd (createTemplate insertTemplate now s)
  | UpdateTemplate id template => snd (updateTemplate id template now s)
  | DeleteTemplate id => snd (deleteTemplate id s)
  | CreateSmtpProvider insertProvider => snd (createSmtpProvider insertProvider s)
  | UpdateSmtpProvider id provider => snd (updateSmtpProvider id provider s)
  | DeleteSmtpProvider id => snd (deleteSmtpProvider id s)
  | CreateEmail insertEmail => snd (createEmail insertEmail now s)
  | UpdateEmailStatus id status => snd (updateEmailStatus id status now s)
  | UpdateEmailTracking trackingId type => snd (updateEmailTracking trackingId type now s)
  | CreateBlockedRegion insertRegion => snd (createBlockedRegion insertRegion s)
  | DeleteBlockedRegion id => snd (deleteBlockedRegion id s)
  end.

Definition calls (cs : list (Z * Call)) (s : t) : t :=
  fold_left (fun s c => call (snd c) (fst c) s) cs s.

End MemStorageProcess.

Module MemScenarios.
Import MemStorage MemStorageProcess.

(** A storage with three emails, sent a second after one another. *)
Definition threeEmails : MemStorage.t :=
  calls [(1745014090754, CreateEmail (Scenarios.insertFor "ada@example.com" "t1"));
         (1745014091754, CreateEmail (Scenarios.insertFor "bob@example.com" "t2"));
         (1745014092754, CreateEmail (Scenarios.insertFor "eve@example.com" "t3"))]
        (new 1745014089754).

End MemScenarios.

(** * Vocabulary of the properties *)

Open Scope list_scope.

Module TemplateSpec.
Import JsString RegExp TemplateEngine.

Definition notLBrace (c : ascii) : bool := negb (Ascii.eqb c "{").

Definition notBrace (c : ascii) : bool := notLBrace c && notRBrace c.

(** Whether the pattern [[^}]*\}\}] matches at the start of [s]: after the
    longest run without a closing brace come two closing braces. *)
Definition closes (s : string) : bool :=
  match snd (span notRBrace s) with
  | String e (String f _) => Ascii.eqb e "}" && Ascii.eqb f "}"
  | _ => false
  end.

Definition plain (v : string) : Prop := all notBrace v = true.

(** Variables of which one holds a placeholder for another. *)
Definition chained : gmap string string := <["a" := "{{b}}"]> {["b" := "x"]}.

End TemplateSpec.

Module RateLimiterSpec.
Import RateLimiter RateLimiterProcess.

Definition keyOf (type : RuleType) (ip : string) : string := typeName type +:+ ":" +:+ ip.

(** The reply of the middleware to a request that brings the count to [n]. *)
Definition replyAt (type : RuleType) (n : Z) : Reply :=
  {| limit := max (defaultRules type);
     remaining := Z.max 0 (max (defaultRules type) - n);
     reported := n;
     decision := if n >? max (defaultRules type)
                 then TooManyRequests (message (defaultRules type)) else Next |}.

End RateLimiterSpec.

Module AsyncSpec.

(** Whatever [m] does, and however it ends, the states are related. *)
Definition respects (R : World -> World -> Prop) {A} (m : M A) : Prop :=
  forall w o w', m w = (o, w') -> R w w'.

Definition returns {A} (m : M A) : Prop :=
  forall w, exists a w', m w = (Returned a, w').

End AsyncSpec.

Module TraceSpec.
Import AsyncSpec.

(** The computation only added events that satisfy [P] to the log. *)
Definition Emits (P : Event -> Prop) (w w' : World) : Prop :=
  env w' = env w /\ exists evs, log w' = log w ++ evs /\ Forall P evs.

(** The computation only added events that satisfy [P] to the log, and it
    left the database and the connection pool as they were. *)
Definition Quiet (P : Event -> Prop) (w w' : World) : Prop :=
  Emits P w w' /\ db w' = db w /\ connections w' = connections w.

End TraceSpec.

Module ComplianceSpec.
Import EmailService AsyncSpec TraceSpec.

Definition isComplianceLookup (e : Event) : Prop :=
  match e with DbGetBlockedRegionByCode _ => True | _ => False end.

Definition isConsoleError (e : Event) : Prop :=
  match e with ConsoleError _ _ => True | _ => False end.

(** The address resolves to the blocked region [r] through one of the
    markers. *)
Definition resolvesTo (markers : list (string * string)) (to : string)
    (table : list BlockedRegion.t) (r : BlockedRegion.t) : Prop :=
  exists marker code,
    In (marker, code) markers /\ hasMarker to marker = true /\
    In r table /\ BlockedRegion.regionCode r = code /\ BlockedRegion.isActive r = true.

Definition failure (message_ : string) (error_ : string) : SendEmailResponse :=
  {| success := false; emailId := None; trackingId := None;
     message := message_; error := Some error_ |}.

End ComplianceSpec.

Module DeliverySpec.
Import EmailService AsyncSpec TraceSpec.

(** The events of a transport attempt: the call of [sendEmail], the
    acquisition of a connection, and the SMTP operations. *)
Definition isTransport (e : Event) : Prop :=
  match e with
  | CallSendEmail | PoolGetConnection _ | SmtpVerify _ | SmtpSendMail _ _ => True
  | _ => False
  end.

(** In a list of events, a transport attempt comes only after the insertion
    of an email record. *)
Definition recordFirst (evs : list Event) : Prop :=
  forall pre e post, evs = pre ++ e :: post -> isTransport e ->
    exists trackingId, In (DbCreateEmail trackingId) pre.

Definition Ordered (w w' : World) : Prop :=
  exists evs, log w' = log w ++ evs /\ recordFirst evs.

(** The computation leaves the email records as they are. *)
Definition KeepsEmails (w w' : World) : Prop := emails (db w') = emails (db w).

Definition insertOf (request : SendEmailRequest) (trackingId_ : string)
    (provider : SmtpProvider.t) : Storage.InsertEmail :=
  {| Storage.to := to request; Storage.from := from request;
     Storage.subject := subject request;
     Storage.templateId := givenTemplateId request;
     Storage.smtpProviderId := Some (SmtpProvider.id provider);
     Storage.region := orElse (region request) (SmtpProvider.region provider);
     Storage.trackingId := trackingId_ |}.

Definition optionsOf (request : SendEmailRequest) (trackingId_ html text : string)
    : SmtpRouter.SendOptions :=
  {| SmtpRouter.to := to request; SmtpRouter.from := from request;
     SmtpRouter.subject := subject request;
     SmtpRouter.html := orElse html "<p>This email does not have HTML content</p>";
     SmtpRouter.text := orElse text "This email does not have text content";
     SmtpRouter.trackingId := trackingId_;
     SmtpRouter.volume := volume request |}.

End DeliverySpec.

Module SelectionSpec.
Import EmailService AsyncSpec TraceSpec ComplianceSpec.

Definition isSelection (e : Event) : Prop :=
  match e with DbGetSmtpProvidersByRegion _ | DbGetSmtpProviders => True | _ => False end.

Definition isContent (e : Event) : Prop :=
  match e with DbGetTemplate _ | RenderTemplate => True | _ => False end.

End SelectionSpec.

Module TrackingSpec.
Import TrackingService TrackingProcess AsyncSpec TraceSpec.

(** The email records are the same ones, each with its stamps kept. *)
Definition Tracked (w w' : World) : Prop :=
  Forall2 keepsStamps (emails (db w)) (emails (db w')).

(** The computation leaves the tracking events as they are. *)
Definition KeepsEvents (w w' : World) : Prop :=
  emailTrackingEvents (db w') = emailTrackingEvents (db w) /\ emails (db w') = emails (db w).

(** What the guarded update does to the tracking events: nothing, or one
    event for a record with the given tracking id whose stamp was null. *)
Definition appendsFor (trackingId : string) (type : Storage.TrackingType) (w w' : World)
    : Prop :=
  emailTrackingEvents (db w') = emailTrackingEvents (db w) \/
  exists email event,
    In email (emails (db w)) /\ Storage.untracked trackingId type email = true /\
    emailTrackingEvents (db w') = emailTrackingEvents (db w) ++ [event] /\
    TrackingEvent.emailId event = Email.id email /\
    TrackingEvent.eventType event = Storage.typeName type.

End TrackingSpec.

Module InjectionSpec.
Import JsString RegExp SmtpRouter.

Definition notDollar (c : ascii) : bool := negb (Ascii.eqb c "$").

Definition notLt (c : ascii) : bool := negb (Ascii.eqb c "<").

(** A link as a template author writes it. *)
Definition homeLink : string :=
  "<a href=" +:+ q +:+ "http://example.com/" +:+ q +:+ ">home</a>".

End InjectionSpec.

Module LimiterSweepSpec.
Import RateLimiter RateLimiterProcess.

Definition isRequest (step : Step) : bool :=
  match step with Request _ _ _ => true | Cleanup _ => false end.

(** The steps without the runs of the periodic cleanup. *)
Definition requestsOnly (steps : list Step) : list Step := List.filter isRequest steps.

(** The clock does not go back from one step to the next. *)
Definition inOrder (steps : list Step) : Prop :=
  StronglySorted (fun a b => timeOf a <= timeOf b) steps.

(** [swept] is [store] without some of the windows that have expired
    before [t]. *)
Definition sweptBefore (t : Z) (store swept : Store) : Prop :=
  forall key,
    swept !! key = store !! key \/
    (swept !! key = None /\ exists record, store !! key = Some record /\ resetTime record < t).

(** Whether a step is a request of the caller, or a cleanup. *)
Definition concerns (type : RuleType) (ip : string) (step : Step) : bool :=
  match step with
  | Request type' ip' _ => String.eqb (typeName type') (typeName type) && String.eqb ip' ip
  | Cleanup _ => true
  end.

End LimiterSweepSpec.

Module FingerprintSpec.
Import JsString Fingerprint.

(** The polynomial [c0 * 31^(n-1) + c1 * 31^(n-2) + ... + c(n-1)] of the
    code units of a text, on top of [acc * 31^n]. *)
Fixpoint polynomial (acc : Z) (input : string) : Z :=
  match input with
  | EmptyString => acc
  | String char rest => polynomial (31 * acc + Z.of_nat (code char)) rest
  end.

Definition isDigit16 (c : ascii) : bool :=
  let n := code c in ((48 <=? n) && (n <=? 57) || (97 <=? n) && (n <=? 102))%nat.

Definition valueOfDigit16 (c : ascii) : Z :=
  let n := code c in Z.of_nat (if (n <=? 57)%nat then n - 48 else n - 87).

(** The number that a text of digits in base 16 stands for, on top of [acc]. *)
Fixpoint parse16 (acc : Z) (s : string) : Z :=
  match s with
  | EmptyString => acc
  | String c t => parse16 (16 * acc + valueOfDigit16 c) t
  end.

End FingerprintSpec.

Module SendSpec.
Import EmailService.

(** The events of the hand-over of a message to a mail server, up to the
    hand-over itself. *)
Definition isAcquisition (id : Z) (e : Event) : Prop :=
  match e with
  | CallSendEmail | DbGetSmtpProvidersByRegion _ | DbGetSmtpProviders => True
  | PoolGetConnection id' | SmtpVerify id' => id' = id
  | _ => False
  end.

(** The events of the recording of a metric that is not awaited. *)
Definition isMetric (e : Event) : Prop :=
  match e with
  | DbCreateSystemMetric _ | ConsoleError _ _ => True
  | _ => False
  end.

(** The selection of [getSmtpProvider], as a function of the table of
    providers it reads. *)
Definition select (table : list SmtpProvider.t) (recipientEmail : string) (volume : Z)
    : option SmtpProvider.t :=
  let providers :=
    sort (fun a b => SmtpProvider.priority a - SmtpProvider.priority b)
         (List.filter (fun p => String.eqb (SmtpProvider.region p)
                                           (SmtpRouter.regionOf recipientEmail)
                                && SmtpProvider.isActive p) table) in
  if (length providers =? 0)%nat then
    let activeProviders := List.filter SmtpProvider.isActive table in
    if (length activeProviders =? 0)%nat then None
    else head (sort (fun a b => SmtpProvider.priority a - SmtpProvider.priority b)
                    activeProviders)
  else if volume >? 1000 then
    let highCapacityProviders :=
      List.filter (fun p => SmtpProvider.maxSendsPerHour p >=? volume) providers in
    if (0 <? length highCapacityProviders)%nat then head highCapacityProviders
    else head (sort (fun a b => SmtpProvider.maxSendsPerHour b
                                - SmtpProvider.maxSendsPerHour a) providers)
  else head providers.

(** The clock and the environment are the same. *)
Definition SameClock (w w' : World) : Prop := now w' = now w /\ env w' = env w.

End SendSpec.

Module PipelineSpec.
Import EmailService.

(** The variables of a request; none is the empty object. *)
Definition variablesOf (request : SendEmailRequest) : gmap string string :=
  match variables request with Some v => v | None => ∅ end.

(** The content that a send works with: the renderings of the template when
    a template id is given, the content of the request otherwise. [None]
    when the template does not exist. *)
Definition contentOf (proto : string -> option string) (templates : list Template.t)
    (request : SendEmailRequest) : option (string * string) :=
  match givenTemplateId request with
  | Some id =>
      match head (List.filter (fun t => Template.id t =? id) templates) with
      | Some template =>
          Some (TemplateEngine.processTemplate proto (Template.htmlContent template)
                  (variablesOf request),
                TemplateEngine.processTemplate proto (Template.textContent template)
                  (variablesOf request))
      | None => None
      end
  | None => Some (orEmpty (html request), orEmpty (text request))
  end.

(** The same request with another content of its own. *)
Definition withContent (html_ text_ : option string) (request : SendEmailRequest)
    : SendEmailRequest :=
  {| to := to request; from := from request; subject := subject request;
     html := html_; text := text_; templateId := templateId request;
     variables := variables request; region := region request;
     volume := volume request |}.

(** The hand-over of a message to a mail server. *)
Definition isHandOver (e : Event) : Prop :=
  match e with SmtpSendMail _ _ => True | _ => False end.

(** The events of a send before it selects a provider. *)
Definition isPreparation (e : Event) : Prop :=
  match e with
  | DbGetBlockedRegionByCode _ | DbGetTemplate _ | RenderTemplate => True
  | _ => False
  end.

End PipelineSpec.

Module StatisticsSpec.
Import TrackingService.

(** Every email of the given id has a time of delivery. *)
Definition deliveredAll (id : Z) (rows : list Email.t) : Prop :=
  forall e, In e rows -> Email.id e = id -> isSome (Email.deliveredAt e) = true.

End StatisticsSpec.

Module MemStorageSpec.
Import MemStorage MemStorageProcess.

Definition keys {V} (m : JsMap.t V) : list Z := map fst m.

(** Every row of the table is stored under its own id, and the ids are
    distinct, positive and below the counter. *)
Definition tableOk {V} (idOf : V -> Z) (counter : Z) (m : JsMap.t V) : Prop :=
  0 < counter /\ List.NoDup (keys m) /\
  Forall (fun kv => idOf (snd kv) = fst kv /\ 0 < fst kv < counter) m.

Definition consistent (s : t) : Prop :=
  tableOk templateId (templateIdCounter s) (templates s) /\
  tableOk SmtpProvider.id (smtpProviderIdCounter s) (smtpProviders s) /\
  tableOk emailId (emailIdCounter s) (emails s) /\
  tableOk BlockedRegion.id (blockedRegionIdCounter s) (blockedRegions s).

(** No template has the id, and no template will get it. *)
Definition gone (id : Z) (s : t) : Prop :=
  id < templateIdCounter s /\ getTemplate id s = None.

(** The email with the id was opened at the time [at_]. *)
Definition openedAtTime (id at_ : Z) (s : t) : Prop :=
  exists email, getEmail id s = Some email /\ openedAt email = Some at_.

(** All the emails, the latest first. *)
Definition allEmails (s : t) : list EmailRow :=
  sort (fun a b => sentAt b - sentAt a) (JsMap.values (emails s)).

(** The emails are in the order of [sentAt], the latest first. *)
Definition latestFirst (l : list EmailRow) : Prop :=
  StronglySorted (fun a b => sentAt b <= sentAt a) l.

End MemStorageSpec.

(** * Properties *)

Module StringFacts.
Import JsString.

Lemma app_nil_l (s : string) : "" +:+ s = s.
Proof. reflexivity. Qed.

Lemma app_cons (c : ascii) (a b : string) : String c a +:+ b = String c (a +:+ b).
Proof. reflexivity. Qed.

Lemma app_nil_r (s : string) : s +:+ "" = s.
Proof. induction s as [|c s IH]; [reflexivity | now rewrite app_cons, IH]. Qed.

Lemma app_assoc (a b c : string) : (a +:+ b) +:+ c = a +:+ (b +:+ c).
Proof. induction a as [|x a IH]; [reflexivity | now rewrite !app_cons, IH]. Qed.

Lemma length_app (a b : string) :
  String.length (a +:+ b) = (String.length a + String.length b)%nat.
Proof. induction a as [|x a IH]; [reflexivity | rewrite app_cons; simpl; now rewrite IH]. Qed.

Lemma take_app_length (a b : string) : take (String.length a) (a +:+ b) = a.
Proof.
  induction a as [|x a IH]; [now destruct b | rewrite app_cons; simpl; now rewrite IH].
Qed.

Lemma drop_app_length (a b : string) : drop (String.length a) (a +:+ b) = b.
Proof. induction a as [|x a IH]; [reflexivity | rewrite app_cons; simpl; exact IH]. Qed.

Lemma take_drop (n : nat) (s : string) : take n s +:+ drop n s = s.
Proof.
  revert s; induction n as [|n IH]; intros [|c s]; simpl; try reflexivity.
  now rewrite app_cons, IH.
Qed.

Lemma span_spec (p : ascii -> bool) (s a b : string) :
  span p s = (a, b) ->
  s = a +:+ b /\ all p a = true /\
  match b with EmptyString => True | String c _ => p c = false end.
Proof.
  revert a b; induction s as [|c s IH]; simpl; intros a b H.
  - inversion H; subst; auto.
  - destruct (p c) eqn:Hc.
    + destruct (span p s) as [a' b'] eqn:Hs. inversion H; subst.
      destruct (IH a' b eq_refl) as (-> & Ha & Hb).
      rewrite app_cons. simpl. rewrite Hc, Ha. auto.
    + inversion H; subst. rewrite app_nil_l. simpl. auto.
Qed.

Lemma span_app (p : ascii -> bool) (a b : string) :
  all p a = true ->
  match b with EmptyString => True | String c _ => p c = false end ->
  span p (a +:+ b) = (a, b).
Proof.
  intros Ha Hb. induction a as [|c a IH]; simpl in *.
  - rewrite app_nil_l. destruct b as [|d b]; [reflexivity | simpl; now rewrite Hb].
  - apply andb_true_iff in Ha as [Hc Ha]. rewrite ?app_cons. simpl.
    rewrite Hc, (IH Ha). reflexivity.
Qed.

End StringFacts.

Module RegExpFacts.
Import JsString RegExp.

Lemma replaceAll_cons exec f c t :
  replaceAll exec f (String c t) =
  match exec (String c t) with
  | Some (capture, n) => f (String c (take n t)) capture +:+ replaceAll exec f (drop n t)
  | None => String c (replaceAll exec f t)
  end.
Proof. simp replaceAll. destruct (exec (String c t)) as [[cap n]|]; reflexivity. Qed.

Lemma captures_cons exec c t :
  captures exec (String c t) =
  match exec (String c t) with
  | Some (capture, n) => capture :: captures exec (drop n t)
  | None => captures exec t
  end.
Proof. simp captures. destruct (exec (String c t)) as [[cap n]|]; reflexivity. Qed.

Lemma length_drop_le n t : (String.length (drop n t) <= String.length t)%nat.
Proof.
  revert t; induction n as [|n IH]; intros [|d t]; simpl; try lia.
  specialize (IH t). lia.
Qed.

(** Induction on the text by its length, the order the scan recurses on. *)
Lemma string_length_ind (P : string -> Prop) :
  (forall s, (forall t, (String.length t < String.length s)%nat -> P t) -> P s) ->
  forall s, P s.
Proof.
  intros H s. remember (String.length s) as n eqn:Hn. revert s Hn.
  induction n as [n IH] using lt_wf_ind. intros s ->.
  apply H. intros t Ht. exact (IH _ Ht t eq_refl).
Qed.

End RegExpFacts.

Module TemplateFacts.
Import JsString RegExp TemplateEngine StringFacts RegExpFacts TemplateSpec.

Lemma execPlaceholder_inv s name n :
  execPlaceholder s = Some (name, n) ->
  exists rest,
    s = "{{" +:+ name +:+ "}}" +:+ rest /\ name <> "" /\ all notRBrace name = true /\
    n = (String.length name + 3)%nat.
Proof.
  unfold execPlaceholder. destruct s as [|a [|b t]]; try discriminate.
  destruct (Ascii.eqb a "{") eqn:Ha; [|discriminate].
  destruct (Ascii.eqb b "{") eqn:Hb; [|discriminate]. simpl.
  apply Ascii.eqb_eq in Ha, Hb. subst a b.
  destruct (span notRBrace t) as [nm r] eqn:Hs.
  destruct nm as [|n0 n1]; [discriminate|].
  destruct r as [|e [|f r]]; try discriminate.
  destruct (Ascii.eqb e "}") eqn:He; [|discriminate].
  destruct (Ascii.eqb f "}") eqn:Hf; [|discriminate]. simpl.
  apply Ascii.eqb_eq in He, Hf. subst e f.
  intros H; inversion H; subst. exists r.
  apply span_spec in Hs as (-> & Hall & _).
  split; [reflexivity | split; [discriminate | split; [exact Hall | reflexivity]]].
Qed.

Lemma execPlaceholder_intro name rest :
  name <> "" -> all notRBrace name = true ->
  execPlaceholder ("{{" +:+ name +:+ "}}" +:+ rest) = Some (name, (String.length name + 3)%nat).
Proof.
  intros Hne Hall.
  pose proof (span_app notRBrace name ("}}" +:+ rest) Hall eq_refl) as Hs.
  change ("{{" +:+ name +:+ "}}" +:+ rest)
    with (String "{" (String "{" (name +:+ "}}" +:+ rest))).
  unfold execPlaceholder.
  change (Ascii.eqb "{" "{" && Ascii.eqb "{" "{") with true. cbv iota.
  rewrite Hs. destruct name as [|n0 n1]; [contradiction|]. reflexivity.
Qed.

Lemma execPlaceholder_head c t : Ascii.eqb c "{" = false -> execPlaceholder (String c t) = None.
Proof. intros H. unfold execPlaceholder. destruct t; [reflexivity|]. now rewrite H. Qed.

Lemma placeholder_split name rest :
  "{{" +:+ name +:+ "}}" +:+ rest = String "{" (("{" +:+ name +:+ "}}") +:+ rest) /\
  (String.length name + 3)%nat = String.length ("{" +:+ name +:+ "}}").
Proof.
  split.
  - change ("{{" +:+ name +:+ "}}" +:+ rest) with (String "{" ("{" +:+ name +:+ "}}" +:+ rest)).
    f_equal. now rewrite !app_assoc.
  - change ("{" +:+ name +:+ "}}") with (String "{" (name +:+ "}}")).
    simpl. rewrite length_app. simpl. lia.
Qed.

(** What the scan does at a placeholder. *)
Lemma replaceAll_placeholder f name rest :
  name <> "" -> all notRBrace name = true ->
  replaceAll execPlaceholder f ("{{" +:+ name +:+ "}}" +:+ rest) =
  f ("{{" +:+ name +:+ "}}") name +:+ replaceAll execPlaceholder f rest.
Proof.
  intros Hne Hall.
  pose proof (execPlaceholder_intro name rest Hne Hall) as He.
  destruct (placeholder_split name rest) as [Hs Hl].
  rewrite Hs in *. rewrite replaceAll_cons, He, Hl.
  now rewrite take_app_length, drop_app_length.
Qed.

Lemma captures_placeholder name rest :
  name <> "" -> all notRBrace name = true ->
  captures execPlaceholder ("{{" +:+ name +:+ "}}" +:+ rest) =
  name :: captures execPlaceholder rest.
Proof.
  intros Hne Hall.
  pose proof (execPlaceholder_intro name rest Hne Hall) as He.
  destruct (placeholder_split name rest) as [Hs Hl].
  rewrite Hs in *. rewrite captures_cons, He, Hl.
  now rewrite drop_app_length.
Qed.

Section Rendering.
Variable proto : string -> option string.
Variable variables : gmap string string.

Lemma replacer_value matched variable :
  replacer proto variables matched variable =
  match value proto variables variable with Some v => v | None => matched end.
Proof.
  unfold replacer, value. destruct (propertyRead _ _ _) as [v|]; [|reflexivity].
  now destruct (truthy v).
Qed.

Lemma value_truthy variable v : value proto variables variable = Some v -> v <> "".
Proof.
  unfold value. destruct (propertyRead _ _ _) as [x|]; [|discriminate].
  destruct x; simpl; [discriminate|]. intros H; inversion H; discriminate.
Qed.

Lemma render_nil : processTemplate proto "" variables = "".
Proof. reflexivity. Qed.

Lemma render_skip c t :
  execPlaceholder (String c t) = None ->
  processTemplate proto (String c t) variables = String c (processTemplate proto t variables).
Proof. intros H. unfold processTemplate. now rewrite replaceAll_cons, H. Qed.

Lemma subs_skip c t :
  execPlaceholder (String c t) = None ->
  substituted proto (String c t) variables = substituted proto t variables.
Proof. intros H. unfold substituted. now rewrite captures_cons, H. Qed.

Lemma render_placeholder name rest :
  name <> "" -> all notRBrace name = true ->
  processTemplate proto ("{{" +:+ name +:+ "}}" +:+ rest) variables =
  match value proto variables name with
  | Some v => v
  | None => "{{" +:+ name +:+ "}}"
  end +:+ processTemplate proto rest variables.
Proof.
  intros Hne Hall. unfold processTemplate.
  now rewrite replaceAll_placeholder, replacer_value.
Qed.

Lemma subs_placeholder name rest :
  name <> "" -> all notRBrace name = true ->
  substituted proto ("{{" +:+ name +:+ "}}" +:+ rest) variables =
  app (match value proto variables name with Some v => [v] | None => [] end)
      (substituted proto rest variables).
Proof.
  intros Hne Hall. unfold substituted. now rewrite captures_placeholder.
Qed.

(** A text without an opening brace is copied as it is. *)
Lemma render_plain_prefix v t :
  all notLBrace v = true ->
  processTemplate proto (v +:+ t) variables = v +:+ processTemplate proto t variables.
Proof.
  induction v as [|c v IH]; intros Hv; [reflexivity|].
  simpl in Hv. apply andb_true_iff in Hv as [Hc Hv].
  rewrite !app_cons, render_skip, (IH Hv); [reflexivity|].
  apply execPlaceholder_head. unfold notLBrace in Hc. now destruct (Ascii.eqb c "{").
Qed.

Lemma closes_cons c x : notRBrace c = true -> closes (String c x) = closes x.
Proof. intros H. unfold closes. simpl. rewrite H. now destruct (span notRBrace x). Qed.

Lemma closes_rbrace x :
  closes (String "}" x) = match x with String f _ => Ascii.eqb f "}" | _ => false end.
Proof. unfold closes. simpl. destruct x; reflexivity. Qed.

Lemma closes_app name rest :
  all notRBrace name = true -> closes (name +:+ "}}" +:+ rest) = true.
Proof.
  intros H. unfold closes.
  now rewrite (span_app notRBrace name ("}}" +:+ rest) H eq_refl).
Qed.

Lemma execPlaceholder_open x :
  execPlaceholder (String "{" (String "{" x)) = None <->
  closes x = false \/ x = "" \/ exists y, x = String "}" y.
Proof.
  unfold execPlaceholder, closes.
  change (Ascii.eqb "{" "{" && Ascii.eqb "{" "{") with true. cbv iota.
  destruct (span notRBrace x) as [nm r] eqn:Hs.
  apply span_spec in Hs as (-> & Hall & Hr). simpl snd.
  destruct nm as [|n0 n1].
  - split; [intros _|reflexivity]. right. rewrite app_nil_l.
    destruct r as [|e r]; [now left|right]. exists r. f_equal.
    unfold notRBrace in Hr. destruct (Ascii.eqb e "}") eqn:He; [|discriminate].
    now apply Ascii.eqb_eq in He.
  - destruct r as [|e [|f r]].
    + split; [now left | reflexivity].
    + split; [now left | reflexivity].
    + destruct (Ascii.eqb e "}" && Ascii.eqb f "}") eqn:Hef.
      * split; [discriminate|]. intros [H|[H|[y H]]]; try discriminate.
        rewrite app_cons in H. inversion H; subst.
        simpl in Hall. discriminate.
      * split; [now left | reflexivity].
Qed.

Lemma plain_notLBrace v : plain v -> all notLBrace v = true.
Proof.
  unfold plain. induction v as [|c v IH]; simpl; [reflexivity|].
  unfold notBrace at 1. intros H. apply andb_true_iff in H as [H1 H2].
  apply andb_true_iff in H1 as [H1 _]. now rewrite H1, IH.
Qed.

(** A brace at the head of a rendering was at the head of the content. *)
Lemma render_head_brace s c r :
  Forall plain (substituted proto s variables) ->
  processTemplate proto s variables = String c r ->
  notBrace c = false -> exists t, s = String c t.
Proof.
  intros Hp Hr Hc. destruct s as [|c0 t]; [discriminate|].
  destruct (execPlaceholder (String c0 t)) as [[name n]|] eqn:He.
  - destruct (execPlaceholder_inv _ _ _ He) as (rest & Hs & Hne & Hall & _).
    rewrite Hs in Hp, Hr. rewrite subs_placeholder in Hp by assumption.
    rewrite render_placeholder in Hr by assumption.
    destruct (value proto variables name) as [v|] eqn:Hv.
    + apply Forall_app in Hp as [Hp _]. inversion Hp as [|? ? Hpv _]; subst.
      destruct v as [|d v]; [now apply value_truthy in Hv|].
      rewrite app_cons in Hr. inversion Hr; subst.
      unfold plain in Hpv. simpl in Hpv. rewrite Hc in Hpv. discriminate.
    + rewrite !app_cons in Hr. inversion Hr; subst.
      rewrite !app_cons in Hs. inversion Hs; subst. eauto.
  - rewrite render_skip in Hr by assumption. inversion Hr; subst. eauto.
Qed.

Lemma closes_render s :
  Forall plain (substituted proto s variables) ->
  closes s = false -> closes (processTemplate proto s variables) = false.
Proof.
  induction s as [|c t IH]; intros Hp Hc; [reflexivity|].
  destruct (execPlaceholder (String c t)) as [[name n]|] eqn:He.
  - destruct (execPlaceholder_inv _ _ _ He) as (rest & Hs & Hne & Hall & _).
    rewrite Hs in Hc. exfalso.
    change ("{{" +:+ name +:+ "}}" +:+ rest)
      with (String "{" (String "{" (name +:+ "}}" +:+ rest))) in Hc.
    rewrite !closes_cons, closes_app in Hc by (assumption || reflexivity).
    discriminate.
  - rewrite subs_skip in Hp by assumption. rewrite render_skip by assumption.
    destruct (notRBrace c) eqn:Hn.
    + rewrite closes_cons in * by assumption. auto.
    + unfold notRBrace in Hn. destruct (Ascii.eqb c "}") eqn:Hb; [|discriminate].
      apply Ascii.eqb_eq in Hb. subst c. rewrite closes_rbrace in *.
      destruct (processTemplate proto t variables) as [|f r] eqn:Hr; [reflexivity|].
      destruct (Ascii.eqb f "}") eqn:Hf; [|reflexivity].
      apply Ascii.eqb_eq in Hf. subst f.
      destruct (render_head_brace t "}" r Hp Hr eq_refl) as [t' ->].
      exact Hc.
Qed.

(** A position where the pattern fails still fails after the rest was
    rendered. *)
Lemma execPlaceholder_render c t :
  Forall plain (substituted proto t variables) ->
  execPlaceholder (String c t) = None ->
  execPlaceholder (String c (processTemplate proto t variables)) = None.
Proof.
  intros Hp He.
  destruct (Ascii.eqb c "{") eqn:Hc; [|now apply execPlaceholder_head].
  apply Ascii.eqb_eq in Hc. subst c.
  destruct (processTemplate proto t variables) as [|d r] eqn:Hr; [reflexivity|].
  destruct (Ascii.eqb d "{") eqn:Hd.
  2:{ unfold execPlaceholder. now rewrite Hd, andb_false_r. }
  apply Ascii.eqb_eq in Hd. subst d.
  destruct (render_head_brace t "{" r Hp Hr eq_refl) as [t2 ->].
  destruct (execPlaceholder (String "{" t2)) as [[name n]|] eqn:He2.
  - exfalso. destruct (execPlaceholder_inv _ _ _ He2) as (rest & Hs & Hne & Hall & _).
    change ("{{" +:+ name +:+ "}}" +:+ rest)
      with (String "{" (String "{" (name +:+ "}}" +:+ rest))) in Hs.
    inversion Hs; subst t2.
    apply execPlaceholder_open in He. destruct He as [H|[H|[y H]]]; try discriminate.
    rewrite closes_cons, closes_app in H by (assumption || reflexivity). discriminate.
  - rewrite render_skip in Hr by assumption. inversion Hr; subst r.
    rewrite subs_skip in Hp by assumption.
    apply execPlaceholder_open. apply execPlaceholder_open in He.
    destruct He as [H|[H|[y H]]].
    + left. now apply closes_render.
    + subst t2. right. now left.
    + subst t2. right. right.
      rewrite render_skip by (now apply execPlaceholder_head). eauto.
Qed.

End Rendering.

(** C9, as the specification states it, fails: a value that holds a
    placeholder is substituted by the first rendering and rendered by the
    second. *)
Lemma rendering_twice_differs :
  processTemplate Examples.nodePrototype "{{a}}" chained = "{{b}}"
  /\ processTemplate Examples.nodePrototype
       (processTemplate Examples.nodePrototype "{{a}}" chained) chained = "x"
  /\ processTemplate Examples.nodePrototype
       (processTemplate Examples.nodePrototype "{{a}}" chained) chained
     <> processTemplate Examples.nodePrototype "{{a}}" chained.
Proof.
  split; [|split]; try (vm_compute; reflexivity).
  vm_compute. discriminate.
Qed.

(** C9, amended. Rendering is idempotent on a content when the values that
    the rendering substitutes into it hold no brace: rendering the result
    again with the same variables gives the result back. *)
Theorem rendering_idempotent_for_brace_free_values proto content variables :
  Forall plain (substituted proto content variables) ->
  processTemplate proto (processTemplate proto content variables) variables
  = processTemplate proto content variables.
Proof.
  induction content as [s IH] using string_length_ind. intros Hp.
  destruct s as [|c t]; [reflexivity|].
  destruct (execPlaceholder (String c t)) as [[name n]|] eqn:He.
  - destruct (execPlaceholder_inv _ _ _ He) as (rest & Hs & Hne & Hall & _).
    assert (Hlen : (String.length rest < String.length (String c t))%nat).
    { rewrite Hs, !length_app. simpl. lia. }
    rewrite Hs in *. rewrite subs_placeholder in Hp by assumption.
    apply Forall_app in Hp as [Hv Hp]. specialize (IH rest Hlen Hp).
    rewrite render_placeholder by assumption.
    destruct (value proto variables name) as [v|] eqn:Hval.
    + inversion Hv as [|? ? Hpv _]; subst.
      rewrite render_plain_prefix by now apply plain_notLBrace.
      now rewrite IH.
    + rewrite !app_assoc. rewrite render_placeholder by assumption.
      now rewrite Hval, IH, !app_assoc.
  - rewrite subs_skip in Hp by assumption. rewrite render_skip by assumption.
    rewrite render_skip by now apply execPlaceholder_render.
    f_equal. apply IH; [simpl; lia | assumption].
Qed.

Lemma rendering_idempotent_for_brace_free_values_witness :
  substituted Examples.nodePrototype "Dear {{ name }}, {{greeting}}" {["name" := "Ada"]}
  = ["Ada"]
  /\ processTemplate Examples.nodePrototype "Dear {{ name }}, {{greeting}}" {["name" := "Ada"]}
     = "Dear Ada, {{greeting}}"
  /\ processTemplate Examples.nodePrototype
       (processTemplate Examples.nodePrototype "Dear {{ name }}, {{greeting}}"
          {["name" := "Ada"]})
       {["name" := "Ada"]}
     = processTemplate Examples.nodePrototype "Dear {{ name }}, {{greeting}}"
         {["name" := "Ada"]}.
Proof.
  split; [vm_compute; reflexivity|]. split; [vm_compute; reflexivity|].
  apply rendering_idempotent_for_brace_free_values.
  assert (E : substituted Examples.nodePrototype "Dear {{ name }}, {{greeting}}"
                {["name" := "Ada"]} = ["Ada"]) by (vm_compute; reflexivity).
  rewrite E. constructor; [reflexivity | constructor].
Defined.



End TemplateFacts.

Module RateLimiterFacts.
Import RateLimiter RateLimiterProcess RateLimiterSpec.

Lemma keyOf_inj type ip type' ip' :
  keyOf type ip = keyOf type' ip' -> type = type' /\ ip = ip'.
Proof.
  unfold keyOf. destruct type, type'; simpl; intros H; try discriminate;
    (split; [reflexivity|]); cbv [String.append] in H; congruence.
Qed.

Lemma sameCaller_spec type ip type' ip' reply :
  sameCaller type ip (type', ip', reply) = true <-> type' = type /\ ip' = ip.
Proof.
  unfold sameCaller. simpl. rewrite andb_true_iff, !String.eqb_eq.
  split; intros [H1 H2]; subst; split; auto. now destruct type, type'.
Qed.

Lemma repliesTo_same type ip reply replies :
  repliesTo type ip ((type, ip, reply) :: replies) = reply :: repliesTo type ip replies.
Proof.
  unfold repliesTo. simpl.
  now rewrite (proj2 (sameCaller_spec type ip type ip reply) (conj eq_refl eq_refl)).
Qed.

Lemma repliesTo_other type ip type' ip' reply replies :
  keyOf type' ip' <> keyOf type ip ->
  repliesTo type ip ((type', ip', reply) :: replies) = repliesTo type ip replies.
Proof.
  intros Hne. unfold repliesTo. simpl.
  destruct (sameCaller type ip (type', ip', reply)) eqn:Hsc; [|reflexivity].
  apply sameCaller_spec in Hsc as [-> ->]. contradiction.
Qed.

(** A live window of the caller is neither reset nor removed by what happens
    before its reset time: every request of the caller adds one to it. *)
Lemma serve_live_window type ip steps :
  forall store c reset replies store',
    store !! keyOf type ip = Some {| count := c; resetTime := reset |} ->
    Forall (fun step => timeOf step <= reset) steps ->
    serve steps store = (replies, store') ->
    let mine := repliesTo type ip replies in
    store' !! keyOf type ip
      = Some {| count := c + Z.of_nat (length mine); resetTime := reset |} /\
    forall (i : nat) reply, mine !! i = Some reply ->
      reply = replyAt type (c + 1 + Z.of_nat i).
Proof.
  induction steps as [|step steps IH]; intros store c reset replies store' Hk Ht Hs.
  - inversion Hs; subst. simpl. rewrite Z.add_0_r. split; [exact Hk|].
    intros i reply H. discriminate.
  - inversion Ht as [|? ? Hnow Ht']; subst. destruct step as [type' ip' now|now]; simpl in Hs, Hnow.
    + unfold createRateLimiter in Hs.
      destruct (increment now (typeName type' +:+ ":" +:+ ip') (windowMs (defaultRules type')) store)
        as [record store1] eqn:Hi.
      destruct (serve steps store1) as [replies1 store2] eqn:Hs1.
      inversion Hs; subst replies store'. clear Hs.
      destruct (decide (keyOf type' ip' = keyOf type ip)) as [Heq|Hne].
      * apply keyOf_inj in Heq as [-> ->].
        unfold increment in Hi. fold (keyOf type ip) in Hi. rewrite Hk in Hi. simpl in Hi.
        destruct (reset <? now) eqn:Hlt; [apply Z.ltb_lt in Hlt; lia|].
        inversion Hi; subst record store1. clear Hi.
        specialize (IH _ (c + 1) reset _ _ (lookup_insert_eq _ _ _) Ht' Hs1).
        destruct IH as [IH1 IH2]. cbv zeta. rewrite repliesTo_same. simpl length. split.
        -- rewrite IH1. do 2 f_equal. lia.
        -- intros [|i] reply H; simpl in H.
           ++ inversion H; subst. unfold replyAt. simpl. now rewrite Z.add_0_r.
           ++ rewrite (IH2 i reply H). f_equal. lia.
      * assert (Hk1 : store1 !! keyOf type ip = Some {| count := c; resetTime := reset |}).
        { unfold increment in Hi. fold (keyOf type' ip') in Hi.
          destruct (store !! keyOf type' ip') as [r|]; [destruct (resetTime r <? now)|];
            inversion Hi; subst; now rewrite lookup_insert_ne. }
        specialize (IH _ c reset _ _ Hk1 Ht' Hs1). destruct IH as [IH1 IH2].
        cbv zeta. rewrite repliesTo_other by assumption. split; assumption.
    + apply (IH (cleanup now store) c reset replies store'); try assumption.
      unfold cleanup. apply map_lookup_filter_Some. split; [exact Hk|].
      simpl. destruct (reset <? now) eqn:Hlt; [apply Z.ltb_lt in Hlt; lia | reflexivity].
Qed.

(** C5. Within one window the N-th request of a caller is counted as N, also
    past the limit; it goes on to the route exactly when N is at most the
    maximum of its class, and request max+1 is answered with status 429. *)
Theorem rate_limit_counts_within_window :
  forall (type : RuleType) (ip : string) (t0 : Z) (steps : list Step)
         (store : Store) replies store',
    match store !! (typeName type +:+ ":" +:+ ip) with
    | None => True
    | Some record => resetTime record < t0
    end ->
    Forall (fun step => timeOf step <= t0 + windowMs (defaultRules type)) steps ->
    serve (Request type ip t0 :: steps) store = (replies, store') ->
    let mine := repliesTo type ip replies in
    let rule := defaultRules type in
    store' !! (typeName type +:+ ":" +:+ ip)
      = Some {| count := Z.of_nat (length mine); resetTime := t0 + windowMs rule |} /\
    forall (i : nat) reply, mine !! i = Some reply ->
      let N := Z.of_nat i + 1 in
      reported reply = N /\
      remaining reply = Z.max 0 (max rule - N) /\
      (decision reply = Next <-> N <= max rule) /\
      (N = max rule + 1 -> decision reply = TooManyRequests (message rule)).
Proof.
  intros type ip t0 steps store replies store' Hfresh Ht Hs.
  simpl in Hs. unfold createRateLimiter in Hs.
  destruct (increment t0 (typeName type +:+ ":" +:+ ip) (windowMs (defaultRules type)) store)
    as [record store1] eqn:Hi.
  destruct (serve steps store1) as [replies1 store2] eqn:Hs1.
  inversion Hs; subst replies store'. clear Hs.
  assert (Hr : record = {| count := 1; resetTime := t0 + windowMs (defaultRules type) |}
               /\ store1 = <[keyOf type ip := record]> store).
  { unfold increment in Hi. fold (keyOf type ip) in *.
    destruct (store !! keyOf type ip) as [r|].
    - destruct (resetTime r <? t0) eqn:Hlt; [|apply Z.ltb_ge in Hlt; lia].
      inversion Hi; subst; auto.
    - inversion Hi; subst; auto. }
  destruct Hr as [-> ->].
  destruct (serve_live_window type ip steps _ 1 _ _ _ (lookup_insert_eq _ _ _) Ht Hs1)
    as [H1 H2].
  cbv zeta. rewrite repliesTo_same. fold (keyOf type ip). split.
  - rewrite H1. simpl length. do 2 f_equal. lia.
  - intros i reply H.
    assert (Hreply : reply = replyAt type (Z.of_nat i + 1)).
    { destruct i as [|i]; simpl in H.
      - now inversion H.
      - rewrite (H2 i reply H). f_equal. lia. }
    subst reply. unfold replyAt. simpl.
    remember (Z.of_nat i + 1) as N. split; [reflexivity|]. split; [reflexivity|].
    destruct (N >? max (defaultRules type)) eqn:Hgt.
    + apply Z.gtb_lt in Hgt. split; [|reflexivity].
      split; [discriminate | lia].
    + assert (N <= max (defaultRules type)) by (rewrite Z.gtb_ltb in Hgt; apply Z.ltb_ge in Hgt; lia).
      split; [split; auto | lia].
Qed.

Lemma rate_limit_counts_within_window_witness :
  exists replies store',
    serve [Request api "10.0.0.1" 0; Request api "10.0.0.1" 5; Cleanup 10;
           Request tracking "10.0.0.1" 20; Request api "10.0.0.1" 60000] ∅
      = (replies, store') /\
    map reported (repliesTo api "10.0.0.1" replies) = [1; 2; 3] /\
    forall (i : nat) reply, repliesTo api "10.0.0.1" replies !! i = Some reply ->
      reported reply = Z.of_nat i + 1.
Proof.
  eexists _, _. split; [reflexivity|]. split; [vm_compute; reflexivity|].
  intros i reply H.
  refine (proj1 (proj2 (rate_limit_counts_within_window api "10.0.0.1" 0
           [Request api "10.0.0.1" 5; Cleanup 10;
            Request tracking "10.0.0.1" 20; Request api "10.0.0.1" 60000] ∅ _ _ _ _ eq_refl) i reply H)).
  - rewrite lookup_empty. exact I.
  - repeat constructor; simpl; lia.
Defined.

End RateLimiterFacts.

(** ** Relations between the state before and after a computation *)

Module Async.
Import AsyncSpec.

Section Respects.
Variable R : World -> World -> Prop.
Hypothesis R_refl : forall w, R w w.
Hypothesis R_trans : forall w1 w2 w3, R w1 w2 -> R w2 w3 -> R w1 w3.

Lemma respects_ret {A} (a : A) : respects R (ret a).
Proof. intros w o w' H. inversion H; subst. apply R_refl. Qed.

Lemma respects_throw {A} e : respects R (@throw A e).
Proof. intros w o w' H. inversion H; subst. apply R_refl. Qed.

Lemma respects_get {A} (f : World -> A) : respects R (get f).
Proof. intros w o w' H. inversion H; subst. apply R_refl. Qed.

Lemma respects_bind {A B} (m : M A) (f : A -> M B) :
  respects R m -> (forall a, respects R (f a)) -> respects R (bind m f).
Proof.
  intros Hm Hf w o w' H. unfold bind in H.
  destruct (m w) as [[a|e] w1] eqn:Hmw.
  - eapply R_trans; [eapply Hm; eauto | eapply Hf; eauto].
  - inversion H; subst. eapply Hm; eauto.
Qed.

Lemma respects_tryCatch {A} (m : M A) (h : string -> M A) :
  respects R m -> (forall e, respects R (h e)) -> respects R (tryCatch m h).
Proof.
  intros Hm Hh w o w' H. unfold tryCatch in H.
  destruct (m w) as [[a|e] w1] eqn:Hmw.
  - inversion H; subst. eapply Hm; eauto.
  - eapply R_trans; [eapply Hm; eauto | eapply Hh; eauto].
Qed.

Lemma respects_fireAndForget {A} (m : M A) :
  respects R m -> (forall e, respects R (note (ConsoleError EmptyString e))) ->
  respects R (fireAndForget m).
Proof.
  intros Hm Hn w o w' H. unfold fireAndForget in H.
  destruct (m w) as [[a|e] w1] eqn:Hmw; inversion H; subst.
  - eapply Hm; eauto.
  - eapply R_trans; [eapply Hm; eauto | eapply (Hn e); reflexivity].
Qed.

End Respects.

(** *** Taking a run apart *)

Lemma bind_inv {A B} (m : M A) (f : A -> M B) w o w' :
  bind m f w = (o, w') ->
  (exists a w1, m w = (Returned a, w1) /\ f a w1 = (o, w')) \/
  (exists e, m w = (Thrown e, w') /\ o = Thrown e).
Proof.
  unfold bind. destruct (m w) as [[a|e] w1]; intros H.
  - left. eauto.
  - right. inversion H; subst. eauto.
Qed.

Lemma tryCatch_inv {A} (m : M A) (h : string -> M A) w o w' :
  tryCatch m h w = (o, w') ->
  (exists a, m w = (Returned a, w') /\ o = Returned a) \/
  (exists e w1, m w = (Thrown e, w1) /\ h e w1 = (o, w')).
Proof.
  unfold tryCatch. destruct (m w) as [[a|e] w1]; intros H.
  - left. inversion H; subst. eauto.
  - right. eauto.
Qed.

Lemma tryCatch_bind_inv {A B} (m : M A) (k : A -> M B) (h : string -> M B) w o w' :
  tryCatch (bind m k) h w = (o, w') ->
  exists o1 w1, m w = (o1, w1) /\
    match o1 with
    | Returned a => tryCatch (k a) h w1 = (o, w')
    | Thrown e => h e w1 = (o, w')
    end.
Proof.
  unfold tryCatch, bind. destruct (m w) as [[a|e] w1]; intros H; eauto.
Qed.

Lemma io_inv e w o w' :
  io e w = (o, w') ->
  w' = withTick (S (tick w)) (withLog (log w ++ [e]) w) /\
  match fault (env w) (tick w) with
  | Some cause => o = Thrown cause
  | None => o = Returned tt
  end.
Proof. unfold io. destruct (fault (env w) (tick w)); intros H; inversion H; auto. Qed.

Lemma io_returned e w w' :
  io e w = (Returned tt, w') ->
  w' = withTick (S (tick w)) (withLog (log w ++ [e]) w) /\ fault (env w) (tick w) = None.
Proof.
  intros H. apply io_inv in H as [-> H]. split; [reflexivity|].
  destruct (fault (env w) (tick w)); [discriminate | reflexivity].
Qed.

Lemma io_ok e w :
  fault (env w) (tick w) = None ->
  io e w = (Returned tt, withTick (S (tick w)) (withLog (log w ++ [e]) w)).
Proof. intros H. unfold io. now rewrite H. Qed.

Lemma io_fails e w cause :
  fault (env w) (tick w) = Some cause ->
  io e w = (Thrown cause, withTick (S (tick w)) (withLog (log w ++ [e]) w)).
Proof. intros H. unfold io. now rewrite H. Qed.

(** A run that returned is taken apart: every [bind] gives its two runs,
    every operation what it did. *)
Ltac run_inv H :=
  repeat match type of H with
  | bind _ _ _ = (Returned _, _) =>
      let a := fresh "a" in let w1 := fresh "w" in
      let H1 := fresh "Hrun" in let e := fresh "e" in
      apply bind_inv in H as [(a & w1 & H1 & H)|(e & _ & H)];
      [run_inv H1 | discriminate H]
  | ret _ _ = _ => unfold ret in H; inversion H; subst; clear H
  | get _ _ = _ => unfold get in H; inversion H; subst; clear H
  | note _ _ = _ => unfold note in H; inversion H; subst; clear H
  | fresh _ _ = _ => unfold fresh in H; inversion H; subst; clear H
  | modifyDb _ _ = _ => unfold modifyDb in H; inversion H; subst; clear H
  | modifyConnections _ _ = _ => unfold modifyConnections in H; inversion H; subst; clear H
  | io _ _ = (Returned ?u, _) =>
      destruct u; let Hf := fresh "Hfault" in apply io_returned in H as [-> Hf]
  end.

(** *** Computations that cannot throw *)

Lemma returns_ret {A} (a : A) : returns (ret a).
Proof. intros w. now exists a, w. Qed.

Lemma returns_get {A} (f : World -> A) : returns (get f).
Proof. intros w. now exists (f w), w. Qed.

Lemma returns_note e : returns (note e).
Proof. intros w. eexists _, _. reflexivity. Qed.

Lemma returns_bind {A B} (m : M A) (f : A -> M B) :
  returns m -> (forall a, returns (f a)) -> returns (bind m f).
Proof.
  intros Hm Hf w. destruct (Hm w) as (a & w1 & H1). destruct (Hf a w1) as (b & w2 & H2).
  exists b, w2. unfold bind. now rewrite H1.
Qed.

Lemma returns_tryCatch {A} (m : M A) (h : string -> M A) :
  (forall e, returns (h e)) -> returns (tryCatch m h).
Proof.
  intros Hh w. unfold tryCatch. destruct (m w) as [[a|e] w1]; [now exists a, w1|].
  apply Hh.
Qed.

Lemma returns_fireAndForget {A} (m : M A) : returns (fireAndForget m).
Proof.
  intros w. unfold fireAndForget. destruct (m w) as [[a|e] w1]; eexists _, _; reflexivity.
Qed.

(** One step of the proof that a computation respects a relation: the
    control structure is taken apart, the functions of the model are
    unfolded, and [prim] is left with the operations that change the state. *)
Ltac respects_step R_refl R_trans prim :=
  lazymatch goal with
  | |- respects _ (ret _) => apply respects_ret; exact R_refl
  | |- respects _ (throw _) => apply respects_throw; exact R_refl
  | |- respects _ (get _) => apply respects_get; exact R_refl
  | |- respects _ (bind _ _) =>
      apply respects_bind; [exact R_trans | | intros ?]
  | |- respects _ (tryCatch _ _) =>
      apply respects_tryCatch; [exact R_trans | | intros ?]
  | |- respects _ (fireAndForget _) =>
      apply respects_fireAndForget; [exact R_trans | | intros ?]
  | |- respects _ (match ?x with _ => _ end) => destruct x
  | |- respects _ (let _ := _ in _) => cbv zeta
  | |- _ => prim
  end.

End Async.

Module Trace.
Import Async AsyncSpec TraceSpec.

Lemma Emits_refl P w : Emits P w w.
Proof. split; [reflexivity|]. exists []. now rewrite app_nil_r. Qed.

Lemma Emits_trans P w1 w2 w3 : Emits P w1 w2 -> Emits P w2 w3 -> Emits P w1 w3.
Proof.
  intros [He1 (e1 & H1 & F1)] [He2 (e2 & H2 & F2)]. split; [congruence|].
  exists (e1 ++ e2). rewrite H2, H1, app_assoc. split; [reflexivity|].
  now apply Forall_app.
Qed.

Lemma Emits_one P w w' e :
  env w' = env w -> log w' = log w ++ [e] -> P e -> Emits P w w'.
Proof. intros He Hl Hp. split; [exact He|]. exists [e]. split; [exact Hl|]. now constructor. Qed.

Lemma Emits_none P w w' : env w' = env w -> log w' = log w -> Emits P w w'.
Proof. intros He Hl. split; [exact He|]. exists []. now rewrite app_nil_r. Qed.

Lemma emits_io P e : P e -> respects (Emits P) (io e).
Proof.
  intros Hp w o w' H. unfold io in H.
  destruct (fault (env w) (tick w)); inversion H; subst;
    (eapply Emits_one; [reflexivity | reflexivity | exact Hp]).
Qed.

Lemma emits_note P e : P e -> respects (Emits P) (note e).
Proof.
  intros Hp w o w' H. inversion H; subst.
  eapply Emits_one; [reflexivity | reflexivity | exact Hp].
Qed.

Lemma emits_consoleError P label e :
  P (ConsoleError label e) -> respects (Emits P) (consoleError label e).
Proof. apply emits_note. Qed.

Lemma emits_fresh P f : respects (Emits P) (fresh f).
Proof. intros w o w' H. inversion H; subst. now apply Emits_none. Qed.

Lemma emits_modifyDb P f : respects (Emits P) (modifyDb f).
Proof. intros w o w' H. inversion H; subst. now apply Emits_none. Qed.

Lemma emits_modifyConnections P f : respects (Emits P) (modifyConnections f).
Proof. intros w o w' H. inversion H; subst. now apply Emits_none. Qed.

Ltac emits_prim :=
  first [ apply emits_io | apply emits_note | apply emits_consoleError
        | apply emits_fresh | apply emits_modifyDb | apply emits_modifyConnections ].

Lemma Quiet_refl P w : Quiet P w w.
Proof. split; [apply Emits_refl | auto]. Qed.

Lemma Quiet_trans P w1 w2 w3 : Quiet P w1 w2 -> Quiet P w2 w3 -> Quiet P w1 w3.
Proof.
  intros (E1 & D1 & C1) (E2 & D2 & C2).
  split; [eapply Emits_trans; eauto | split; congruence].
Qed.

Lemma Quiet_weaken (P Q : Event -> Prop) w w' :
  (forall e, P e -> Q e) -> Quiet P w w' -> Quiet Q w w'.
Proof.
  intros HPQ ([He (evs & Hl & Hf)] & Hd & Hc). split; [|auto].
  split; [exact He|]. exists evs. split; [exact Hl|].
  eapply Forall_impl; eauto.
Qed.

Lemma quiet_io P e : P e -> respects (Quiet P) (io e).
Proof.
  intros Hp w o w' H. split; [eapply emits_io; eauto|].
  apply io_inv in H as [-> _]. auto.
Qed.

Lemma quiet_note P e : P e -> respects (Quiet P) (note e).
Proof.
  intros Hp w o w' H. split; [eapply emits_note; eauto|].
  inversion H; subst. auto.
Qed.

Lemma quiet_consoleError P label e :
  P (ConsoleError label e) -> respects (Quiet P) (consoleError label e).
Proof. apply quiet_note. Qed.

Lemma quiet_fresh P f : respects (Quiet P) (fresh f).
Proof.
  intros w o w' H. split; [eapply emits_fresh; eauto|]. inversion H; subst. auto.
Qed.

Ltac quiet_prim :=
  first [ apply quiet_io | apply quiet_note | apply quiet_consoleError | apply quiet_fresh ].

Create HintDb model.
#[export] Hint Unfold Storage.getTemplate Storage.getSmtpProviders
  Storage.getSmtpProvidersByRegion Storage.getEmailByTrackingId Storage.createEmail
  Storage.updateEmailStatus Storage.logTrackingEvent Storage.updateEmailTracking
  Storage.getBlockedRegionByCode Storage.createSystemMetric
  SmtpRouter.getConnection SmtpRouter.getSmtpProvider SmtpRouter.sendMail
  SmtpRouter.sendEmail EmailService.checkRegionCompliance EmailService.render
  EmailService.afterCompliance
  EmailService.processEmailSendBody
  EmailService.processEmailSend ComplianceService.checkRegionCompliance
  TrackingService.trackEmailOpen TrackingService.trackEmailClick
  Routes.trackingOpen Routes.trackingClick : model.

Ltac emits P :=
  repeat (try autounfold with model; try unfold EmailService.recordAndSend;
          respects_step (Emits_refl P) (Emits_trans P) ltac:(emits_prim)).

Ltac quiet P :=
  repeat (try autounfold with model; try unfold EmailService.recordAndSend;
          respects_step (Quiet_refl P) (Quiet_trans P) ltac:(quiet_prim)).

End Trace.

Module SortFacts.

Section ByKey.
Context {A : Type}.
Variable compare : A -> A -> Z.
Variable key : A -> Z.
Hypothesis compare_key : forall a b, compare a b = key a - key b.

Lemma insertSorted_not_nil x l : insertSorted compare x l <> [].
Proof. destruct l as [|y l]; simpl; [discriminate|]. destruct (compare x y <=? 0); discriminate. Qed.

Lemma sort_nil_inv l : sort compare l = [] -> l = [].
Proof.
  destruct l as [|x l]; [reflexivity|]. simpl. intros H.
  now apply insertSorted_not_nil in H.
Qed.

Lemma insertSorted_In x l y : In y (insertSorted compare x l) <-> y = x \/ In y l.
Proof.
  induction l as [|z l IH]; simpl; [intuition|].
  destruct (compare x z <=? 0); simpl; [intuition|]. rewrite IH. intuition.
Qed.

Lemma sort_In l y : In y (sort compare l) <-> In y l.
Proof.
  induction l as [|x l IH]; simpl; [reflexivity|].
  rewrite insertSorted_In, IH. intuition.
Qed.

Lemma insertSorted_sorted x l :
  StronglySorted (fun a b => key a <= key b) l ->
  StronglySorted (fun a b => key a <= key b) (insertSorted compare x l).
Proof.
  induction 1 as [|z l Hs IH Hz]; simpl; [repeat constructor|].
  destruct (compare x z <=? 0) eqn:Hc.
  - apply Z.leb_le in Hc. rewrite compare_key in Hc.
    constructor; [now constructor|]. constructor; [lia|].
    rewrite List.Forall_forall in *. intros q Hq. specialize (Hz q Hq). lia.
  - apply Z.leb_gt in Hc. rewrite compare_key in Hc.
    constructor; [exact IH|]. rewrite List.Forall_forall in *. intros q Hq.
    apply insertSorted_In in Hq as [->|Hq]; [lia | now apply Hz].
Qed.

(** The result of [sort] is in ascending order of the key. *)
Lemma sort_sorted l : StronglySorted (fun a b => key a <= key b) (sort compare l).
Proof.
  induction l as [|x l IH]; simpl; [constructor | now apply insertSorted_sorted].
Qed.

(** The first element after sorting is the first of the elements with the
    least key: ties keep the order of the list. *)
Lemma head_sort l p :
  head (sort compare l) = Some p ->
  exists pre post, l = pre ++ p :: post /\
    (forall q, In q pre -> key p < key q) /\ (forall q, In q post -> key p <= key q).
Proof.
  revert p. induction l as [|x l IH]; intros p; simpl; [discriminate|].
  destruct (sort compare l) as [|y s] eqn:Hs.
  - apply sort_nil_inv in Hs. subst l. simpl. intros H; inversion H; subst.
    exists [], []. simpl. intuition.
  - destruct (IH y eq_refl) as (pre & post & Hl & Hpre & Hpost). simpl.
    destruct (compare x y <=? 0) eqn:Hc; simpl; intros H; inversion H; subst p.
    + apply Z.leb_le in Hc. rewrite compare_key in Hc.
      exists [], l. simpl. split; [reflexivity|]. split; [intuition|].
      intros q Hq. rewrite Hl in Hq. apply in_app_or in Hq as [Hq|[<-|Hq]].
      * specialize (Hpre q Hq). lia.
      * lia.
      * specialize (Hpost q Hq). lia.
    + apply Z.leb_gt in Hc. rewrite compare_key in Hc.
      exists (x :: pre), post. rewrite Hl. split; [reflexivity|]. split; [|exact Hpost].
      intros q [<-|Hq]; [lia | now apply Hpre].
Qed.

End ByKey.

Lemma head_filter {A} (f : A -> bool) l p :
  head (List.filter f l) = Some p ->
  exists pre post, l = pre ++ p :: post /\ f p = true /\ forall q, In q pre -> f q = false.
Proof.
  induction l as [|x l IH]; simpl; [discriminate|].
  destruct (f x) eqn:Hx; simpl.
  - intros H; inversion H; subst. exists [], l. simpl. intuition.
  - intros H. destruct (IH H) as (pre & post & -> & Hp & Hpre).
    exists (x :: pre), post. split; [reflexivity|]. split; [exact Hp|].
    intros q [<-|Hq]; auto.
Qed.

Lemma filter_nil_inv {A} (f : A -> bool) l :
  List.filter f l = [] -> forall q, In q l -> f q = false.
Proof.
  induction l as [|x l IH]; simpl; [intuition|].
  destruct (f x) eqn:Hx; [discriminate|]. intros H q [<-|Hq]; auto.
Qed.

End SortFacts.

Module RouterFacts.
Import Async SortFacts AsyncSpec.

Lemma getSmtpProvidersByRegion_returned region w l w1 :
  Storage.getSmtpProvidersByRegion region w = (Returned l, w1) ->
  db w1 = db w /\
  l = sort (fun a b => SmtpProvider.priority a - SmtpProvider.priority b)
        (List.filter (fun p => String.eqb (SmtpProvider.region p) region && SmtpProvider.isActive p)
                     (smtpProviders (db w))).
Proof.
  unfold Storage.getSmtpProvidersByRegion. intros H. run_inv H. auto.
Qed.

Lemma getSmtpProviders_returned w l w1 :
  Storage.getSmtpProviders w = (Returned l, w1) ->
  db w1 = db w /\ l = smtpProviders (db w).
Proof. unfold Storage.getSmtpProviders. intros H. run_inv H. auto. Qed.

(** What [getSmtpProvider] returns, read off the providers table. *)
Lemma getSmtpProvider_returned :
  forall (recipientEmail : string) (volume : Z) (w : World)
         (o : option SmtpProvider.t) (w' : World),
    SmtpRouter.getSmtpProvider recipientEmail volume w = (Returned o, w') ->
    let table := smtpProviders (db w) in
    let regional :=
      sort (fun a b => SmtpProvider.priority a - SmtpProvider.priority b)
           (List.filter (fun p => String.eqb (SmtpProvider.region p)
                                             (SmtpRouter.regionOf recipientEmail)
                                  && SmtpProvider.isActive p) table) in
    StronglySorted (fun a b => SmtpProvider.priority a <= SmtpProvider.priority b) regional /\
    (forall p, In p regional <->
               In p table /\ SmtpProvider.region p = SmtpRouter.regionOf recipientEmail
               /\ SmtpProvider.isActive p = true) /\
    match regional with
    | [] =>
        match o with
        | None => forall p, In p table -> SmtpProvider.isActive p = false
        | Some p =>
            exists pre post,
              List.filter SmtpProvider.isActive table = pre ++ p :: post /\
              (forall q, In q pre -> SmtpProvider.priority p < SmtpProvider.priority q) /\
              (forall q, In q post -> SmtpProvider.priority p <= SmtpProvider.priority q)
        end
    | first :: _ =>
        if volume >? 1000 then
          (exists pre p post,
             o = Some p /\ regional = pre ++ p :: post /\
             volume <= SmtpProvider.maxSendsPerHour p /\
             forall q, In q pre -> SmtpProvider.maxSendsPerHour q < volume)
          \/
          ((forall q, In q regional -> SmtpProvider.maxSendsPerHour q < volume) /\
           exists p, o = Some p /\ In p regional /\
             forall q, In q regional ->
                       SmtpProvider.maxSendsPerHour q <= SmtpProvider.maxSendsPerHour p)
        else o = Some first
    end.
Proof.
  intros recipientEmail volume w o w' Hrun table regional.
  split; [apply sort_sorted; reflexivity|].
  split.
  { intros p. unfold regional. rewrite sort_In, filter_In, andb_true_iff, String.eqb_eq.
    tauto. }
  unfold SmtpRouter.getSmtpProvider in Hrun.
  apply bind_inv in Hrun as [(providers & w1 & H1 & Hrun)|(e & _ & He)]; [|discriminate].
  apply getSmtpProvidersByRegion_returned in H1 as [Hdb1 Hp].
  fold table in Hp. fold regional in Hp. subst providers.
  destruct regional as [|first rest] eqn:Hreg.
  - change ((length (@nil SmtpProvider.t) =? 0)%nat) with true in Hrun. cbv iota in Hrun.
    apply bind_inv in Hrun as [(allProviders & w2 & H2 & Hrun)|(e & _ & He)]; [|discriminate].
    apply getSmtpProviders_returned in H2 as [Hdb2 Hall]. rewrite Hdb1 in Hall.
    fold table in Hall. subst allProviders.
    destruct (List.filter SmtpProvider.isActive table) as [|a act] eqn:Hact.
    + inversion Hrun; subst. now apply filter_nil_inv.
    + change ((length (a :: act) =? 0)%nat) with false in Hrun. cbv iota in Hrun.
      unfold ret in Hrun. injection Hrun as Ho Hw.
      assert (Hh : head (sort (fun a0 b => SmtpProvider.priority a0 - SmtpProvider.priority b)
                              (a :: act)) = o) by exact Ho.
      clear Ho. destruct o as [p|].
      * apply (head_sort _ SmtpProvider.priority (fun _ _ => eq_refl)) in Hh.
        try rewrite Hact. exact Hh.
      * exfalso. simpl in Hh.
        match type of Hh with head ?l = None => destruct l eqn:Hi end;
          [now apply insertSorted_not_nil in Hi | discriminate].
  - change ((length (first :: rest) =? 0)%nat) with false in Hrun. cbv iota in Hrun.
    destruct (volume >? 1000) eqn:Hhigh.
    + destruct (List.filter (fun p => SmtpProvider.maxSendsPerHour p >=? volume) (first :: rest))
        as [|h high] eqn:Hf.
      * right. change ((0 <? length (@nil SmtpProvider.t))%nat) with false in Hrun.
        cbv iota in Hrun. unfold ret in Hrun. injection Hrun as Ho Hw.
        assert (Hlow : forall q, In q (first :: rest) -> SmtpProvider.maxSendsPerHour q < volume).
        { intros q Hq. pose proof (filter_nil_inv _ _ Hf q Hq) as Hc. simpl in Hc.
          rewrite Z.geb_leb in Hc. apply Z.leb_gt in Hc. exact Hc. }
        split; [exact Hlow|].
        assert (Hh : head (sort (fun a b => SmtpProvider.maxSendsPerHour b
                                             - SmtpProvider.maxSendsPerHour a)
                                (first :: rest)) = o) by exact Ho.
        clear Ho. destruct o as [p|].
        -- exists p. split; [reflexivity|].
           apply (head_sort _ (fun a => - SmtpProvider.maxSendsPerHour a)) in Hh;
             [|intros; lia].
           destruct Hh as (pre & post & Hl & Hpre & Hpost). split.
           ++ rewrite Hl. apply in_or_app. right. now left.
           ++ intros q Hq. rewrite Hl in Hq. apply in_app_or in Hq as [Hq|[<-|Hq]].
              ** specialize (Hpre q Hq). lia.
              ** lia.
              ** specialize (Hpost q Hq). lia.
        -- exfalso. simpl in Hh.
           match type of Hh with head ?l = None => destruct l eqn:Hi end;
             [now apply insertSorted_not_nil in Hi | discriminate].
      * left. change ((0 <? length (h :: high))%nat) with true in Hrun.
        cbv iota in Hrun. unfold ret in Hrun. injection Hrun as Ho Hw.
        assert (Hh : head (List.filter (fun p => SmtpProvider.maxSendsPerHour p >=? volume)
                                       (first :: rest)) = Some h) by now rewrite Hf.
        apply head_filter in Hh as (pre & post & Hl & Hc & Hpre).
        exists pre, h, post. split; [now rewrite <- Ho|]. split; [exact Hl|]. split.
        -- rewrite Z.geb_leb in Hc. now apply Z.leb_le in Hc.
        -- intros q Hq. specialize (Hpre q Hq). simpl in Hpre.
           rewrite Z.geb_leb in Hpre. now apply Z.leb_gt in Hpre.
    + unfold ret in Hrun. injection Hrun as Ho Hw. now rewrite <- Ho.
Qed.

End RouterFacts.

Module ComplianceFacts.
Import Async Trace SortFacts EmailService AsyncSpec TraceSpec ComplianceSpec.

Lemma getBlockedRegionByCode_quiet code :
  respects (Quiet isComplianceLookup) (Storage.getBlockedRegionByCode code).
Proof. quiet isComplianceLookup. exact I. Qed.

Lemma getBlockedRegionByCode_returned code w found w1 :
  Storage.getBlockedRegionByCode code w = (Returned found, w1) ->
  found = head (List.filter (fun r => String.eqb (BlockedRegion.regionCode r) code
                                      && BlockedRegion.isActive r)
                            (blockedRegions (db w))).
Proof. unfold Storage.getBlockedRegionByCode. intros H. run_inv H. reflexivity. Qed.

Lemma getBlockedRegionByCode_thrown code w cause w1 :
  Storage.getBlockedRegionByCode code w = (Thrown cause, w1) ->
  fault (env w) (tick w) = Some cause.
Proof.
  unfold Storage.getBlockedRegionByCode. intros H.
  apply bind_inv in H as [(a & w2 & H1 & H)|(e & H1 & He)].
  - apply bind_inv in H as [(b & w3 & H2 & H)|(e & H2 & He)]; discriminate.
  - apply io_inv in H1 as [_ H1]. destruct (fault (env w) (tick w)); congruence.
Qed.

(** What a run of the loop over the markers does and how it ends. *)
Lemma checkMarkers_run markers to :
  forall w o w1,
    checkMarkers markers to w = (o, w1) ->
    Quiet isComplianceLookup w w1 /\
    match o with
    | Returned c =>
        (allowed c = false /\
         exists r, resolvesTo markers to (blockedRegions (db w)) r /\
                   reason c = Some (BlockedRegion.reason r)) \/
        (allowed c = true /\
         forall r, ~ resolvesTo markers to (blockedRegions (db w)) r)
    | Thrown cause => exists n, fault (env w) n = Some cause
    end.
Proof.
  induction markers as [|[marker code] rest IH]; intros w o w1 Hrun.
  - inversion Hrun; subst. split; [apply Quiet_refl|]. right. split; [reflexivity|].
    intros r (m & c & [] & _).
  - cbn [checkMarkers] in Hrun. destruct (hasMarker to marker) eqn:Hm.
    + apply bind_inv in Hrun as [(found & w2 & H1 & Hrun)|(e & H1 & ->)].
      * pose proof (getBlockedRegionByCode_quiet code _ _ _ H1) as Hq.
        apply getBlockedRegionByCode_returned in H1. destruct found as [r|].
        -- inversion Hrun; subst o w1. split; [exact Hq|]. left. split; [reflexivity|].
           symmetry in H1. apply head_filter in H1 as (pre & post & Hl & Hc & _).
           apply andb_true_iff in Hc as [Hc Ha]. apply String.eqb_eq in Hc.
           exists r. split; [|reflexivity]. exists marker, code.
           split; [now left|]. split; [exact Hm|]. split; [|auto].
           rewrite Hl. apply in_or_app. right. now left.
        -- destruct (IH _ _ _ Hrun) as [Hq2 Ho].
           split; [eapply Quiet_trans; eauto|].
           assert (He : env w2 = env w) by (destruct Hq as [[He _] _]; exact He).
           destruct Hq as (_ & Hdb & _).
           assert (Hnone : forall r, In r (blockedRegions (db w)) ->
                     BlockedRegion.regionCode r = code -> BlockedRegion.isActive r = false).
           { intros r Hr Hc. symmetry in H1.
             destruct (List.filter _ (blockedRegions (db w))) eqn:Hf; [|discriminate].
             pose proof (filter_nil_inv _ _ Hf r Hr) as Hx. simpl in Hx.
             rewrite Hc, String.eqb_refl in Hx. exact Hx. }
           destruct o as [c|cause].
           ++ rewrite Hdb in Ho. destruct Ho as [(Ha & r & Hr & Hreason)|(Ha & Hno)].
              ** left. split; [exact Ha|]. exists r. split; [|exact Hreason].
                 destruct Hr as (m & c0 & Hin & Hx). exists m, c0. split; [now right | exact Hx].
              ** right. split; [exact Ha|]. intros r (m & c0 & [Heq|Hin] & Hh & Hr & Hc & Hact).
                 --- inversion Heq; subst. rewrite (Hnone r Hr eq_refl) in Hact. discriminate.
                 --- apply (Hno r). exists m, c0. auto.
           ++ destruct Ho as [n Hn]. exists n. now rewrite <- He.
      * split; [eapply getBlockedRegionByCode_quiet; eauto|].
        exists (tick w). eapply getBlockedRegionByCode_thrown; eauto.
    + destruct (IH _ _ _ Hrun) as [Hq Ho]. split; [exact Hq|].
      destruct o as [c|cause]; [|exact Ho].
      destruct Ho as [(Ha & r & Hr & Hreason)|(Ha & Hno)].
      * left. split; [exact Ha|]. exists r. split; [|exact Hreason].
        destruct Hr as (m & c0 & Hin & Hx). exists m, c0. split; [now right | exact Hx].
      * right. split; [exact Ha|]. intros r (m & c0 & [Heq|Hin] & Hh & Hx).
        -- inversion Heq; subst. congruence.
        -- apply (Hno r). exists m, c0. auto.
Qed.

(** A run of [processEmailSend] is the run of the compliance check followed
    by the run of what comes after it. *)
Lemma processEmailSend_split request w o w' :
  processEmailSend request w = (o, w') ->
  exists o1 w1, checkMarkers countryMarkers (to request) w = (o1, w1) /\
    match o1 with
    | Returned c =>
        tryCatch
          (if negb (allowed c)
           then ret (failure "Recipient is in a blocked region"
                       ("Compliance violation: "
                        +:+ match reason c with Some r => r | None => "undefined" end))
           else afterCompliance request)
          (fun error0 =>
             consoleError "Email processing error:" error0;;
             ret (failure "Failed to process email request" error0)) w1 = (o, w')
    | Thrown cause =>
        (consoleError "Email processing error:" cause;;
         ret (failure "Failed to process email request" cause)) w1 = (o, w')
    end.
Proof.
  intros Hrun. unfold processEmailSend, processEmailSendBody in Hrun.
  apply tryCatch_bind_inv in Hrun. exact Hrun.
Qed.






End ComplianceFacts.

Module DeliveryFacts.
Import Async Trace EmailService AsyncSpec TraceSpec DeliverySpec.

Lemma recordFirst_app evs1 evs2 :
  recordFirst evs1 -> recordFirst evs2 -> recordFirst (evs1 ++ evs2).
Proof.
  intros H1 H2 pre e post Heq He.
  apply app_eq_app in Heq as [l [[Ha Hb]|[Ha Hb]]].
  - destruct l as [|x l].
    + simpl in Hb. destruct (H2 [] e post) as [t []]; [now symmetry | assumption].
    + inversion Hb; subst. now apply (H1 pre x l).
  - destruct (H2 l e post Hb He) as [t Ht]. exists t. subst pre.
    apply in_or_app. now right.
Qed.

Lemma recordFirst_nil : recordFirst [].
Proof. intros [|x pre] e post H; discriminate. Qed.

Lemma recordFirst_one e : ~ isTransport e -> recordFirst [e].
Proof.
  intros Hn [|x pre] e' post H He.
  - inversion H; subst. contradiction.
  - inversion H as [[Hx Hp]]. destruct pre; discriminate.
Qed.

(** After the insertion of a record anything may follow. *)
Lemma recordFirst_created trackingId evs : recordFirst (DbCreateEmail trackingId :: evs).
Proof.
  intros [|x pre] e post H He.
  - inversion H; subst. destruct He.
  - inversion H; subst. exists trackingId. now left.
Qed.

Lemma Ordered_refl w : Ordered w w.
Proof. exists []. rewrite app_nil_r. split; [reflexivity | apply recordFirst_nil]. Qed.

Lemma Ordered_trans w1 w2 w3 : Ordered w1 w2 -> Ordered w2 w3 -> Ordered w1 w3.
Proof.
  intros (e1 & H1 & F1) (e2 & H2 & F2). exists (e1 ++ e2).
  rewrite H2, H1, app_assoc. split; [reflexivity | now apply recordFirst_app].
Qed.

Lemma ordered_io e : ~ isTransport e -> respects Ordered (io e).
Proof.
  intros Hn w o w' H. apply io_inv in H as [-> _]. exists [e].
  split; [reflexivity | now apply recordFirst_one].
Qed.

Lemma ordered_note e : ~ isTransport e -> respects Ordered (note e).
Proof.
  intros Hn w o w' H. inversion H; subst. exists [e].
  split; [reflexivity | now apply recordFirst_one].
Qed.

Lemma ordered_consoleError label e : respects Ordered (consoleError label e).
Proof. apply ordered_note. simpl. auto. Qed.

Lemma ordered_fresh f : respects Ordered (fresh f).
Proof.
  intros w o w' H. inversion H; subst. exists []. rewrite app_nil_r.
  split; [reflexivity | apply recordFirst_nil].
Qed.

(** What the insertion of the record does, whether it succeeds or not. *)
Lemma createEmail_run insertEmail w o w1 :
  Storage.createEmail insertEmail w = (o, w1) ->
  log w1 = log w ++ [DbCreateEmail (Storage.trackingId insertEmail)] /\
  env w1 = env w /\ connections w1 = connections w /\
  match o with
  | Thrown cause => db w1 = db w
  | Returned record =>
      Email.status record = "sent" /\
      Email.id record = emailsIdSeq (db w) /\
      Email.trackingId record = Storage.trackingId insertEmail /\
      Email.openedAt record = None /\ Email.clickedAt record = None /\
      emails (db w1) = emails (db w) ++ [record]
  end.
Proof.
  unfold Storage.createEmail. intros H.
  apply bind_inv in H as [(fp & w2 & H1 & H)|(e & H1 & ->)]; [|inversion H1].
  inversion H1; subst fp w2. clear H1.
  apply bind_inv in H as [(u & w3 & H1 & H)|(e & H1 & ->)].
  - apply io_inv in H1 as [-> _]. cbv [bind get modifyDb ret] in H.
    inversion H; subst o w1. simpl. repeat split; reflexivity.
  - apply io_inv in H1 as [-> _]. simpl. auto.
Qed.

Lemma KeepsEmails_refl w : KeepsEmails w w.
Proof. reflexivity. Qed.

Lemma KeepsEmails_trans w1 w2 w3 : KeepsEmails w1 w2 -> KeepsEmails w2 w3 -> KeepsEmails w1 w3.
Proof. unfold KeepsEmails. congruence. Qed.

Lemma keeps_io e : respects KeepsEmails (io e).
Proof. intros w o w' H. apply io_inv in H as [-> _]. reflexivity. Qed.

Lemma keeps_note e : respects KeepsEmails (note e).
Proof. intros w o w' H. inversion H; subst. reflexivity. Qed.

Lemma keeps_fresh f : respects KeepsEmails (fresh f).
Proof. intros w o w' H. inversion H; subst. reflexivity. Qed.

Lemma keeps_modifyConnections f : respects KeepsEmails (modifyConnections f).
Proof. intros w o w' H. inversion H; subst. reflexivity. Qed.

Lemma keeps_createSystemMetric metric : respects KeepsEmails (Storage.createSystemMetric metric).
Proof.
  unfold Storage.createSystemMetric.
  repeat respects_step KeepsEmails_refl KeepsEmails_trans
    ltac:(first [apply keeps_io | intros w o w' H; inversion H; subst; reflexivity]).
Qed.

Create HintDb router.
#[export] Hint Unfold SmtpRouter.sendEmail SmtpRouter.getSmtpProvider SmtpRouter.getConnection
  SmtpRouter.sendMail Storage.getSmtpProvidersByRegion Storage.getSmtpProviders
  consoleError : router.

Lemma sendEmail_keeps options : respects KeepsEmails (SmtpRouter.sendEmail options).
Proof.
  repeat (try autounfold with router;
          respects_step KeepsEmails_refl KeepsEmails_trans
            ltac:(first [ apply keeps_io | apply keeps_note | apply keeps_fresh
                        | apply keeps_modifyConnections | apply keeps_createSystemMetric ])).
Qed.

(** [sendEmail] cannot throw, it does not touch the email records, and a
    failure comes with its cause. *)
Lemma sendEmail_run options w :
  exists sendResult w',
    SmtpRouter.sendEmail options w = (Returned sendResult, w') /\
    emails (db w') = emails (db w) /\
    if SmtpRouter.success sendResult
    then SmtpRouter.error sendResult = None
    else exists cause, SmtpRouter.error sendResult = Some cause /\
                       In (ConsoleError "Email sending error:" cause) (log w').
Proof.
  destruct (SmtpRouter.sendEmail options w) as [o w'] eqn:Hrun.
  pose proof (sendEmail_keeps options _ _ _ Hrun) as Hk.
  unfold SmtpRouter.sendEmail in Hrun.
  apply bind_inv in Hrun as [(u & w1 & H1 & Hrun)|(e & H1 & _)]; [|inversion H1].
  apply tryCatch_inv in Hrun as [(a & Hbody & ->)|(e & w2 & Hbody & Hh)].
  - exists a, w'. split; [reflexivity|]. split; [exact Hk|].
    apply bind_inv in Hbody as [(provider & w2 & H2 & Hbody)|(e & _ & He)]; [|discriminate].
    destruct provider as [provider|]; [|inversion Hbody].
    run_inv Hbody. reflexivity.
  - apply bind_inv in Hh as [(u2 & w3 & H3 & Hh)|(e2 & H3 & _)]; [|inversion H3].
    inversion H3; subst u2 w3. clear H3.
    apply bind_inv in Hh as [(u3 & w4 & H4 & Hh)|(e2 & H4 & _)].
    + inversion Hh; subst o w'. eexists _, _. split; [reflexivity|]. split; [exact Hk|].
      simpl. exists e. split; [reflexivity|].
      assert (He : Emits (fun _ => True) (withLog (log w2 ++ [ConsoleError "Email sending error:" e]) w2) w4).
      { revert H4. generalize (withLog (log w2 ++ [ConsoleError "Email sending error:" e]) w2).
        intros w0 H4. revert H4. generalize w0 (Returned (A:=unit) u3) w4.
        change (respects (Emits (fun _ => True))
                  (fireAndForget (Storage.createSystemMetric
                                    (SmtpRouter.metric "email_sent" "failure" "Global")))).
        emits (fun _ : Event => True); exact I. }
      destruct He as [_ (evs & Hl & _)]. rewrite Hl. simpl.
      apply in_or_app. left. apply in_or_app. right. now left.
    + exfalso. unfold fireAndForget in H4.
      destruct (Storage.createSystemMetric _ _) as [[x|x] y]; discriminate.
Qed.

(** What the status update does. *)
Lemma updateEmailStatus_run id status w o w1 :
  Storage.updateEmailStatus id status w = (o, w1) ->
  match o with
  | Thrown cause => db w1 = db w
  | Returned _ =>
      emails (db w1)
      = map (fun e => if Email.id e =? id then Storage.setStatus status (now w) e else e)
            (emails (db w))
  end.
Proof.
  unfold Storage.updateEmailStatus. intros H.
  apply bind_inv in H as [(u & w3 & H1 & H)|(e & H1 & ->)].
  - apply io_inv in H1 as [-> _]. cbv [bind get modifyDb ret] in H.
    inversion H; subst o w1. reflexivity.
  - apply io_inv in H1 as [-> _]. reflexivity.
Qed.

Lemma recordAndSend_ordered request trackingId_ html text provider :
  respects Ordered (recordAndSend request trackingId_ html text provider).
Proof.
  intros w o w' Hrun. unfold recordAndSend in Hrun.
  apply bind_inv in Hrun as [(record & w1 & H1 & Hrun)|(e & H1 & ->)].
  - apply createEmail_run in H1 as (Hl & _).
    assert (He : Emits (fun _ => True) w1 w').
    { revert Hrun. generalize w1 o w'.
      match goal with |- forall w o w', ?m w = (o, w') -> _ =>
        change (respects (Emits (fun _ => True)) m) end.
      emits (fun _ : Event => True); exact I. }
    destruct He as [_ (evs & Hl2 & _)]. exists (DbCreateEmail trackingId_ :: evs).
    split; [|apply recordFirst_created].
    rewrite Hl2, Hl. simpl. now rewrite <- app_assoc.
  - apply createEmail_run in H1 as (Hl & _). exists [DbCreateEmail trackingId_].
    split; [exact Hl | apply recordFirst_created].
Qed.

Lemma processEmailSend_ordered request : respects Ordered (processEmailSend request).
Proof.
  unfold processEmailSend, processEmailSendBody, checkRegionCompliance.
  assert (Hcheck : forall markers, respects Ordered (checkMarkers markers (to request))).
  { induction markers as [|[marker code] rest IH]; cbn [checkMarkers].
    - apply respects_ret. exact Ordered_refl.
    - repeat (try autounfold with model;
              first [ exact IH
                    | respects_step Ordered_refl Ordered_trans
                        ltac:(first [apply ordered_io; simpl; tauto]) ]). }
  repeat (try autounfold with model;
          first [ apply Hcheck | apply recordAndSend_ordered
                | respects_step Ordered_refl Ordered_trans
                    ltac:(first [ apply ordered_io; simpl; tauto
                                | apply ordered_note; simpl; tauto
                                | apply ordered_consoleError
                                | apply ordered_fresh ]) ]).
Qed.



End DeliveryFacts.

Module SelectionFacts.
Import Async Trace SortFacts RouterFacts ComplianceFacts EmailService AsyncSpec TraceSpec ComplianceSpec SelectionSpec.

Lemma getSmtpProvider_quiet recipientEmail volume :
  respects (Quiet isSelection) (SmtpRouter.getSmtpProvider recipientEmail volume).
Proof. quiet isSelection; exact I. Qed.

(** [getSmtpProvider] throws only when one of its two queries fails. *)
Lemma getSmtpProvider_thrown recipientEmail volume w cause w' :
  SmtpRouter.getSmtpProvider recipientEmail volume w = (Thrown cause, w') ->
  fault (env w) (tick w) = Some cause \/ fault (env w) (S (tick w)) = Some cause.
Proof.
  unfold SmtpRouter.getSmtpProvider. intros H.
  apply bind_inv in H as [(providers & w1 & H1 & H)|(e & H1 & He)].
  - unfold Storage.getSmtpProvidersByRegion in H1. run_inv H1.
    destruct (length _ =? 0)%nat.
    + apply bind_inv in H as [(allProviders & w2 & H2 & H)|(e & H2 & He)].
      * destruct (length _ =? 0)%nat; inversion H.
      * injection He as <-. unfold Storage.getSmtpProviders in H2.
        apply bind_inv in H2 as [(u & w3 & H3 & H2)|(e2 & H3 & He2)]; [inversion H2|].
        injection He2 as <-. apply io_inv in H3 as [_ H3]. cbn [env tick withTick withLog] in H3.
        right. destruct (fault (env w) (S (tick w))); congruence.
    + destruct (volume >? 1000); [destruct (0 <? length _)%nat|]; inversion H.
  - injection He as <-. unfold Storage.getSmtpProvidersByRegion in H1.
    apply bind_inv in H1 as [(u & w3 & H3 & H1)|(e2 & H3 & He2)].
    + apply bind_inv in H1 as [(u2 & w4 & H4 & H1)|(e3 & H4 & He3)]; [inversion H1 | inversion H4].
    + injection He2 as <-. apply io_inv in H3 as [_ H3]. left.
      destruct (fault (env w) (tick w)); congruence.
Qed.

(** With the database answering, [getSmtpProvider] returns. *)
Lemma getSmtpProvider_returns recipientEmail volume w :
  fault (env w) (tick w) = None -> fault (env w) (S (tick w)) = None ->
  exists o w', SmtpRouter.getSmtpProvider recipientEmail volume w = (Returned o, w').
Proof.
  intros H0 H1.
  destruct (SmtpRouter.getSmtpProvider recipientEmail volume w) as [[o|cause] w'] eqn:Hrun;
    [eauto|].
  apply getSmtpProvider_thrown in Hrun as [H|H]; congruence.
Qed.

Ltac as_respects R :=
  match goal with
  | H : ?m ?w = (?o, ?w') |- _ =>
      revert H; generalize w o w';
      change (respects R m)
  end.

(** When no provider is active, a send that gets as far as the selection of
    a provider, with nothing thrown on the way, ends there: its answer is
    the failure [No suitable SMTP provider available], and the database is
    as it was. *)
Lemma send_without_provider request w res w' evs :
  (forall p, In p (smtpProviders (db w)) -> SmtpProvider.isActive p = false) ->
  processEmailSend request w = (Returned res, w') ->
  log w' = log w ++ evs ->
  In (DbGetSmtpProvidersByRegion (SmtpRouter.regionOf (to request))) evs ->
  (forall label cause, ~ In (ConsoleError label cause) evs) ->
  res = failure "No suitable SMTP provider available"
                "Failed to find an active SMTP provider for this request" /\
  db w' = db w.
Proof.
  intros Hinactive Hrun Hlog Hreached Hquiet.
  apply processEmailSend_split in Hrun as (o1 & w1 & Hcheck & Hrest).
  destruct (checkMarkers_run _ _ _ _ _ Hcheck)
    as [([_ (lookups & Hl1 & Hf1)] & Hdb1 & _) _].
  assert (Hthrown : forall cause w0 (evs0 : list Event),
            log w0 = log w ++ evs0 ->
            (consoleError "Email processing error:" cause;;
             ret (failure "Failed to process email request" cause)) w0 = (Returned res, w') ->
            False).
  { intros cause w0 evs0 Hl0 H. inversion H; subst w'. simpl in Hlog.
    rewrite Hl0, <- app_assoc in Hlog. apply app_inv_head in Hlog. subst evs.
    apply (Hquiet "Email processing error:" cause). apply in_or_app. right. now left. }
  assert (Hnot : forall (P : Event -> Prop) evs0,
            Forall P evs0 -> log w' = log w ++ evs0 ->
            ~ P (DbGetSmtpProvidersByRegion (SmtpRouter.regionOf (to request))) -> False).
  { intros P evs0 HP Hl0 HnP. rewrite Hl0 in Hlog. apply app_inv_head in Hlog. subst evs0.
    rewrite List.Forall_forall in HP. exact (HnP (HP _ Hreached)). }
  destruct o1 as [c|cause]; [|exfalso; exact (Hthrown _ _ _ Hl1 Hrest)].
  apply tryCatch_inv in Hrest as [(a & Hbody & Ha)|(e & w2 & Hbody & Hh)].
  2:{ exfalso.
      assert (He : Emits (fun _ => True) w1 w2).
      { as_respects (Emits (fun _ : Event => True)). emits (fun _ : Event => True); exact I. }
      destruct He as [_ (evs2 & Hl2 & _)].
      apply (Hthrown e w2 (lookups ++ evs2)); [|exact Hh].
      rewrite Hl2, Hl1. apply eq_sym, app_assoc. }
  injection Ha as <-.
  destruct (allowed c); cbn [negb] in Hbody.
  2:{ exfalso. inversion Hbody; subst. apply (Hnot isComplianceLookup lookups Hf1 Hl1). exact id. }
  unfold afterCompliance in Hbody.
  apply bind_inv in Hbody as [(tid & w2 & H2 & Hbody)|(e & _ & He)]; [|discriminate].
  inversion H2; subst tid w2. clear H2.
  apply bind_inv in Hbody as [(content & w3 & H3 & Hbody)|(e & _ & He)]; [|discriminate].
  assert (Hq3 : Quiet isContent (withTick (S (tick w1)) w1) w3).
  { as_respects (Quiet isContent). quiet isContent; exact I. }
  destruct Hq3 as ([_ (evs3 & Hl3 & Hf3)] & Hdb3 & _). cbn [log db withTick] in Hl3, Hdb3.
  assert (Hpre : Forall (fun e => isComplianceLookup e \/ isContent e) (lookups ++ evs3)).
  { apply Forall_app. split; eapply Forall_impl; eauto; simpl; auto. }
  assert (Hl13 : log w3 = log w ++ lookups ++ evs3) by (rewrite Hl3, Hl1; apply eq_sym, app_assoc).
  destruct content as [[html text]|].
  2:{ exfalso. inversion Hbody; subst. apply (Hnot _ _ Hpre Hl13). simpl. tauto. }
  destruct (negb (JsString.truthy html) && negb (JsString.truthy text)).
  { exfalso. inversion Hbody; subst. apply (Hnot _ _ Hpre Hl13). simpl. tauto. }
  apply bind_inv in Hbody as [(provider & w4 & H4 & Hbody)|(e & _ & He)]; [|discriminate].
  pose proof (getSmtpProvider_quiet _ _ _ _ _ H4) as (_ & Hdb4 & _).
  apply getSmtpProvider_returned in H4 as (_ & Hmem & Hsel). cbv zeta in Hsel, Hmem.
  assert (Htable : smtpProviders (db w3) = smtpProviders (db w)) by (rewrite Hdb3, Hdb1; reflexivity).
  rewrite Htable in Hsel, Hmem.
  destruct (sort _ _) as [|first rest] eqn:Hreg in Hsel.
  - destruct provider as [p|].
    + exfalso. destruct Hsel as (pre & post & Hact & _).
      assert (Hp : In p (List.filter SmtpProvider.isActive (smtpProviders (db w)))).
      { rewrite Hact. apply in_or_app. right. now left. }
      apply filter_In in Hp as [Hp Hpa]. rewrite (Hinactive p Hp) in Hpa. discriminate.
    + inversion Hbody; subst res w'. split; [reflexivity|]. congruence.
  - exfalso. assert (Hin : In first (first :: rest)) by now left.
    rewrite <- Hreg in Hin. apply Hmem in Hin as (Hp & _ & Hpa).
    rewrite (Hinactive first Hp) in Hpa. discriminate.
Qed.



End SelectionFacts.

Module TrackingFacts.
Import Async Trace TrackingService TrackingProcess AsyncSpec TraceSpec TrackingSpec.

Lemma keepsStamps_refl e : keepsStamps e e.
Proof. repeat split; auto. Qed.

Lemma keepsStamps_trans e1 e2 e3 : keepsStamps e1 e2 -> keepsStamps e2 e3 -> keepsStamps e1 e3.
Proof.
  intros (I1 & T1 & O1 & C1) (I2 & T2 & O2 & C2).
  repeat split; [congruence | congruence | auto | auto].
Qed.

Lemma Forall2_keepsStamps_refl l : Forall2 keepsStamps l l.
Proof. induction l; constructor; auto using keepsStamps_refl. Qed.

Lemma Forall2_keepsStamps_trans l1 l2 l3 :
  Forall2 keepsStamps l1 l2 -> Forall2 keepsStamps l2 l3 -> Forall2 keepsStamps l1 l3.
Proof.
  intros H. revert l3. induction H as [|a b l1 l2 Hab H IH]; intros l3 H23.
  - inversion H23. constructor.
  - inversion H23; subst. constructor; eauto using keepsStamps_trans.
Qed.

Lemma Tracked_refl w : Tracked w w.
Proof. apply Forall2_keepsStamps_refl. Qed.

Lemma Tracked_trans w1 w2 w3 : Tracked w1 w2 -> Tracked w2 w3 -> Tracked w1 w3.
Proof. apply Forall2_keepsStamps_trans. Qed.

Lemma Tracked_same w w' : emails (db w') = emails (db w) -> Tracked w w'.
Proof. unfold Tracked. intros ->. apply Forall2_keepsStamps_refl. Qed.

Lemma tracked_io e : respects Tracked (io e).
Proof. intros w o w' H. apply io_inv in H as [-> _]. now apply Tracked_same. Qed.

Lemma tracked_note e : respects Tracked (note e).
Proof. intros w o w' H. inversion H; subst. now apply Tracked_same. Qed.

Lemma tracked_fresh f : respects Tracked (fresh f).
Proof. intros w o w' H. inversion H; subst. now apply Tracked_same. Qed.

Lemma tracked_createSystemMetric metric : respects Tracked (Storage.createSystemMetric metric).
Proof.
  unfold Storage.createSystemMetric.
  repeat respects_step Tracked_refl Tracked_trans
    ltac:(first [ apply tracked_io
                | intros w o w' H; inversion H; subst; now apply Tracked_same ]).
Qed.

Lemma tracked_logTrackingEvent emailId trackingId eventType :
  respects Tracked (Storage.logTrackingEvent emailId trackingId eventType).
Proof.
  unfold Storage.logTrackingEvent.
  repeat respects_step Tracked_refl Tracked_trans
    ltac:(first [ apply tracked_io | apply tracked_fresh
                | intros w o w' H; inversion H; subst; now apply Tracked_same ]).
Qed.

(** The guarded update stamps only records whose stamp is still null. *)
Lemma stamp_keepsStamps trackingId type at_ e :
  keepsStamps e
    (if Storage.untracked trackingId type e
     then match type with
          | Storage.opened => Storage.setOpenedAt at_
          | Storage.clicked => Storage.setClickedAt at_
          end e
     else e).
Proof.
  destruct (Storage.untracked trackingId type e) eqn:Hu; [|apply keepsStamps_refl].
  unfold Storage.untracked in Hu. apply andb_true_iff in Hu as [_ Hu].
  destruct type; simpl.
  - destruct (Email.openedAt e) eqn:Ho; [discriminate|].
    repeat split; simpl; auto. intros t Ht. congruence.
  - destruct (Email.clickedAt e) eqn:Hc; [discriminate|].
    repeat split; simpl; auto. intros t Ht. congruence.
Qed.

Lemma stamped_keepsStamps trackingId type at_ l :
  Forall2 keepsStamps l
    (map (fun e => if Storage.untracked trackingId type e
                   then match type with
                        | Storage.opened => Storage.setOpenedAt at_
                        | Storage.clicked => Storage.setClickedAt at_
                        end e
                   else e) l).
Proof. induction l as [|e l IH]; simpl; constructor; [apply stamp_keepsStamps | exact IH]. Qed.

Lemma tracked_updateEmailTracking trackingId type :
  respects Tracked (Storage.updateEmailTracking trackingId type).
Proof.
  intros w o w' H. unfold Storage.updateEmailTracking in H.
  apply bind_inv in H as [(at_ & w0 & H0 & H)|(e & H0 & _)]; [|inversion H0].
  inversion H0; subst at_ w0. clear H0.
  apply bind_inv in H as [(u & w1 & H1 & H)|(e & H1 & _)].
  2:{ apply io_inv in H1 as [-> _]. now apply Tracked_same. }
  apply io_inv in H1 as [-> _].
  apply bind_inv in H as [(rows & w2 & H2 & H)|(e & H2 & _)]; [|inversion H2].
  inversion H2; subst rows w2. clear H2. cbn [db withTick withLog] in H.
  apply bind_inv in H as [(u2 & w3 & H3 & H)|(e & H3 & _)]; [|inversion H3].
  inversion H3; subst u2 w3. clear H3.
  match type of H with _ ?w2 = _ => apply (Tracked_trans w w2 w') end.
  - unfold Tracked. cbn [db withDb withTick withLog emails withEmails].
    apply stamped_keepsStamps.
  - destruct (head _) in H.
    + revert H. match goal with |- ?m ?w0 = _ -> _ => generalize w0 o w';
        change (respects Tracked m) end.
      repeat respects_step Tracked_refl Tracked_trans
        ltac:(first [apply tracked_logTrackingEvent]).
    + inversion H; subst. apply Tracked_refl.
Qed.

Create HintDb tracking.
#[export] Hint Unfold trackEmailOpen trackEmailClick Storage.getEmailByTrackingId
  consoleError : tracking.

Ltac tracked :=
  repeat (try autounfold with tracking;
          respects_step Tracked_refl Tracked_trans
            ltac:(first [ apply tracked_io | apply tracked_note
                        | apply tracked_updateEmailTracking
                        | apply tracked_createSystemMetric ])).

Lemma trackEmailOpen_tracked trackingId : respects Tracked (trackEmailOpen trackingId).
Proof. tracked. Qed.

Lemma trackEmailClick_tracked trackingId url : respects Tracked (trackEmailClick trackingId url).
Proof. tracked. Qed.

Lemma fire_tracked calls :
  forall w, Forall2 keepsStamps (emails (db w)) (emails (db (fire calls w))).
Proof.
  induction calls as [|[at_ [trackingId|trackingId url]] calls IH]; intros w; simpl.
  - apply Forall2_keepsStamps_refl.
  - eapply Forall2_keepsStamps_trans; [|apply IH].
    destruct (trackEmailOpen trackingId (withNow at_ w)) as [o w'] eqn:H.
    exact (trackEmailOpen_tracked _ _ _ _ H).
  - eapply Forall2_keepsStamps_trans; [|apply IH].
    destruct (trackEmailClick trackingId url (withNow at_ w)) as [o w'] eqn:H.
    exact (trackEmailClick_tracked _ _ _ _ _ H).
Qed.

(** C6. However many open and click callbacks fire, with whatever tracking
    ids and at whatever times, the email records stay the same records and a
    stamp [openedAt] or [clickedAt] that is set keeps its value: it is set at
    most once, never overwritten, never cleared. An open callback for an email
    that is already stamped answers [alreadyTracked] and writes nothing. *)
Theorem tracking_stamps_set_once :
  forall (w : World),
    (forall calls, Forall2 keepsStamps (emails (db w)) (emails (db (fire calls w)))) /\
    (forall trackingId email w1,
       Storage.getEmailByTrackingId trackingId w = (Returned (Some email), w1) ->
       isSome (Email.openedAt email) = true ->
       trackEmailOpen trackingId w
       = (Returned {| success := true; alreadyTracked := true;
                      emailId := Some (Email.id email) |}, w1)
       /\ db w1 = db w).
Proof.
  intros w. split; [intros calls; apply fire_tracked|].
  intros trackingId email w1 Hget Hopened. split.
  - unfold trackEmailOpen, tryCatch, bind at 1. rewrite Hget, Hopened. reflexivity.
  - unfold Storage.getEmailByTrackingId in Hget. run_inv Hget. reflexivity.
Qed.

Lemma tracking_stamps_set_once_witness :
  exists email w1,
    Storage.getEmailByTrackingId "9b2f6c1e-7d4a-4e9b-a1c6-5b0f9d2e8a40"
      (withNow 1745014099999 Examples.opened) = (Returned (Some email), w1) /\
    Email.openedAt email = Some 1745014090754 /\
    trackEmailOpen "9b2f6c1e-7d4a-4e9b-a1c6-5b0f9d2e8a40"
      (withNow 1745014099999 Examples.opened)
    = (Returned {| success := true; alreadyTracked := true;
                   emailId := Some (Email.id email) |}, w1) /\
    db w1 = db (withNow 1745014099999 Examples.opened).
Proof.
  set (w := withNow 1745014099999 Examples.opened).
  destruct (Storage.getEmailByTrackingId "9b2f6c1e-7d4a-4e9b-a1c6-5b0f9d2e8a40" w)
    as [o w1] eqn:Hget.
  assert (Ho : exists email, o = Returned (Some email) /\
                             Email.openedAt email = Some 1745014090754).
  { apply (f_equal fst) in Hget. cbn [fst] in Hget. rewrite <- Hget.
    vm_compute. eexists. split; reflexivity. }
  destruct Ho as (email & -> & Ho). exists email, w1.
  split; [reflexivity|]. split; [exact Ho|].
  apply (proj2 (tracking_stamps_set_once w)
           "9b2f6c1e-7d4a-4e9b-a1c6-5b0f9d2e8a40" email w1 Hget).
  now rewrite Ho.
Defined.

(** *** Click tracking *)

Lemma KeepsEvents_refl w : KeepsEvents w w.
Proof. split; reflexivity. Qed.

Lemma KeepsEvents_trans w1 w2 w3 : KeepsEvents w1 w2 -> KeepsEvents w2 w3 -> KeepsEvents w1 w3.
Proof. unfold KeepsEvents. intros [] []. split; congruence. Qed.

Lemma keepsEvents_io e : respects KeepsEvents (io e).
Proof. intros w o w' H. apply io_inv in H as [-> _]. split; reflexivity. Qed.

Lemma keepsEvents_note e : respects KeepsEvents (note e).
Proof. intros w o w' H. inversion H; subst. split; reflexivity. Qed.

Lemma keepsEvents_createSystemMetric metric :
  respects KeepsEvents (Storage.createSystemMetric metric).
Proof.
  unfold Storage.createSystemMetric.
  repeat respects_step KeepsEvents_refl KeepsEvents_trans
    ltac:(first [ apply keepsEvents_io
                | intros w o w' H; inversion H; subst; split; reflexivity ]).
Qed.

Lemma keepsEvents_getEmailByTrackingId trackingId :
  respects KeepsEvents (Storage.getEmailByTrackingId trackingId).
Proof.
  unfold Storage.getEmailByTrackingId.
  repeat respects_step KeepsEvents_refl KeepsEvents_trans ltac:(first [apply keepsEvents_io]).
Qed.

Lemma updateEmailTracking_events trackingId type w o w' :
  Storage.updateEmailTracking trackingId type w = (o, w') ->
  appendsFor trackingId type w w'.
Proof.
  intros H. unfold Storage.updateEmailTracking in H.
  apply bind_inv in H as [(at_ & w0 & H0 & H)|(e & H0 & _)]; [|inversion H0].
  inversion H0; subst at_ w0. clear H0.
  apply bind_inv in H as [(u & w1 & H1 & H)|(e & H1 & _)].
  2:{ apply io_inv in H1 as [-> _]. now left. }
  apply io_inv in H1 as [-> _].
  apply bind_inv in H as [(rows & w2 & H2 & H)|(e & H2 & _)]; [|inversion H2].
  inversion H2; subst rows w2. clear H2. cbn [db withTick withLog] in H.
  apply bind_inv in H as [(u2 & w3 & H3 & H)|(e & H3 & _)]; [|inversion H3].
  inversion H3; subst u2 w3. clear H3.
  destruct (List.filter (Storage.untracked trackingId type) (emails (db w)))
    as [|email rest] eqn:Hf; cbn [map head] in H.
  - inversion H; subst. now left.
  - assert (Hin : In email (List.filter (Storage.untracked trackingId type) (emails (db w))))
      by (rewrite Hf; now left).
    apply filter_In in Hin as [Hin Hu].
    apply bind_inv in H as [(u3 & w4 & H4 & H)|(e & H4 & He)].
    + inversion H; subst o w'. clear H. unfold Storage.logTrackingEvent in H4.
      run_inv H4. right. eexists email, _. split; [exact Hin|]. split; [exact Hu|].
      split; [reflexivity|]. split; [|reflexivity].
      simpl. destruct type; reflexivity.
    + left. unfold Storage.logTrackingEvent in H4.
      apply bind_inv in H4 as [(fp & w5 & H5 & H4)|(e5 & H5 & _)]; [|inversion H5].
      inversion H5; subst fp w5. clear H5.
      apply bind_inv in H4 as [(u6 & w6 & H6 & H4)|(e6 & H6 & _)]; [inversion H4|].
      apply io_inv in H6 as [-> _]. reflexivity.
Qed.

Lemma appendsFor_between trackingId type w w0 w2 w1 :
  KeepsEvents w w0 -> appendsFor trackingId type w0 w2 -> KeepsEvents w2 w1 ->
  appendsFor trackingId type w w1.
Proof.
  intros [E0 M0] H [E1 M1]. unfold appendsFor in *. rewrite E1, <- E0, <- M0. exact H.
Qed.

Lemma trackEmailClick_body_events trackingId url :
  forall w o w1,
    (email <- Storage.getEmailByTrackingId trackingId ;;
     let redirectUrl := if JsString.truthy url then url else "/" in
     match email with
     | None => ret {| clickSuccess := false; clickAlreadyTracked := false;
                      clickEmailId := None; redirectUrl := redirectUrl |}
     | Some email =>
         updatedEmail <- Storage.updateEmailTracking trackingId Storage.clicked ;;
         let alreadyTracked := isSome (Email.clickedAt email) in
         (if isSome updatedEmail && negb alreadyTracked then
            Storage.createSystemMetric
              (SmtpRouter.metric "email_clicked" "1" (Email.region email)) ;;
            ret tt
          else ret tt) ;;
         ret {| clickSuccess := isSome updatedEmail; clickAlreadyTracked := alreadyTracked;
                clickEmailId := Some (Email.id email); redirectUrl := redirectUrl |}
     end) w = (o, w1) ->
    appendsFor trackingId Storage.clicked w w1 /\
    match o with
    | Returned res => redirectUrl res = if JsString.truthy url then url else "/"
    | Thrown _ => True
    end.
Proof.
  intros w o w1 H.
  apply bind_inv in H as [(email & w0 & H0 & H)|(e & H0 & ->)].
  2:{ split; [|exact I]. left. now destruct (keepsEvents_getEmailByTrackingId _ _ _ _ H0). }
  pose proof (keepsEvents_getEmailByTrackingId _ _ _ _ H0) as K0.
  cbv zeta in H. destruct email as [email|].
  2:{ inversion H; subst. split; [|reflexivity]. left. now destruct K0. }
  apply bind_inv in H as [(updated & w2 & H2 & H)|(e & H2 & ->)].
  2:{ split; [|exact I]. apply updateEmailTracking_events in H2.
      eapply appendsFor_between; eauto using KeepsEvents_refl. }
  apply updateEmailTracking_events in H2.
  apply bind_inv in H as [(u & w3 & H3 & H)|(e & H3 & ->)].
  - inversion H; subst o w1. clear H. split; [|reflexivity].
    eapply appendsFor_between; [exact K0 | exact H2 |].
    revert H3. generalize w2 (Returned (A:=unit) u) w3.
    match goal with |- forall w o w', ?m w = (o, w') -> _ =>
      change (respects KeepsEvents m) end.
    repeat respects_step KeepsEvents_refl KeepsEvents_trans
      ltac:(first [apply keepsEvents_createSystemMetric]).
  - split; [|exact I]. eapply appendsFor_between; [exact K0 | exact H2 |].
    revert H3. generalize w2 (Thrown (A:=unit) e) w1.
    match goal with |- forall w o w', ?m w = (o, w') -> _ =>
      change (respects KeepsEvents m) end.
    repeat respects_step KeepsEvents_refl KeepsEvents_trans
      ltac:(first [apply keepsEvents_createSystemMetric]).
Qed.



End TrackingFacts.

Module InjectionFacts.
Import JsString RegExp SmtpRouter StringFacts RegExpFacts InjectionSpec.

(** A replacement text without a dollar sign stands for itself. *)
Lemma getSubstitution_plain matched before after replacement :
  all notDollar replacement = true ->
  getSubstitution matched before after replacement = replacement.
Proof.
  induction replacement as [|c r IH]; simpl; [reflexivity|].
  intros H. apply andb_true_iff in H as [Hc Hr]. unfold notDollar in Hc.
  destruct (Ascii.eqb c "$"); [discriminate|]. now rewrite IH.
Qed.

Lemma all_app p a b : all p (a +:+ b) = all p a && all p b.
Proof.
  induction a as [|c a IH]; [reflexivity|]. rewrite app_cons. simpl.
  now rewrite IH, andb_assoc.
Qed.

Lemma prefix_app p s : String.prefix p (p +:+ s) = true.
Proof.
  induction p as [|c p IH]; [now destruct s|]. rewrite app_cons. simpl.
  destruct (ascii_dec c c); [exact IH | contradiction].
Qed.

Lemma prefix_inv p s : String.prefix p s = true -> exists r, s = p +:+ r.
Proof.
  revert s. induction p as [|c p IH]; intros s H; [now exists s|].
  destruct s as [|d s]; [discriminate|]. simpl in H.
  destruct (ascii_dec c d) as [->|]; [|discriminate].
  destruct (IH s H) as [r ->]. now exists r.
Qed.

Lemma prefix_app_l p a b : String.prefix p a = true -> String.prefix p (a +:+ b) = true.
Proof.
  intros H. apply prefix_inv in H as [r ->]. rewrite app_assoc. apply prefix_app.
Qed.

Lemma includes_cons c s p :
  includes (String c s) p = startsWith (String c s) p || includes s p.
Proof. reflexivity. Qed.

Lemma includes_app_l s t p : includes s p = true -> includes (s +:+ t) p = true.
Proof.
  induction s as [|c s IH].
  - simpl. rewrite orb_false_r. unfold startsWith. intros H.
    destruct p; [|discriminate]. rewrite app_nil_l. destruct t; reflexivity.
  - rewrite app_cons, !includes_cons. intros H. apply orb_true_iff in H as [H|H].
    + unfold startsWith in *. change (String c (s +:+ t)) with (String c s +:+ t).
      now rewrite (prefix_app_l _ _ _ H).
    + rewrite (IH H). apply orb_true_r.
Qed.

Lemma includes_app_r s t p : includes t p = true -> includes (s +:+ t) p = true.
Proof.
  intros H. induction s as [|c s IH]; [exact H|].
  rewrite app_cons, includes_cons, IH. apply orb_true_r.
Qed.

(** [breakOn] splits at an occurrence of the pattern, and the text before it
    holds no occurrence: the occurrence is the first. *)
Lemma breakOn_cons p c s :
  breakOn p (String c s) =
  if startsWith (String c s) p then Some (EmptyString, drop (String.length p) (String c s))
  else match breakOn p s with
       | Some (a, b) => Some (String c a, b)
       | None => None
       end.
Proof. reflexivity. Qed.

Lemma breakOn_spec p s a b :
  p <> "" -> breakOn p s = Some (a, b) ->
  s = a +:+ p +:+ b /\ includes a p = false.
Proof.
  intros Hp. revert a b. induction s as [|c s IH]; intros a b H.
  - simpl in H. unfold startsWith in H. destruct p; [contradiction | discriminate].
  - rewrite breakOn_cons in H. unfold startsWith in H.
    destruct (String.prefix p (String c s)) eqn:Hpre.
    + inversion H; subst a b. clear H. apply prefix_inv in Hpre as [r Hr].
      split.
      * rewrite app_nil_l, Hr, drop_app_length. reflexivity.
      * simpl. unfold startsWith. destruct p; [contradiction | reflexivity].
    + destruct (breakOn p s) as [[a' b']|] eqn:Hb; [|discriminate].
      inversion H; subst a b. clear H. destruct (IH a' b' eq_refl) as [Hs Hn].
      split; [rewrite app_cons; now f_equal|].
      rewrite includes_cons, Hn, orb_false_r. unfold startsWith.
      destruct (String.prefix p (String c a')) eqn:Hpa; [|reflexivity].
      apply (prefix_app_l _ _ (p +:+ b')) in Hpa. rewrite app_cons, <- Hs in Hpa. congruence.
Qed.

(** *** The pixel *)

Lemma trackingPixel_plain host trackingId :
  all notDollar host = true -> all notDollar trackingId = true ->
  all notDollar (trackingPixel host trackingId +:+ "</body>") = true.
Proof.
  intros Hh Ht. unfold trackingPixel. rewrite !all_app, Hh, Ht. reflexivity.
Qed.

Lemma trackingPixel_marked host trackingId :
  includes (trackingPixel host trackingId) "tracking-pixel" = true.
Proof. unfold trackingPixel. do 6 apply includes_app_r. reflexivity. Qed.

Lemma addTrackingPixel_inserted host trackingId html before after :
  all notDollar host = true -> all notDollar trackingId = true ->
  includes html "tracking-pixel" = false ->
  breakOn "</body>" html = Some (before, after) ->
  addTrackingPixel host trackingId html
  = before +:+ trackingPixel host trackingId +:+ "</body>" +:+ after.
Proof.
  intros Hh Ht Hi Hb. unfold addTrackingPixel, replaceFirst. rewrite Hi, Hb. cbn [negb].
  rewrite getSubstitution_plain by now apply trackingPixel_plain.
  now rewrite !app_assoc.
Qed.

(** The pixel step does nothing the second time. *)
Lemma addTrackingPixel_idempotent host trackingId html :
  all notDollar host = true -> all notDollar trackingId = true ->
  addTrackingPixel host trackingId (addTrackingPixel host trackingId html)
  = addTrackingPixel host trackingId html.
Proof.
  intros Hh Ht. destruct (includes html "tracking-pixel") eqn:Hi.
  - unfold addTrackingPixel. rewrite Hi. cbn [negb]. now rewrite Hi.
  - destruct (breakOn "</body>" html) as [[before after]|] eqn:Hb.
    + rewrite (addTrackingPixel_inserted _ _ _ _ _ Hh Ht Hi Hb).
      unfold addTrackingPixel at 1.
      rewrite (includes_app_r before _ _
                 (includes_app_l _ ("</body>" +:+ after) _ (trackingPixel_marked host trackingId))).
      reflexivity.
    + assert (H : addTrackingPixel host trackingId html = html).
      { unfold addTrackingPixel, replaceFirst. now rewrite Hi, Hb. }
      now rewrite !H.
Qed.

(** *** The links *)

Ltac each_char c :=
  destruct c as [[] [] [] [] [] [] [] []]; vm_compute; try reflexivity; try discriminate.

Lemma lowerChar_lt c : Ascii.eqb (lowerChar c) "<" = true -> c = "<"%char.
Proof. each_char c; intros; discriminate. Qed.

Lemma lowerChar_whiteSpace c :
  isWhiteSpace c = true -> Ascii.eqb (lowerChar c) "h" = false.
Proof. each_char c; intros; discriminate. Qed.

Lemma breakOn_none p s : breakOn p s = None <-> includes s p = false.
Proof.
  induction s as [|c s IH].
  - destruct p; simpl; split; (discriminate || reflexivity).
  - rewrite breakOn_cons, includes_cons. destruct (startsWith (String c s) p); simpl.
    + split; discriminate.
    + rewrite <- IH. destruct (breakOn p s) as [[a b]|]; split; (discriminate || reflexivity).
Qed.

Lemma toLowerCase_app a b : toLowerCase (a +:+ b) = toLowerCase a +:+ toLowerCase b.
Proof. induction a as [|c a IH]; [reflexivity|]. rewrite app_cons. simpl. now rewrite IH. Qed.

Lemma length_toLowerCase s : String.length (toLowerCase s) = String.length s.
Proof. induction s as [|c s IH]; simpl; [reflexivity | now rewrite IH]. Qed.

(** A literal of the pattern matches any spelling of it in upper or lower case. *)
Lemma skipIgnoreCase_app x r : skipIgnoreCase (toLowerCase x) (x +:+ r) = Some r.
Proof.
  induction x as [|c x IH]; [now destruct r|]. rewrite app_cons. simpl.
  now rewrite Ascii.eqb_refl.
Qed.

(** The pattern cannot start at a character other than [<]. *)
Lemma execAnchor_head c t : notLt c = true -> execAnchor (String c t) = None.
Proof.
  intros Hc. unfold execAnchor. simpl.
  destruct (Ascii.eqb (lowerChar c) "<") eqn:E; [|reflexivity].
  apply lowerChar_lt in E. subst c. discriminate.
Qed.

Lemma execAnchor_intro tag spaces attr url rest :
  toLowerCase tag = "<a" ->
  spaces <> "" -> all isWhiteSpace spaces = true ->
  toLowerCase attr = "href=" ->
  url <> "" -> all notQuote url = true ->
  execAnchor (tag +:+ spaces +:+ attr +:+ q +:+ url +:+ q +:+ rest)
  = Some (url, (String.length spaces + String.length url + 8)%nat).
Proof.
  intros Htag Hne Hsp Hattr Hu Hq. unfold execAnchor.
  rewrite <- Htag, skipIgnoreCase_app.
  assert (Hh : match attr +:+ q +:+ url +:+ q +:+ rest with
               | EmptyString => True
               | String c _ => isWhiteSpace c = false
               end).
  { destruct attr as [|h attr]; [discriminate|]. rewrite app_cons.
    simpl in Hattr. injection Hattr as Hh _.
    destruct (isWhiteSpace h) eqn:Hw; [|reflexivity].
    apply lowerChar_whiteSpace in Hw. rewrite Hh in Hw. discriminate. }
  rewrite (span_app isWhiteSpace spaces (attr +:+ q +:+ url +:+ q +:+ rest) Hsp Hh).
  destruct spaces as [|s0 spaces]; [contradiction|].
  replace ("href=" +:+ q) with (toLowerCase (attr +:+ q))
    by (rewrite toLowerCase_app, Hattr; reflexivity).
  rewrite <- (app_assoc attr q), skipIgnoreCase_app.
  assert (Hr : match q +:+ rest with
               | EmptyString => True
               | String c _ => notQuote c = false
               end) by reflexivity.
  rewrite (span_app notQuote url (q +:+ rest) Hq Hr).
  destruct url as [|u0 url]; [contradiction|]. reflexivity.
Qed.

(** Text without [<] is copied by the scan. *)
Lemma addLinkTracking_text host trackingId text rest :
  all notLt text = true ->
  addLinkTracking host trackingId (text +:+ rest)
  = text +:+ addLinkTracking host trackingId rest.
Proof.
  unfold addLinkTracking. induction text as [|c text IH]; intros H; [reflexivity|].
  simpl in H. apply andb_true_iff in H as [Hc H].
  rewrite !app_cons, replaceAll_cons, (execAnchor_head _ _ Hc), (IH H). reflexivity.
Qed.

(** An anchor opening is replaced by one that points to the click endpoint. *)
Lemma addLinkTracking_anchor host trackingId tag spaces attr url rest :
  toLowerCase tag = "<a" ->
  spaces <> "" -> all isWhiteSpace spaces = true ->
  toLowerCase attr = "href=" ->
  url <> "" -> all notQuote url = true ->
  addLinkTracking host trackingId (tag +:+ spaces +:+ attr +:+ q +:+ url +:+ q +:+ rest)
  = "<a href=" +:+ q +:+ trackingUrl host trackingId url +:+ q
    +:+ addLinkTracking host trackingId rest.
Proof.
  intros Htag Hne Hsp Hattr Hu Hq.
  pose proof (execAnchor_intro tag spaces attr url rest Htag Hne Hsp Hattr Hu Hq) as He.
  pose proof (f_equal String.length Hattr) as Hla. rewrite length_toLowerCase in Hla.
  destruct tag as [|c0 [|c1 [|c2 tag]]]; try discriminate.
  unfold addLinkTracking. rewrite !app_cons, app_nil_l in *.
  rewrite replaceAll_cons, He.
  replace (String c1 (spaces +:+ attr +:+ q +:+ url +:+ q +:+ rest))
    with (String c1 (spaces +:+ attr +:+ q +:+ url +:+ q) +:+ rest)
    by (rewrite app_cons, !app_assoc; reflexivity).
  replace (String.length spaces + String.length url + 8)%nat
    with (String.length (String c1 (spaces +:+ attr +:+ q +:+ url +:+ q)))
    by (simpl String.length; rewrite !length_app, Hla; simpl; lia).
  rewrite drop_app_length, !app_assoc. reflexivity.
Qed.




End InjectionFacts.

Module ListFacts.

Lemma head_In {A} (l : list A) p : head l = Some p -> In p l.
Proof. destruct l; [discriminate|]. intros H; inversion H; subst. now left. Qed.

Lemma head_filter_refine {A} (f g : A -> bool) l x :
  head (List.filter f l) = Some x -> g x = true ->
  (forall y, g y = true -> f y = true) ->
  head (List.filter g l) = Some x.
Proof.
  intros Hf Hg Hgf. induction l as [|y l IH]; [discriminate|]. simpl in *.
  destruct (f y) eqn:Hfy.
  - inversion Hf; subst y. now rewrite Hg.
  - destruct (g y) eqn:Hgy; [apply Hgf in Hgy; congruence | now apply IH].
Qed.

Lemma filter_none {A} (f : A -> bool) l :
  (forall x, In x l -> f x = false) -> List.filter f l = [].
Proof.
  induction l as [|x l IH]; intros H; [reflexivity|]. simpl.
  rewrite (H x (or_introl eq_refl)). apply IH. intros y Hy. apply H. now right.
Qed.

Lemma map_untouched {A} (f : A -> bool) (g : A -> A) l :
  (forall x, In x l -> f x = false) -> map (fun x => if f x then g x else x) l = l.
Proof.
  induction l as [|x l IH]; intros H; [reflexivity|]. simpl.
  rewrite (H x (or_introl eq_refl)). f_equal. apply IH. intros y Hy. apply H. now right.
Qed.

Lemma map_unmatched {A} (f : A -> bool) (g : A -> A) l :
  List.filter f l = [] -> map (fun x => if f x then g x else x) l = l.
Proof.
  induction l as [|x l IH]; [reflexivity|]. simpl. destruct (f x); [discriminate|].
  intros H. now rewrite IH.
Qed.

Lemma filter_map_same_key {A} (key : A -> Z) (id : Z) (g : A -> A) l :
  (forall x, key (g x) = key x) ->
  List.filter (fun x => key x =? id) (map (fun x => if key x =? id then g x else x) l)
  = map g (List.filter (fun x => key x =? id) l).
Proof.
  intros Hg. induction l as [|x l IH]; [reflexivity|]. simpl.
  destruct (key x =? id) eqn:E; simpl.
  - rewrite Hg, E, IH. reflexivity.
  - rewrite E. exact IH.
Qed.

Lemma In_firstn {A} n (l : list A) x : In x (firstn n l) -> In x l.
Proof.
  revert l. induction n as [|n IH]; intros [|y l]; simpl; try tauto.
  intros [->|H]; [now left | right; now apply IH].
Qed.

End ListFacts.

Module LimiterSweepFacts.
Import RateLimiter RateLimiterProcess RateLimiterSpec RateLimiterFacts LimiterSweepSpec.

Lemma sweptBefore_refl t store : sweptBefore t store store.
Proof. intros key. now left. Qed.

Lemma sweptBefore_later t t' store swept :
  t <= t' -> sweptBefore t store swept -> sweptBefore t' store swept.
Proof.
  intros Hle H key. destruct (H key) as [E|[E (r & Hr & Hlt)]]; [now left|].
  right. split; [exact E|]. exists r. split; [exact Hr | lia].
Qed.

(** A request sees no difference between a window that has expired and one
    that the cleanup has removed. *)
Lemma increment_swept now key windowMs store swept :
  sweptBefore now store swept ->
  fst (increment now key windowMs swept) = fst (increment now key windowMs store) /\
  sweptBefore now (snd (increment now key windowMs store))
                  (snd (increment now key windowMs swept)).
Proof.
  intros H. unfold increment.
  destruct (H key) as [E|[E (r & Hr & Hlt)]].
  - rewrite E. destruct (store !! key) as [r|]; [destruct (resetTime r <? now)|];
      simpl; (split; [reflexivity|]); intros k;
      (destruct (decide (k = key)) as [->|Hne];
       [left; now rewrite !lookup_insert_eq
       |rewrite !lookup_insert_ne by congruence; apply H]).
  - rewrite E, Hr. apply Z.ltb_lt in Hlt. rewrite Hlt. simpl. split; [reflexivity|].
    intros k. destruct (decide (k = key)) as [->|Hne];
      [left; now rewrite !lookup_insert_eq
      |rewrite !lookup_insert_ne by congruence; apply H].
Qed.

Lemma cleanup_swept now store swept :
  sweptBefore now store swept -> sweptBefore now store (cleanup now swept).
Proof.
  intros H key. unfold cleanup.
  destruct (H key) as [E|[E (r & Hr & Hlt)]].
  - destruct (store !! key) as [r|] eqn:Hk.
    + destruct (resetTime r <? now) eqn:Hlt.
      * right. split; [|exists r; split; [reflexivity | now apply Z.ltb_lt]].
        apply map_lookup_filter_None. right. intros r' Hr'. rewrite E in Hr'.
        inversion Hr'; subst r'. simpl. now rewrite Hlt.
      * left. apply map_lookup_filter_Some. split; [exact E|]. simpl. now rewrite Hlt.
    + left. apply map_lookup_filter_None. now left.
  - right. split; [|now exists r]. apply map_lookup_filter_None. now left.
Qed.

Lemma serve_swept steps :
  forall t store swept,
    sweptBefore t store swept ->
    Forall (fun step => t <= timeOf step) steps ->
    inOrder steps ->
    fst (serve steps swept) = fst (serve (requestsOnly steps) store).
Proof.
  induction steps as [|step steps IH]; intros t store swept H Ht Hs; [reflexivity|].
  inversion Ht as [|? ? Hnow Ht']; subst. inversion Hs as [|? ? Hs' Hall]; subst.
  assert (Hafter : Forall (fun s => timeOf step <= timeOf s) steps) by exact Hall.
  apply (sweptBefore_later _ _ _ _ Hnow) in H.
  destruct step as [type ip now|now]; simpl in *.
  - unfold createRateLimiter.
    destruct (increment_swept now (typeName type +:+ ":" +:+ ip)
                (windowMs (defaultRules type)) store swept H) as [Hr Hrel].
    destruct (increment now _ _ swept) as [r2 s2].
    destruct (increment now _ _ store) as [r1 s1]. simpl in Hr, Hrel. subst r2.
    specialize (IH now s1 s2 Hrel Hafter Hs').
    destruct (serve steps s2) as [replies2 s2'].
    destruct (serve (requestsOnly steps) s1) as [replies1 s1']. simpl in *. now subst.
  - apply (IH now); [now apply cleanup_swept | exact Hafter | exact Hs'].
Qed.

(** The periodic cleanup cannot be observed: while the clock does not go
    back, every request gets the reply it would get if the cleanup never
    ran. *)
Theorem cleanup_is_transparent steps store :
  inOrder steps ->
  fst (serve steps store) = fst (serve (requestsOnly steps) store).
Proof.
  intros Hs. destruct steps as [|step steps]; [reflexivity|].
  apply (serve_swept _ (timeOf step)); [apply sweptBefore_refl | | exact Hs].
  inversion Hs; subst. constructor; [lia | assumption].
Qed.

Lemma cleanup_is_transparent_witness :
  fst (serve [Request api "10.0.0.1" 0; Cleanup 70000; Request api "10.0.0.1" 70001;
              Cleanup 70002; Request api "10.0.0.1" 70003] ∅)
  = fst (serve [Request api "10.0.0.1" 0; Request api "10.0.0.1" 70001;
                Request api "10.0.0.1" 70003] ∅).
Proof.
  apply (cleanup_is_transparent
           [Request api "10.0.0.1" 0; Cleanup 70000; Request api "10.0.0.1" 70001;
            Cleanup 70002; Request api "10.0.0.1" 70003] ∅).
  repeat constructor; simpl; lia.
Defined.

Lemma concerns_spec type ip type' ip' now :
  concerns type ip (Request type' ip' now) = true <-> keyOf type' ip' = keyOf type ip.
Proof.
  simpl. rewrite andb_true_iff, !String.eqb_eq. split.
  - intros [H1 ->]. destruct type, type'; (reflexivity || discriminate).
  - intros H. apply keyOf_inj in H as [-> ->]. now split.
Qed.

Lemma increment_other now key key' windowMs store :
  key' <> key -> snd (increment now key' windowMs store) !! key = store !! key.
Proof.
  intros Hne. unfold increment.
  destruct (store !! key') as [r|]; [destruct (resetTime r <? now)|]; simpl;
    now rewrite lookup_insert_ne.
Qed.

Lemma increment_same now key windowMs store store' :
  store !! key = store' !! key ->
  fst (increment now key windowMs store) = fst (increment now key windowMs store') /\
  snd (increment now key windowMs store) !! key
  = snd (increment now key windowMs store') !! key.
Proof.
  intros H. unfold increment. rewrite H.
  destruct (store' !! key) as [r|]; [destruct (resetTime r <? now)|]; simpl;
    now rewrite !lookup_insert_eq.
Qed.

Lemma cleanup_same now key store store' :
  store !! key = store' !! key -> cleanup now store !! key = cleanup now store' !! key.
Proof.
  intros H. unfold cleanup.
  destruct (store' !! key) as [r|] eqn:Hk.
  - destruct (resetTime r <? now) eqn:Hlt.
    + transitivity (@None Window); [|symmetry];
        apply map_lookup_filter_None; right; intros r' Hr';
        rewrite ?H, ?Hk in Hr'; inversion Hr'; subst; simpl; now rewrite Hlt.
    + transitivity (Some r); [|symmetry];
        apply map_lookup_filter_Some; (split; [congruence | simpl; now rewrite Hlt]).
  - transitivity (@None Window); [|symmetry];
      apply map_lookup_filter_None; left; congruence.
Qed.

(** The limiter keeps callers apart: the replies to a caller depend on its
    own window and its own requests only. Whatever the other callers and
    the other classes of request do, and whatever else the store holds, the
    caller gets the same replies. *)
Theorem callers_do_not_interfere type ip steps :
  forall store store',
    store !! keyOf type ip = store' !! keyOf type ip ->
    repliesTo type ip (fst (serve steps store))
    = repliesTo type ip (fst (serve (List.filter (concerns type ip) steps) store')).
Proof.
  induction steps as [|step steps IH]; intros store store' H; [reflexivity|].
  destruct step as [type' ip' now|now].
  - cbn [List.filter]. destruct (concerns type ip (Request type' ip' now)) eqn:Hc.
    + apply concerns_spec in Hc. apply keyOf_inj in Hc as [-> ->].
      cbn [serve]. unfold createRateLimiter. fold (keyOf type ip).
      destruct (increment_same now (keyOf type ip) (windowMs (defaultRules type))
                  store store' H) as [Hr Hk].
      destruct (increment now _ _ store) as [r1 s1].
      destruct (increment now _ _ store') as [r2 s2]. simpl in Hr, Hk. subst r2.
      specialize (IH s1 s2 Hk).
      destruct (serve steps s1) as [replies1 s1'].
      destruct (serve (List.filter (concerns type ip) steps) s2) as [replies2 s2'].
      simpl in *. rewrite !repliesTo_same. now f_equal.
    + assert (Hne : keyOf type' ip' <> keyOf type ip).
      { intros E. apply concerns_spec with (now := now) in E. congruence. }
      cbn [serve]. unfold createRateLimiter. fold (keyOf type' ip').
      pose proof (increment_other now (keyOf type ip) (keyOf type' ip')
                    (windowMs (defaultRules type')) store Hne) as Hk.
      destruct (increment now _ _ store) as [r1 s1]. simpl in Hk.
      specialize (IH s1 store' (eq_trans Hk H)).
      destruct (serve steps s1) as [replies1 s1']. simpl in *.
      now rewrite repliesTo_other.
  - cbn [List.filter concerns serve]. apply IH. now apply cleanup_same.
Qed.

Lemma callers_do_not_interfere_witness :
  repliesTo api "10.0.0.1"
    (fst (serve [Request api "10.0.0.1" 0; Request api "10.0.0.2" 1;
                 Request tracking "10.0.0.1" 2; Cleanup 3; Request api "10.0.0.1" 4]
            {[ "api:10.0.0.2" := {| count := 100; resetTime := 50 |} ]}))
  = repliesTo api "10.0.0.1"
      (fst (serve [Request api "10.0.0.1" 0; Cleanup 3; Request api "10.0.0.1" 4] ∅)).
Proof.
  apply (callers_do_not_interfere api "10.0.0.1"
           [Request api "10.0.0.1" 0; Request api "10.0.0.2" 1;
            Request tracking "10.0.0.1" 2; Cleanup 3; Request api "10.0.0.1" 4]
           {[ "api:10.0.0.2" := {| count := 100; resetTime := 50 |} ]} ∅).
  vm_compute. reflexivity.
Defined.

End LimiterSweepFacts.

Module FingerprintFacts.
Import JsString Fingerprint FingerprintSpec StringFacts.

Lemma toInt32_range z : - 2 ^ 31 <= toInt32 z < 2 ^ 31.
Proof. unfold toInt32. pose proof (Z.mod_pos_bound (z + 2 ^ 31) (2 ^ 32)). lia. Qed.

Lemma toInt32_congruent a b :
  a mod 2 ^ 32 = b mod 2 ^ 32 -> toInt32 a = toInt32 b.
Proof.
  intros H. unfold toInt32. f_equal.
  rewrite (Z.add_mod a), (Z.add_mod b) by lia. now rewrite H.
Qed.

Lemma toInt32_mod a : toInt32 a mod 2 ^ 32 = a mod 2 ^ 32.
Proof.
  unfold toInt32.
  rewrite <- (Zminus_mod_idemp_l (_ mod _)), Z.mod_mod by lia.
  rewrite Zminus_mod_idemp_l. f_equal. lia.
Qed.

Lemma toInt32_fixed z : - 2 ^ 31 <= z < 2 ^ 31 -> toInt32 z = z.
Proof. intros H. unfold toInt32. rewrite Z.mod_small; lia. Qed.

Lemma mix_congruent hash acc char :
  hash mod 2 ^ 32 = acc mod 2 ^ 32 ->
  mix hash char = toInt32 (31 * acc + Z.of_nat (code char)).
Proof.
  intros H. unfold mix. apply toInt32_congruent.
  rewrite Z.shiftl_mul_pow2 by lia.
  rewrite Z.add_mod, Zminus_mod, toInt32_mod by lia.
  rewrite <- Zminus_mod, <- Z.add_mod by lia.
  replace (hash * 2 ^ 5 - hash + Z.of_nat (code char))
    with (31 * hash + Z.of_nat (code char)) by lia.
  rewrite Z.add_mod, Z.mul_mod, H by lia.
  now rewrite <- Z.mul_mod, <- Z.add_mod by lia.
Qed.

Lemma mixAll_polynomial input :
  forall hash acc,
    hash = toInt32 acc -> mixAll hash input = toInt32 (polynomial acc input).
Proof.
  induction input as [|c t IH]; intros hash acc H; [exact H|].
  simpl. apply IH. apply mix_congruent. subst hash. apply toInt32_mod.
Qed.

(** *** Base 16 *)

Lemma digit16_value n :
  0 <= n < 16 -> valueOfDigit16 (digit16 n) = n /\ isDigit16 (digit16 n) = true.
Proof.
  intros H. rewrite <- (Z2Nat.id n) by lia.
  assert (Hk : (Z.to_nat n < 16)%nat) by lia. clear H.
  revert Hk. generalize (Z.to_nat n) as k. intros k Hk.
  do 16 (destruct k as [|k]; [split; reflexivity|]). lia.
Qed.

Lemma parse16_app s t : forall acc, parse16 acc (s +:+ t) = parse16 (parse16 acc s) t.
Proof.
  induction s as [|c s IH]; intros acc; [reflexivity|].
  rewrite app_cons. simpl. apply IH.
Qed.

Lemma all_isDigit16_app s t :
  all isDigit16 (s +:+ t) = all isDigit16 s && all isDigit16 t.
Proof.
  induction s as [|c s IH]; [reflexivity|]. rewrite app_cons. simpl.
  now rewrite IH, andb_assoc.
Qed.

(** With enough fuel, [digits16] writes the digits of [n], the first of them
    not zero unless [n] is zero. *)
Lemma digits16_spec fuel :
  forall n acc,
    0 <= n < 16 ^ (Z.of_nat fuel + 1) ->
    exists ds,
      digits16 fuel n acc = ds +:+ acc /\
      parse16 0 ds = n /\ all isDigit16 ds = true /\
      (1 <= String.length ds)%nat /\
      (0 < n -> 16 ^ (Z.of_nat (String.length ds) - 1) <= n).
Proof.
  assert (Hone : forall n acc, 0 <= n < 16 ->
            exists ds, String (digit16 (n mod 16)) acc = ds +:+ acc /\
              parse16 0 ds = n /\ all isDigit16 ds = true /\
              (1 <= String.length ds)%nat /\
              (0 < n -> 16 ^ (Z.of_nat (String.length ds) - 1) <= n)).
  { intros n acc Hn. exists (String (digit16 n) EmptyString).
    rewrite Z.mod_small by lia. destruct (digit16_value n Hn) as [Hv Hd].
    split; [reflexivity|]. simpl. rewrite Hv, Hd. repeat split; lia. }
  induction fuel as [|fuel IH]; intros n acc Hn.
  - simpl in Hn. apply Hone. lia.
  - cbn [digits16]. destruct (n <? 16) eqn:Hlt.
    + apply Hone. apply Z.ltb_lt in Hlt. lia.
    + apply Z.ltb_ge in Hlt.
      assert (Hq : 0 <= n / 16 < 16 ^ (Z.of_nat fuel + 1)).
      { split; [apply Z.div_pos; lia|]. apply Z.div_lt_upper_bound; [lia|].
        replace (Z.of_nat (S fuel) + 1) with (Z.succ (Z.of_nat fuel + 1)) in Hn by lia.
        rewrite Z.pow_succ_r in Hn by lia. lia. }
      destruct (IH (n / 16) (String (digit16 (n mod 16)) acc) Hq)
        as (ds & Hds & Hp & Hall & Hlen & Hlow).
      pose proof (Z.mod_pos_bound n 16 ltac:(lia)) as Hm.
      destruct (digit16_value (n mod 16) Hm) as [Hv Hd].
      exists (ds +:+ String (digit16 (n mod 16)) EmptyString).
      split; [rewrite Hds, app_assoc; reflexivity|].
      split; [rewrite parse16_app, Hp; simpl; rewrite Hv;
              pose proof (Z.div_mod n 16 ltac:(lia)); lia|].
      split; [rewrite all_isDigit16_app, Hall; simpl; now rewrite Hd|].
      rewrite length_app. simpl String.length. split; [lia|]. intros _.
      assert (Hpos : 0 < n / 16) by (apply Z.div_str_pos; lia).
      specialize (Hlow Hpos).
      replace (Z.of_nat (String.length ds + 1) - 1)
        with (Z.succ (Z.of_nat (String.length ds) - 1)) by lia.
      rewrite Z.pow_succ_r by lia.
      pose proof (Z.div_mod n 16 ltac:(lia)). lia.
Qed.

Lemma toString16_spec n :
  0 <= n ->
  parse16 0 (toString16 n) = n /\ all isDigit16 (toString16 n) = true /\
  (1 <= String.length (toString16 n))%nat /\
  (0 < n -> 16 ^ (Z.of_nat (String.length (toString16 n)) - 1) <= n).
Proof.
  intros Hn. unfold toString16.
  assert (Hb : 0 <= n < 16 ^ (Z.of_nat (Z.to_nat (Z.log2 n)) + 1)).
  { split; [exact Hn|]. rewrite Z2Nat.id by apply Z.log2_nonneg.
    destruct (Z.eq_dec n 0) as [->|Hne]; [reflexivity|].
    pose proof (Z.log2_spec n ltac:(lia)) as [_ Hlt].
    eapply Z.lt_le_trans; [exact Hlt|].
    replace (Z.succ (Z.log2 n)) with (Z.log2 n + 1) by lia.
    apply Z.pow_le_mono_l. lia. }
  destruct (digits16_spec _ n EmptyString Hb) as (ds & Hds & H).
  rewrite Hds, app_nil_r. exact H.
Qed.

(** [hashString] is the polynomial hash with multiplier 31 of the code units
    of the text, reduced once to a signed 32-bit integer, without its sign.
    The text it returns is that number in base 16: one to eight digits in
    lower case, which read back as the number. *)
Theorem hashString_polynomial input :
  let hash := Z.abs (toInt32 (polynomial 0 input)) in
  hashString input = toString16 hash /\
  0 <= hash <= 2 ^ 31 /\
  parse16 0 (hashString input) = hash /\
  all isDigit16 (hashString input) = true /\
  (1 <= String.length (hashString input) <= 8)%nat.
Proof.
  cbv zeta. unfold hashString.
  rewrite (mixAll_polynomial input 0 0 eq_refl).
  pose proof (toInt32_range (polynomial 0 input)) as Hr.
  set (hash := Z.abs (toInt32 (polynomial 0 input))).
  assert (Hh : 0 <= hash <= 2 ^ 31) by (unfold hash; lia).
  destruct (toString16_spec hash (proj1 Hh)) as (Hp & Hd & Hlen & Hlow).
  repeat split; try assumption; try lia.
  destruct (Z.eq_dec hash 0) as [E|Hne].
  - rewrite E. vm_compute. lia.
  - specialize (Hlow ltac:(lia)).
    destruct (le_lt_dec (String.length (toString16 hash)) 8) as [Hle|Hgt]; [exact Hle|].
    exfalso.
    assert (16 ^ 8 <= 16 ^ (Z.of_nat (String.length (toString16 hash)) - 1))
      by (apply Z.pow_le_mono_r; lia).
    change (16 ^ 8) with 4294967296 in *. change (2 ^ 31) with 2147483648 in *. lia.
Qed.

End FingerprintFacts.

Module PoolFacts.
Import Async Trace AsyncSpec TraceSpec SmtpRouter SmtpConnectionPool.

(** What an acquisition that returns has done: the connection is the
    provider's, stamped with the time of the acquisition. *)
Lemma getConnection_returned provider w transporter w1 :
  getConnection provider w = (Returned transporter, w1) ->
  transporter = SmtpProvider.id provider /\
  connections w1 = <[SmtpProvider.id provider := now w]> (connections w) /\
  now w1 = now w /\ db w1 = db w /\ env w1 = env w.
Proof.
  unfold getConnection. intros H.
  apply bind_inv in H as [(u & w0 & H0 & H)|(e & H0 & _)]; [|inversion H0].
  inversion H0; subst u w0. clear H0.
  apply bind_inv in H as [(cached & w0 & H0 & H)|(e & H0 & _)]; [|inversion H0].
  inversion H0; subst cached w0. clear H0. cbn [connections withLog] in H.
  destruct (connections w !! SmtpProvider.id provider) as [t|].
  - cbv [bind get modifyConnections ret] in H. inversion H; subst. simpl. auto.
  - apply bind_inv in H as [(u & w0 & H0 & H)|(e & _ & He)]; [|discriminate].
    apply io_inv in H0 as [-> _].
    cbv [bind get modifyConnections ret] in H. inversion H; subst. simpl. auto.
Qed.

Lemma cleanup_run w :
  SmtpConnectionPool.cleanup w
  = (Returned tt,
     withConnections
       (filter (fun kv => negb (now w - snd kv >? maxConnectionAge) = true) (connections w))
       w).
Proof. reflexivity. Qed.

(** A connection lives for five minutes after its last use. After an
    acquisition at time [t], a cleanup that runs no later than [t] plus five
    minutes keeps the connection, and the next acquisition reuses it: no
    handshake, nothing that can fail. A cleanup that runs later evicts it,
    and the next acquisition starts with a handshake. No cleanup leaves a
    connection behind that was idle for more than five minutes. *)
Theorem connection_lives_five_minutes :
  forall (provider : SmtpProvider.t) (w : World) (transporter : Z) (w1 : World) (t2 : Z),
    getConnection provider w = (Returned transporter, w1) ->
    let id := SmtpProvider.id provider in
    let w2 := snd (SmtpConnectionPool.cleanup (withNow t2 w1)) in
    (forall id' t, connections w2 !! id' = Some t ->
       connections w1 !! id' = Some t /\ t2 - t <= 5 * 60 * 1000) /\
    (t2 - now w <= 5 * 60 * 1000 ->
     forall t3,
       getConnection provider (withNow t3 w2)
       = (Returned transporter,
          withConnections (<[id := t3]> (connections w2))
            (withLog (log w2 ++ [PoolGetConnection id]) (withNow t3 w2)))) /\
    (5 * 60 * 1000 < t2 - now w ->
     connections w2 !! id = None /\
     forall t3 o w3,
       getConnection provider (withNow t3 w2) = (o, w3) ->
       log w3 = log w2 ++ [PoolGetConnection id; SmtpVerify id] /\
       tick w3 = S (tick w2)).
Proof.
  intros provider w transporter w1 t2 H id w2.
  apply getConnection_returned in H as (-> & Hc & Hn & _).
  assert (Hw2 : connections w2
                = filter (fun kv => negb (t2 - snd kv >? maxConnectionAge) = true)
                         (connections w1)) by reflexivity.
  assert (Hid : connections w1 !! id = Some (now w))
    by (rewrite Hc; apply lookup_insert_eq).
  split; [|split].
  - intros id' t Ht. rewrite Hw2 in Ht. apply map_lookup_filter_Some in Ht as [Ht Hf].
    split; [exact Ht|]. simpl in Hf. unfold maxConnectionAge in Hf.
    destruct (t2 - t >? 5 * 60 * 1000) eqn:E; [discriminate|].
    rewrite Z.gtb_ltb in E. apply Z.ltb_ge in E. exact E.
  - intros Hfresh t3.
    assert (Hk : connections w2 !! id = Some (now w)).
    { rewrite Hw2. apply map_lookup_filter_Some. split; [exact Hid|]. simpl.
      unfold maxConnectionAge.
      destruct (t2 - now w >? 5 * 60 * 1000) eqn:E; [|reflexivity].
      apply Z.gtb_lt in E. lia. }
    unfold getConnection. cbv [bind note get]. cbn [connections withLog withNow].
    fold id. rewrite Hk. reflexivity.
  - intros Hidle.
    assert (Hk : connections w2 !! id = None).
    { rewrite Hw2. apply map_lookup_filter_None. right. intros t Ht.
      rewrite Hid in Ht. inversion Ht; subst t. simpl. unfold maxConnectionAge.
      destruct (t2 - now w >? 5 * 60 * 1000) eqn:E; [intros X; discriminate X|].
      rewrite Z.gtb_ltb in E. apply Z.ltb_ge in E. lia. }
    split; [exact Hk|]. intros t3 o w3 Hrun.
    unfold getConnection in Hrun. cbv [bind note get] in Hrun.
    cbn [connections withLog withNow] in Hrun. fold id in Hrun. rewrite Hk in Hrun.
    unfold io in Hrun. cbn [env tick withLog withNow log] in Hrun.
    destruct (fault (env w2) (tick w2)); cbv [modifyConnections ret] in Hrun;
      inversion Hrun; subst; simpl; rewrite <- app_assoc; split; reflexivity.
Qed.

Lemma connection_lives_five_minutes_witness :
  let w := Examples.start Examples.calm in
  let w1 := snd (getConnection Scenarios.amazon w) in
  let w2 := snd (SmtpConnectionPool.cleanup (withNow (now w + 60000) w1)) in
  getConnection Scenarios.amazon (withNow (now w + 120000) w2)
  = (Returned 1,
     withConnections (<[1 := now w + 120000]> (connections w2))
       (withLog (log w2 ++ [PoolGetConnection 1]) (withNow (now w + 120000) w2))).
Proof.
  cbv zeta.
  refine (proj1 (proj2 (connection_lives_five_minutes Scenarios.amazon
                          (Examples.start Examples.calm) 1
                          (snd (getConnection Scenarios.amazon (Examples.start Examples.calm)))
                          (now (Examples.start Examples.calm) + 60000) _)) _ _).
  - vm_compute. reflexivity.
  - vm_compute. discriminate.
Defined.

End PoolFacts.

Module SendFacts.
Import Async Trace AsyncSpec TraceSpec SmtpRouter SmtpConnectionPool PoolFacts SendSpec.
Import SelectionSpec SelectionFacts ListFacts.

Lemma SameClock_refl w : SameClock w w.
Proof. split; reflexivity. Qed.

Lemma SameClock_trans w1 w2 w3 : SameClock w1 w2 -> SameClock w2 w3 -> SameClock w1 w3.
Proof. intros [H1 H2] [H3 H4]. split; congruence. Qed.

Lemma sameClock_io e : respects SameClock (io e).
Proof. intros w o w' H. apply io_inv in H as [-> _]. split; reflexivity. Qed.

Lemma sameClock_note e : respects SameClock (note e).
Proof. intros w o w' H. inversion H; subst. split; reflexivity. Qed.

Lemma sameClock_consoleError label e : respects SameClock (consoleError label e).
Proof. apply sameClock_note. Qed.

Lemma sameClock_fresh f : respects SameClock (fresh f).
Proof. intros w o w' H. inversion H; subst. split; reflexivity. Qed.

Lemma sameClock_modifyDb f : respects SameClock (modifyDb f).
Proof. intros w o w' H. inversion H; subst. split; reflexivity. Qed.

Lemma sameClock_modifyConnections f : respects SameClock (modifyConnections f).
Proof. intros w o w' H. inversion H; subst. split; reflexivity. Qed.

(** Nothing in the services sets the clock. *)
Ltac sameClock :=
  repeat (try autounfold with model; try unfold EmailService.recordAndSend;
          respects_step SameClock_refl SameClock_trans
            ltac:(first [ apply sameClock_io | apply sameClock_note
                        | apply sameClock_consoleError | apply sameClock_fresh
                        | apply sameClock_modifyDb | apply sameClock_modifyConnections ])).

Lemma getSmtpProvider_sameClock recipientEmail volume :
  respects SameClock (getSmtpProvider recipientEmail volume).
Proof. sameClock. Qed.

(** [getSmtpProvider] returns what [select] finds in the table. *)
Lemma getSmtpProvider_select recipientEmail volume w o w' :
  getSmtpProvider recipientEmail volume w = (Returned o, w') ->
  o = select (smtpProviders (db w)) recipientEmail volume.
Proof.
  unfold getSmtpProvider, select. intros H.
  apply bind_inv in H as [(providers & w1 & H1 & H)|(e & _ & He)]; [|discriminate].
  unfold Storage.getSmtpProvidersByRegion in H1. run_inv H1. cbn [db withTick withLog] in *.
  destruct (length _ =? 0)%nat.
  - apply bind_inv in H as [(allProviders & w2 & H2 & H)|(e & _ & He)]; [|discriminate].
    unfold Storage.getSmtpProviders in H2. run_inv H2. cbn [db withTick withLog] in *.
    destruct (length _ =? 0)%nat; inversion H; reflexivity.
  - destruct (volume >? 1000); [destruct (0 <? length _)%nat|]; inversion H; reflexivity.
Qed.

(** What the recording of a metric does, awaited or not. *)
Lemma createSystemMetric_run metric w o w' :
  Storage.createSystemMetric metric w = (o, w') ->
  log w' = log w ++ [DbCreateSystemMetric (SystemMetric.metricName metric)] /\
  env w' = env w /\ now w' = now w /\ connections w' = connections w /\
  emails (db w') = emails (db w) /\ smtpProviders (db w') = smtpProviders (db w) /\
  emailTrackingEvents (db w') = emailTrackingEvents (db w) /\
  match o with
  | Returned _ => systemMetrics (db w') = systemMetrics (db w) ++ [metric]
  | Thrown cause => db w' = db w /\ fault (env w) (tick w) = Some cause
  end.
Proof.
  unfold Storage.createSystemMetric. intros H.
  apply bind_inv in H as [(u & w1 & H1 & H)|(e & H1 & ->)].
  - apply io_inv in H1 as [-> _]. cbv [bind modifyDb ret] in H. inversion H; subst.
    simpl. repeat split; reflexivity.
  - apply io_inv in H1 as [-> Hf]. simpl. repeat split; try reflexivity.
    destruct (fault (env w) (tick w)); congruence.
Qed.

Lemma fireAndForget_metric metric w o w' :
  fireAndForget (Storage.createSystemMetric metric) w = (o, w') ->
  o = Returned tt /\
  (exists evs, log w' = log w ++ evs /\ Forall isMetric evs) /\
  env w' = env w /\ now w' = now w /\ connections w' = connections w /\
  emails (db w') = emails (db w) /\ smtpProviders (db w') = smtpProviders (db w).
Proof.
  unfold fireAndForget. intros H.
  destruct (Storage.createSystemMetric metric w) as [[m|cause] w1] eqn:Hm;
    apply createSystemMetric_run in Hm as (Hl & He & Hn & Hc & Hemails & Hp & _);
    inversion H; subst o w'; (split; [reflexivity|]).
  - split; [|auto]. eexists. split; [exact Hl|]. repeat constructor.
  - cbn [log env now connections db withLog]. split; [|auto].
    exists [DbCreateSystemMetric (SystemMetric.metricName metric); ConsoleError "" cause].
    split; [rewrite Hl, <- app_assoc; reflexivity | repeat constructor].
Qed.

Lemma getConnection_emits provider :
  respects (Emits (isAcquisition (SmtpProvider.id provider))) (getConnection provider).
Proof.
  emits (isAcquisition (SmtpProvider.id provider)); reflexivity.
Qed.

Lemma isSelection_isAcquisition id e : isSelection e -> isAcquisition id e.
Proof. destruct e; simpl; tauto. Qed.

(** The run of a [sendEmail] that reports success. *)
Lemma sendEmail_success_run :
  forall (options : SendOptions) (w : World) (result : SendResult) (w' : World),
    sendEmail options w = (Returned result, w') ->
    success result = true ->
    exists provider sent acquisition metrics,
      select (smtpProviders (db w)) (to options)
             (if volume options =? 0 then 1 else volume options) = Some provider /\
      providerId result = Some (SmtpProvider.id provider) /\
      messageId result <> None /\ error result = None /\
      sent = injectTracking (hostName (env w)) (trackingId options) (html options) /\
      log w' = log w ++ acquisition
                     ++ [SmtpSendMail (SmtpProvider.id provider) sent] ++ metrics /\
      Forall (isAcquisition (SmtpProvider.id provider)) acquisition /\
      Forall isMetric metrics /\
      connections w' = <[SmtpProvider.id provider := now w]> (connections w) /\
      emails (db w') = emails (db w).
Proof.
  intros options w result w' H Hs. unfold sendEmail in H.
  apply bind_inv in H as [(u & w0 & H0 & H)|(e & H0 & _)]; [|inversion H0].
  inversion H0; subst u w0. clear H0.
  apply tryCatch_inv in H as [(a & Hbody & Ha)|(e & w1 & _ & Hh)].
  2:{ exfalso. apply bind_inv in Hh as [(u & w2 & _ & Hh)|(e2 & _ & He)]; [|discriminate].
      apply bind_inv in Hh as [(u2 & w3 & _ & Hh)|(e2 & _ & He)]; [|discriminate].
      inversion Hh; subst result. discriminate. }
  injection Ha as <-.
  apply bind_inv in Hbody as [(found & w1 & H1 & Hbody)|(e & _ & He)]; [|discriminate].
  pose proof (getSmtpProvider_select _ _ _ _ _ H1) as Hsel.
  pose proof (getSmtpProvider_sameClock _ _ _ _ _ H1) as [Hn1 He1].
  pose proof (getSmtpProvider_quiet _ _ _ _ _ H1) as ([_ (evs1 & Hl1 & Hf1)] & Hdb1 & Hc1).
  cbn [db log now env connections withLog] in *.
  destruct found as [provider|]; [|discriminate].
  apply bind_inv in Hbody as [(transporter & w2 & H2 & Hbody)|(e & _ & He)]; [|discriminate].
  pose proof (getConnection_emits provider _ _ _ H2) as [_ (evs2 & Hl2 & Hf2)].
  apply getConnection_returned in H2 as (-> & Hc2 & Hn2 & Hdb2 & He2).
  apply bind_inv in Hbody as [(host & w3 & H3 & Hbody)|(e & _ & He)]; [|discriminate].
  inversion H3; subst host w3. clear H3.
  apply bind_inv in Hbody as [(mid & w3 & H3 & Hbody)|(e & _ & He)]; [|discriminate].
  unfold sendMail in H3.
  apply bind_inv in H3 as [(u & w4 & H4 & H3)|(e & _ & He)]; [|discriminate].
  destruct u. apply io_returned in H4 as [-> _]. inversion H3; subst mid w3. clear H3.
  apply bind_inv in Hbody as [(u & w5 & H5 & Hbody)|(e & _ & He)]; [|discriminate].
  apply fireAndForget_metric in H5 as (_ & (evs5 & Hl5 & Hf5) & He5 & Hn5 & Hc5 & Hem5 & _).
  inversion Hbody; subst result w'. clear Hbody.
  cbn [db log now env connections withLog withTick] in *.
  exists provider, (injectTracking (hostName (env w)) (trackingId options) (html options)),
         ([CallSendEmail] ++ evs1 ++ evs2), evs5.
  split; [now symmetry|]. split; [reflexivity|]. split; [discriminate|].
  split; [reflexivity|]. split; [reflexivity|].
  split.
  { rewrite Hl5, Hl2, Hl1, He2, He1. rewrite <- !app_assoc. reflexivity. }
  split.
  { apply Forall_app. split; [repeat constructor|]. apply Forall_app. split; [|exact Hf2].
    eapply List.Forall_impl; [|exact Hf1]. apply isSelection_isAcquisition. }
  split; [exact Hf5|].
  split; [rewrite Hc5, Hc2, Hc1, Hn1; reflexivity|].
  rewrite Hem5, Hdb2, Hdb1. reflexivity.
Qed.

(** Whatever [select] finds is a row of the table, and it is active. *)
Lemma select_active table recipientEmail volume provider :
  select table recipientEmail volume = Some provider ->
  In provider table /\ SmtpProvider.isActive provider = true.
Proof.
  unfold select. intros H.
  assert (Hregional : forall p,
            In p (sort (fun a b => SmtpProvider.priority a - SmtpProvider.priority b)
                    (List.filter (fun p => String.eqb (SmtpProvider.region p)
                                             (regionOf recipientEmail)
                                           && SmtpProvider.isActive p) table)) ->
            In p table /\ SmtpProvider.isActive p = true).
  { intros p Hp. apply SortFacts.sort_In, filter_In in Hp as [Hin Hp].
    apply andb_true_iff in Hp as [_ Hp]. auto. }
  destruct (length _ =? 0)%nat.
  - destruct (length _ =? 0)%nat; [discriminate|].
    apply head_In, SortFacts.sort_In, filter_In in H. exact H.
  - destruct (volume >? 1000); [destruct (0 <? length _)%nat|].
    + apply head_In, filter_In in H as [H _]. now apply Hregional.
    + apply head_In, SortFacts.sort_In in H. now apply Hregional.
    + apply head_In in H. now apply Hregional.
Qed.

(** When [sendEmail] reports success, the message has gone out, once: to
    the provider that [getSmtpProvider] selects from the table, which is an
    active provider, over that provider's pooled connection, with the body
    that the tracking injection makes of the given body. The result names
    that provider and carries the message id of the mail server. *)
Theorem sendEmail_success_means_handed_over :
  forall (options : SendOptions) (w : World) (result : SendResult) (w' : World),
    sendEmail options w = (Returned result, w') ->
    success result = true ->
    exists provider acquisition metrics,
      In provider (smtpProviders (db w)) /\ SmtpProvider.isActive provider = true /\
      select (smtpProviders (db w)) (to options)
             (if volume options =? 0 then 1 else volume options) = Some provider /\
      providerId result = Some (SmtpProvider.id provider) /\
      messageId result <> None /\ error result = None /\
      log w' = log w ++ acquisition
                     ++ [SmtpSendMail (SmtpProvider.id provider)
                           (injectTracking (hostName (env w)) (trackingId options)
                              (html options))]
                     ++ metrics /\
      Forall (isAcquisition (SmtpProvider.id provider)) acquisition /\
      Forall isMetric metrics /\
      connections w' = <[SmtpProvider.id provider := now w]> (connections w) /\
      emails (db w') = emails (db w).
Proof.
  intros options w result w' H Hs.
  destruct (sendEmail_success_run _ _ _ _ H Hs)
    as (provider & sent & acquisition & metrics & Hsel & Hp & Hm & He & -> & Hrest).
  destruct (select_active _ _ _ _ Hsel) as [Hin Hact].
  exists provider, acquisition, metrics. auto 12.
Qed.

Lemma sendMail_thrown transporter html w cause w' :
  sendMail transporter html w = (Thrown cause, w') ->
  fault (env w) (tick w) = Some cause /\
  w' = withTick (S (tick w)) (withLog (log w ++ [SmtpSendMail transporter html]) w).
Proof.
  unfold sendMail. intros H.
  apply bind_inv in H as [(u & w1 & _ & H)|(e & H1 & He)]; [inversion H|].
  injection He as <-. apply io_inv in H1 as [-> Hf].
  destruct (fault (env w) (tick w)); [|discriminate]. injection Hf as ->. auto.
Qed.

Lemma getConnection_thrown provider w cause w' :
  getConnection provider w = (Thrown cause, w') ->
  fault (env w) (tick w) = Some cause /\ connections w' = connections w /\
  db w' = db w /\ env w' = env w.
Proof.
  unfold getConnection. intros H.
  apply bind_inv in H as [(u & w0 & H0 & H)|(e & H0 & _)]; [|inversion H0].
  inversion H0; subst u w0. clear H0.
  apply bind_inv in H as [(cached & w0 & H0 & H)|(e & H0 & _)]; [|inversion H0].
  inversion H0; subst cached w0. clear H0. cbn [connections withLog] in H.
  destruct (connections w !! SmtpProvider.id provider) as [t|].
  - cbv [bind get modifyConnections ret] in H. inversion H.
  - apply bind_inv in H as [(u & w0 & H0 & H)|(e & H0 & He)].
    + cbv [bind get modifyConnections ret] in H. inversion H.
    + injection He as <-. apply io_inv in H0 as [-> Hf]. cbn [env tick withLog] in Hf.
      destruct (fault (env w) (tick w)); [|discriminate]. injection Hf as ->.
      simpl. auto.
Qed.

(** When [sendEmail] reports a failure, it reports the cause and names no
    message and no provider. The cause is that the table holds no provider
    that can be selected, in which case no connection was looked for, or it
    is the error of an operation that failed. The email records are as they
    were, and the failure is on the console. *)
Theorem sendEmail_failure_is_explained :
  forall (options : SendOptions) (w : World) (result : SendResult) (w' : World),
    sendEmail options w = (Returned result, w') ->
    success result = false ->
    exists cause attempt metrics,
      error result = Some cause /\ messageId result = None /\ providerId result = None /\
      log w' = log w ++ attempt ++ [ConsoleError "Email sending error:" cause] ++ metrics /\
      Forall isMetric metrics /\
      emails (db w') = emails (db w) /\
      ((cause = "No suitable SMTP provider found" /\
        select (smtpProviders (db w)) (to options)
               (if volume options =? 0 then 1 else volume options) = None /\
        connections w' = connections w /\
        Forall (fun e => e = CallSendEmail \/ isSelection e) attempt)
       \/ (exists n, fault (env w) n = Some cause)).
Proof.
  intros options w result w' H Hs. unfold sendEmail in H.
  apply bind_inv in H as [(u & w0 & H0 & H)|(e & H0 & _)]; [|inversion H0].
  inversion H0; subst u w0. clear H0.
  apply tryCatch_inv in H as [(a & Hbody & Ha)|(cause & w1 & Hbody & Hh)].
  { exfalso. injection Ha as <-.
    apply bind_inv in Hbody as [(found & w1 & H1 & Hbody)|(e & _ & He)]; [|discriminate].
    destruct found as [provider|]; [|discriminate]. run_inv Hbody. discriminate Hs. }
  apply bind_inv in Hh as [(u & w2 & H2 & Hh)|(e2 & H2 & _)]; [|inversion H2].
  inversion H2; subst u w2. clear H2.
  apply bind_inv in Hh as [(u & w2 & H2 & Hh)|(e2 & H2 & He)].
  2:{ apply fireAndForget_metric in H2 as (X & _). discriminate X. }
  apply fireAndForget_metric in H2 as (_ & (evs & Hl & Hf) & He & Hn & Hc & Hem & _).
  inversion Hh; subst result w'. clear Hh.
  cbn [db log now env connections withLog] in *.
  assert (Hbody' : exists attempt,
            log w1 = log w ++ attempt /\ emails (db w1) = emails (db w) /\
            ((cause = "No suitable SMTP provider found" /\
              select (smtpProviders (db w)) (to options)
                     (if volume options =? 0 then 1 else volume options) = None /\
              connections w1 = connections w /\
              Forall (fun e => e = CallSendEmail \/ isSelection e) attempt)
             \/ (exists n, fault (env w) n = Some cause))).
  { apply bind_inv in Hbody as [(found & w3 & H3 & Hbody)|(e & H3 & E)].
    - pose proof (getSmtpProvider_select _ _ _ _ _ H3) as Hsel.
      pose proof (getSmtpProvider_sameClock _ _ _ _ _ H3) as [Hn3 He3].
      pose proof (getSmtpProvider_quiet _ _ _ _ _ H3)
        as ([_ (evs3 & Hl3 & Hf3)] & Hdb3 & Hc3).
      cbn [db log now env connections withLog] in *.
      destruct found as [provider|].
      + apply bind_inv in Hbody as [(transporter & w4 & H4 & Hbody)|(e & H4 & E)].
        * pose proof (getConnection_emits provider _ _ _ H4) as [_ (evs4 & Hl4 & Hf4)].
          apply getConnection_returned in H4 as (-> & Hc4 & Hn4 & Hdb4 & He4).
          apply bind_inv in Hbody as [(host & w5 & H5 & Hbody)|(e & H5 & _)];
            [|inversion H5].
          inversion H5; subst host w5. clear H5.
          apply bind_inv in Hbody as [(mid & w5 & H5 & Hbody)|(e & H5 & E)].
          -- exfalso.
             apply bind_inv in Hbody as [(x & w6 & H6 & Hbody)|(e & H6 & E)];
               [inversion Hbody|].
             apply fireAndForget_metric in H6 as (X & _). discriminate X.
          -- injection E as <-. apply sendMail_thrown in H5 as [Hfault ->].
             cbn [db log withTick withLog].
             eexists. split; [rewrite Hl4, Hl3, <- !app_assoc; reflexivity|].
             split; [congruence|]. right. exists (tick w4). congruence.
        * injection E as <-.
          pose proof (getConnection_emits provider _ _ _ H4) as [_ (evs4 & Hl4 & Hf4)].
          apply getConnection_thrown in H4 as (Hfault & Hc4 & Hdb4 & He4).
          eexists. split; [rewrite Hl4, Hl3, <- !app_assoc; reflexivity|].
          split; [congruence|]. right. exists (tick w3). congruence.
      + inversion Hbody; subst cause w1.
        exists ([CallSendEmail] ++ evs3). split; [rewrite Hl3, <- app_assoc; reflexivity|].
        split; [congruence|]. left. split; [reflexivity|]. split; [now symmetry|].
        split; [exact Hc3|]. apply Forall_app. split; [repeat constructor; now left|].
        eapply List.Forall_impl; [|exact Hf3]. intros e He'. now right.
    - injection E as <-.
      pose proof (getSmtpProvider_quiet _ _ _ _ _ H3)
        as ([_ (evs3 & Hl3 & Hf3)] & Hdb3 & Hc3).
      cbn [db log now env connections withLog] in *.
      apply getSmtpProvider_thrown in H3. cbn [env tick withLog] in H3.
      exists ([CallSendEmail] ++ evs3). split; [rewrite Hl3, <- app_assoc; reflexivity|].
      split; [congruence|]. right. destruct H3 as [H3|H3]; eauto. }
  destruct Hbody' as (attempt & Hl1 & Hem1 & Hcase).
  exists cause, attempt, evs. repeat split; try reflexivity.
  - rewrite Hl, Hl1, <- !app_assoc. reflexivity.
  - exact Hf.
  - congruence.
  - destruct Hcase as [(-> & Hsel & Hc1 & Hfa)|Hfault]; [left|right; exact Hfault].
    repeat split; try assumption. congruence.
Qed.

(** The metric that [sendEmail] writes after the hand-over is best effort:
    once the provider is selected, its connection acquired and the message
    accepted, the result is a success whatever happens to the metric. *)
Theorem metric_failure_does_not_fail_the_send :
  forall (options : SendOptions) (w : World) (provider : SmtpProvider.t) (w1 w2 : World)
         (transporter : Z),
    getSmtpProvider (to options) (if volume options =? 0 then 1 else volume options)
      (withLog (log w ++ [CallSendEmail]) w) = (Returned (Some provider), w1) ->
    getConnection provider w1 = (Returned transporter, w2) ->
    fault (env w) (tick w2) = None ->
    exists w',
      sendEmail options w
      = (Returned {| success := true;
                     messageId := Some (messageIdOf (env w) (S (tick w2)));
                     providerId := Some (SmtpProvider.id provider);
                     error := None |}, w') /\
      (forall cause, fault (env w) (S (S (tick w2))) = Some cause ->
         systemMetrics (db w') = systemMetrics (db w) /\
         exists before,
           log w' = before ++ [DbCreateSystemMetric "email_sent"; ConsoleError "" cause]).
Proof.
  intros options w provider w1 w2 transporter H1 H2 Hok.
  pose proof (getSmtpProvider_sameClock _ _ _ _ _ H1) as [_ He1].
  pose proof (getSmtpProvider_quiet _ _ _ _ _ H1) as (_ & Hdb1 & _).
  pose proof (getConnection_returned _ _ _ _ H2) as (-> & Hc2 & Hn2 & Hdb2 & He2).
  cbn [env db withLog] in *.
  assert (He : env w2 = env w) by congruence.
  assert (Hdb : db w2 = db w) by congruence.
  set (html_ := injectTracking (hostName (env w2)) (trackingId options) (html options)).
  set (w3 := withTick (S (S (tick w2)))
               (withLog (log w2 ++ [SmtpSendMail (SmtpProvider.id provider) html_]) w2)).
  assert (Hsend : sendMail (SmtpProvider.id provider) html_ w2
                  = (Returned (messageIdOf (env w) (S (tick w2))), w3)).
  { unfold sendMail, bind. rewrite io_ok by (rewrite He; exact Hok).
    unfold fresh. cbn [env tick withTick withLog]. rewrite He. reflexivity. }
  destruct (fireAndForget
              (Storage.createSystemMetric
                 (metric "email_sent" "success" (SmtpProvider.region provider))) w3)
    as [o4 w4] eqn:H4.
  assert (Ho4 : o4 = Returned tt).
  { unfold fireAndForget in H4. destruct (Storage.createSystemMetric _ w3) as [[m|c] w5];
      inversion H4; reflexivity. }
  subst o4. exists w4. split.
  - unfold sendEmail. cbv [bind note tryCatch get]. rewrite H1, H2.
    fold html_. rewrite Hsend, H4. reflexivity.
  - intros cause Hcause. unfold fireAndForget, Storage.createSystemMetric, bind in H4.
    rewrite io_fails with (cause := cause) in H4
      by (cbn [env tick w3 withTick withLog]; rewrite He; exact Hcause).
    inversion H4; subst w4. cbn [db log w3 withTick withLog].
    split; [now rewrite Hdb|]. eexists. rewrite <- app_assoc. reflexivity.
Qed.

End SendFacts.

Module SendWitnesses.
Import SmtpRouter SmtpConnectionPool SendSpec SendFacts Examples Scenarios.

Lemma sendEmail_success_means_handed_over_witness :
  let w := start calm in
  let w' := snd (sendEmail newsletter w) in
  exists provider acquisition metrics,
    select (smtpProviders (db w)) "ada@example.com" 1 = Some provider /\
    SmtpProvider.isActive provider = true /\
    log w' = log w ++ acquisition
                   ++ [SmtpSendMail (SmtpProvider.id provider)
                         (injectTracking (hostName (env w)) "t1" (html newsletter))]
                   ++ metrics /\
    Forall (isAcquisition (SmtpProvider.id provider)) acquisition /\
    Forall isMetric metrics /\
    connections w' = <[SmtpProvider.id provider := now w]> (connections w) /\
    emails (db w') = emails (db w).
Proof.
  cbv zeta.
  destruct (sendEmail_success_means_handed_over newsletter (start calm)
              (valueOf noResult (fst (sendEmail newsletter (start calm))))
              (snd (sendEmail newsletter (start calm))))
    as (p & a & m & _ & Hactive & Hselect & _ & _ & _ & Hlog & Ha & Hm & Hc & He).
  - vm_compute. reflexivity.
  - vm_compute. reflexivity.
  - exists p, a, m.
    split; [exact Hselect|]. split; [exact Hactive|]. split; [exact Hlog|].
    split; [exact Ha|]. split; [exact Hm|]. split; [exact Hc|exact He].
Defined.

Lemma sendEmail_failure_is_explained_witness :
  let w := start down in
  let result := valueOf noResult (fst (sendEmail newsletter w)) in
  let w' := snd (sendEmail newsletter w) in
  exists cause attempt metrics,
    error result = Some cause /\ messageId result = None /\ providerId result = None /\
    log w' = log w ++ attempt ++ [ConsoleError "Email sending error:" cause] ++ metrics /\
    Forall isMetric metrics /\
    emails (db w') = emails (db w).
Proof.
  cbv zeta.
  destruct (sendEmail_failure_is_explained newsletter (start down)
              (valueOf noResult (fst (sendEmail newsletter (start down))))
              (snd (sendEmail newsletter (start down))))
    as (c & a & m & He & Hi & Hp & Hlog & Hm & Hdb & _).
  - vm_compute. reflexivity.
  - vm_compute. reflexivity.
  - exists c, a, m.
    split; [exact He|]. split; [exact Hi|]. split; [exact Hp|].
    split; [exact Hlog|]. split; [exact Hm|exact Hdb].
Defined.

Lemma metric_failure_does_not_fail_the_send_witness :
  let w := start (failingAt 4 "too many connections") in
  exists w',
    sendEmail newsletter w
    = (Returned {| success := true; messageId := Some (messageIdOf (env w) 3);
                   providerId := Some 1; error := None |}, w') /\
    systemMetrics (db w') = systemMetrics (db w).
Proof.
  cbv zeta.
  set (w := start (failingAt 4 "too many connections")).
  set (r1 := getSmtpProvider "ada@example.com" 1 (withLog (log w ++ [CallSendEmail]) w)).
  set (r2 := getConnection amazon (snd r1)).
  destruct (metric_failure_does_not_fail_the_send newsletter w amazon (snd r1) (snd r2) 1)
    as (w' & Hrun & Hmetric).
  - vm_compute. reflexivity.
  - vm_compute. reflexivity.
  - vm_compute. reflexivity.
  - exists w'. split; [exact Hrun|].
    apply (Hmetric "too many connections"). vm_compute. reflexivity.
Defined.

End SendWitnesses.

Module PipelineFacts.
Import JsString Async Trace AsyncSpec TraceSpec EmailService.
Import ComplianceSpec ComplianceFacts SelectionSpec SelectionFacts SendSpec SendFacts DeliverySpec DeliveryFacts.
Import StringFacts RegExpFacts TemplateSpec TemplateFacts SortFacts ListFacts PipelineSpec.

(** A rendering is empty only if the content is: a placeholder is replaced
    by a value that is not empty, or it stays. *)
Lemma processTemplate_empty proto content variables :
  TemplateEngine.processTemplate proto content variables = "" -> content = "".
Proof.
  destruct content as [|c t]; [reflexivity|]. unfold TemplateEngine.processTemplate.
  rewrite replaceAll_cons.
  destruct (TemplateEngine.execPlaceholder (String c t)) as [[capture n]|]; [|discriminate].
  unfold TemplateEngine.replacer.
  destruct (TemplateEngine.propertyRead proto variables (trim capture)) as [v|];
    [destruct v as [|d v]|]; simpl; discriminate.
Qed.

Lemma getTemplate_run id w o w' :
  Storage.getTemplate id w = (o, w') ->
  w' = withTick (S (tick w)) (withLog (log w ++ [DbGetTemplate id]) w) /\
  match o with
  | Returned found => found = head (List.filter (fun t => Template.id t =? id)
                                                 (templates (db w)))
  | Thrown cause => fault (env w) (tick w) = Some cause
  end.
Proof.
  unfold Storage.getTemplate. intros H.
  apply bind_inv in H as [(u & w1 & H1 & H)|(e & H1 & ->)].
  - apply io_inv in H1 as [-> _]. cbv [bind get ret] in H. inversion H; subst. auto.
  - apply io_inv in H1 as [-> Hf]. split; [reflexivity|].
    destruct (fault (env w) (tick w)); congruence.
Qed.

Lemma render_run content request w :
  render content request w
  = (Returned (TemplateEngine.processTemplate (objectPrototype (env w)) content
                 (variablesOf request)),
     withLog (log w ++ [RenderTemplate]) w).
Proof. reflexivity. Qed.

(** What the part of a send between the compliance check and the selection
    of a provider does: it draws the tracking id, reads the template if
    there is one, and renders it. *)
Lemma content_run request w0 :
  forall o w3,
    (match givenTemplateId request with
     | Some id =>
         template <- Storage.getTemplate id ;;
         match template with
         | None => ret None
         | Some template =>
             html <- render (Template.htmlContent template) request ;;
             text <- render (Template.textContent template) request ;;
             ret (Some (html, text))
         end
     | None => ret (Some (orEmpty (html request), orEmpty (text request)))
     end) w0 = (o, w3) ->
    db w3 = db w0 /\ connections w3 = connections w0 /\ env w3 = env w0 /\
    now w3 = now w0 /\
    (exists evs, log w3 = log w0 ++ evs /\ Forall isPreparation evs) /\
    match o with
    | Returned content =>
        content = contentOf (objectPrototype (env w0)) (templates (db w0)) request
    | Thrown cause => exists n, fault (env w0) n = Some cause
    end.
Proof.
  intros o w3 H. unfold contentOf. destruct (givenTemplateId request) as [id|].
  - apply bind_inv in H as [(found & w1 & H1 & H)|(e & H1 & ->)].
    + apply getTemplate_run in H1 as [-> ->].
      destruct (head _) as [template|].
      * unfold render in H. cbv [bind note get ret] in H.
        inversion H; subst. cbn [db connections env now log withLog withTick].
        repeat split; try reflexivity.
        eexists. rewrite <- !List.app_assoc. split; [reflexivity|]. repeat constructor.
      * inversion H; subst. cbn [db connections env now log withLog withTick].
        repeat split; try reflexivity.
        eexists. split; [reflexivity|]. repeat constructor.
    + apply getTemplate_run in H1 as [-> Hf].
      cbn [db connections env now log withLog withTick].
      repeat split; try reflexivity; [|eauto].
      eexists. split; [reflexivity|]. repeat constructor.
  - inversion H; subst. repeat split; try reflexivity.
    exists []. now rewrite List.app_nil_r.
Qed.

(** How a run of [recordAndSend] that returns goes. *)
Lemma recordAndSend_returned request trackingId_ html text provider w res w' :
  recordAndSend request trackingId_ html text provider w = (Returned res, w') ->
  exists record w1 sendResult w2 updated,
    Storage.createEmail (insertOf request trackingId_ provider) w = (Returned record, w1) /\
    SmtpRouter.sendEmail (optionsOf request trackingId_ html text) w1
      = (Returned sendResult, w2) /\
    Storage.updateEmailStatus (Email.id record)
      (if SmtpRouter.success sendResult then "sent" else "failed") w2
      = (Returned updated, w') /\
    res = if SmtpRouter.success sendResult
          then {| success := true; emailId := Some (Email.id record);
                  trackingId := Some trackingId_;
                  message := "Email sent successfully"; error := None |}
          else {| success := false; emailId := Some (Email.id record);
                  trackingId := Some trackingId_;
                  message := "Failed to send email";
                  error := SmtpRouter.error sendResult |}.
Proof.
  unfold recordAndSend. intros H.
  apply bind_inv in H as [(record & w1 & H1 & H)|(e & _ & He)]; [|discriminate].
  apply bind_inv in H as [(sendResult & w2 & H2 & H)|(e & _ & He)]; [|discriminate].
  exists record, w1, sendResult, w2.
  destruct (SmtpRouter.success sendResult); cbn [negb] in H;
    (apply bind_inv in H as [(updated & w3 & H3 & H)|(e & _ & He)]; [|discriminate]);
    inversion H; subst res w'; exists updated; auto.
Qed.

(** How a run of [afterCompliance] that returns goes. *)
Lemma afterCompliance_returned request w res w' :
  afterCompliance request w = (Returned res, w') ->
  exists w3,
    db w3 = db w /\ connections w3 = connections w /\ env w3 = env w /\ now w3 = now w /\
    (exists evs, log w3 = log w ++ evs /\ Forall isPreparation evs) /\
    match contentOf (objectPrototype (env w)) (templates (db w)) request with
    | None =>
        w' = w3 /\
        res = failure "Template not found"
                ("Template with ID " +:+ pretty_id (default 0 (templateId request))
                 +:+ " does not exist")
    | Some (html, text) =>
        if negb (truthy html) && negb (truthy text) then
          w' = w3 /\
          res = failure "Email content is required"
                  "Either html, text, or templateId must be provided"
        else
          exists found w4,
            SmtpRouter.getSmtpProvider (to request)
              (if volume request =? 0 then 1 else volume request) w3
              = (Returned found, w4) /\
            match found with
            | None =>
                w' = w4 /\
                res = failure "No suitable SMTP provider available"
                        "Failed to find an active SMTP provider for this request"
            | Some provider =>
                recordAndSend request (uuidv4 (env w) (tick w)) html text provider w4
                = (Returned res, w')
            end
    end.
Proof.
  unfold afterCompliance. intros H.
  apply bind_inv in H as [(tid & w1 & H1 & H)|(e & _ & He)]; [|discriminate].
  inversion H1; subst tid w1. clear H1.
  apply bind_inv in H as [(content & w3 & H3 & H)|(e & _ & He)]; [|discriminate].
  apply content_run in H3 as (Hdb & Hc & He & Hn & Hl & ->).
  cbn [db connections env now log withTick] in *.
  exists w3. repeat split; try assumption.
  destruct (contentOf _ _ _) as [[html text]|].
  - destruct (negb (truthy html) && negb (truthy text)).
    + inversion H; subst. auto.
    + apply bind_inv in H as [(found & w4 & H4 & H)|(e & _ & He')]; [|discriminate].
      exists found, w4. split; [exact H4|].
      destruct found as [provider|]; [exact H|]. inversion H; subst. auto.
  - inversion H; subst. auto.
Qed.

(** How a run of [processEmailSend] goes: the compliance check, and then
    the rejection of a blocked region, the answer of the [catch] block, or
    what comes after the check. *)
Lemma processEmailSend_returned request w res w' :
  processEmailSend request w = (Returned res, w') ->
  exists w1,
    Quiet isComplianceLookup w w1 /\
    ((exists reason_, res = failure "Recipient is in a blocked region" reason_ /\ w' = w1) \/
     (exists cause, res = failure "Failed to process email request" cause) \/
     afterCompliance request w1 = (Returned res, w')).
Proof.
  intros H. apply processEmailSend_split in H as (o1 & w1 & Hcheck & Hrest).
  exists w1. split; [exact (proj1 (checkMarkers_run _ _ _ _ _ Hcheck))|].
  destruct o1 as [c|cause].
  - apply tryCatch_inv in Hrest as [(a & Hbody & Ha)|(e & w2 & _ & Hh)].
    + injection Ha as <-. destruct (allowed c); cbn [negb] in Hbody.
      * right. right. exact Hbody.
      * left. inversion Hbody; subst. eauto.
    + right. left. inversion Hh; subst. eauto.
  - right. left. inversion Hrest; subst. eauto.
Qed.

Lemma truthy_false s : truthy s = false -> s = "".
Proof. destruct s; [reflexivity | discriminate]. Qed.

Lemma recordAndSend_message request trackingId_ html text provider w res w' :
  recordAndSend request trackingId_ html text provider w = (Returned res, w') ->
  message res = "Email sent successfully" \/ message res = "Failed to send email".
Proof.
  intros H. apply recordAndSend_returned in H as (r & w1 & s & w2 & u & _ & _ & _ & ->).
  destruct (SmtpRouter.success s); auto.
Qed.

(** A send that is answered with one of the two rejections of the content
    has come to its end before the selection of a provider. *)
Lemma rejected_for_content request w res w' :
  processEmailSend request w = (Returned res, w') ->
  message res = "Template not found" \/ message res = "Email content is required" ->
  db w' = db w /\ connections w' = connections w /\
  (exists evs, log w' = log w ++ evs /\ Forall isPreparation evs) /\
  match contentOf (objectPrototype (env w)) (templates (db w)) request with
  | None =>
      res = failure "Template not found"
              ("Template with ID " +:+ pretty_id (default 0 (templateId request))
               +:+ " does not exist")
  | Some (html, text) =>
      truthy html = false /\ truthy text = false /\
      res = failure "Email content is required"
              "Either html, text, or templateId must be provided"
  end.
Proof.
  intros H Hm.
  apply processEmailSend_returned in H
    as (w1 & ([He1 (evs1 & Hl1 & Hf1)] & Hdb1 & Hc1) & [(r & -> & _)|[(c & ->)|H]]).
  - destruct Hm; discriminate.
  - destruct Hm; discriminate.
  - apply afterCompliance_returned in H
      as (w3 & Hdb3 & Hc3 & He3 & _ & (evs3 & Hl3 & Hf3) & H).
    rewrite He1, Hdb1 in H.
    assert (Hlog : exists evs, log w3 = log w ++ evs /\ Forall isPreparation evs).
    { exists (evs1 ++ evs3). split; [rewrite Hl3, Hl1; apply eq_sym, List.app_assoc|].
      apply Forall_app. split; [|exact Hf3].
      eapply List.Forall_impl; [|exact Hf1]. intros e; destruct e; simpl; tauto. }
    destruct (contentOf _ _ _) as [[html text]|].
    + destruct (truthy html) eqn:Hh, (truthy text) eqn:Ht; cbn [negb andb] in H;
        try (destruct H as (found & w4 & _ & H); exfalso;
             destruct found as [provider|];
             [apply recordAndSend_message in H; destruct H as [H|H], Hm as [Hm|Hm];
              rewrite H in Hm; discriminate
             |destruct H as [_ ->]; destruct Hm; discriminate]).
      destruct H as [-> ->].
      split; [congruence|]. split; [congruence|]. split; [exact Hlog|]. auto.
    + destruct H as [-> ->].
      split; [congruence|]. split; [congruence|]. split; [exact Hlog|]. reflexivity.
Qed.

(** A send with the id of a template that does not exist is answered with
    [Template not found] and the id; it has read the tables and done nothing
    else. An id of zero counts as no id. *)
Theorem unknown_template_is_rejected :
  forall (request : SendEmailRequest) (w : World) (res : SendEmailResponse) (w' : World),
    processEmailSend request w = (Returned res, w') ->
    message res = "Template not found" ->
    exists id,
      templateId request = Some id /\ id <> 0 /\
      (forall t, In t (templates (db w)) -> Template.id t <> id) /\
      res = failure "Template not found"
              ("Template with ID " +:+ pretty_id id +:+ " does not exist") /\
      db w' = db w /\ connections w' = connections w /\
      exists evs, log w' = log w ++ evs /\ Forall isPreparation evs.
Proof.
  intros request w res w' H Hm.
  destruct (rejected_for_content _ _ _ _ H (or_introl Hm)) as (Hdb & Hc & Hl & Hcase).
  unfold contentOf, givenTemplateId in Hcase.
  destruct (templateId request) as [id|] eqn:Hid.
  2:{ destruct Hcase as (_ & _ & ->). discriminate. }
  destruct (id =? 0) eqn:Hz.
  { destruct Hcase as (_ & _ & ->). discriminate. }
  destruct (head _) as [template|] eqn:Hhead.
  { destruct Hcase as (_ & _ & ->). discriminate. }
  exists id. split; [reflexivity|]. split; [now apply Z.eqb_neq|].
  split.
  { intros t Hin E.
    destruct (List.filter (fun t => Template.id t =? id) (templates (db w))) eqn:Hf;
      [|discriminate].
    pose proof (filter_nil_inv _ _ Hf t Hin) as Hne. simpl in Hne.
    apply Z.eqb_neq in Hne. contradiction. }
  split; [exact Hcase|]. auto.
Qed.

(** A send is answered with [Email content is required] only when there is
    nothing to send: without a template, the request has neither html nor
    text (or has them empty); with a template, both bodies of the template
    are empty. Content that is not empty cannot render to nothing. *)
Theorem missing_content_is_rejected :
  forall (request : SendEmailRequest) (w : World) (res : SendEmailResponse) (w' : World),
    processEmailSend request w = (Returned res, w') ->
    message res = "Email content is required" ->
    res = failure "Email content is required"
            "Either html, text, or templateId must be provided" /\
    match givenTemplateId request with
    | None => orEmpty (html request) = "" /\ orEmpty (text request) = ""
    | Some id =>
        exists template,
          In template (templates (db w)) /\ Template.id template = id /\
          Template.htmlContent template = "" /\ Template.textContent template = ""
    end /\
    db w' = db w /\ connections w' = connections w /\
    exists evs, log w' = log w ++ evs /\ Forall isPreparation evs.
Proof.
  intros request w res w' H Hm.
  destruct (rejected_for_content _ _ _ _ H (or_intror Hm)) as (Hdb & Hc & Hl & Hcase).
  unfold contentOf in Hcase.
  destruct (givenTemplateId request) as [id|].
  - destruct (head _) as [template|] eqn:Hhead; [|subst res; discriminate].
    destruct Hcase as (Hh & Ht & ->). split; [reflexivity|]. split; [|auto].
    apply head_filter in Hhead as (pre & post & Htab & Hidt & _).
    exists template. split; [rewrite Htab; apply in_or_app; right; now left|].
    split; [now apply Z.eqb_eq|].
    split; eapply processTemplate_empty, truthy_false; eassumption.
  - destruct Hcase as (Hh & Ht & ->). split; [reflexivity|]. split; [|auto].
    split; now apply truthy_false.
Qed.

(** When a request names a template, its own html and text are not looked
    at: the send goes the same way whatever they are. *)
Theorem template_overrides_inline_content :
  forall (request : SendEmailRequest) (id : Z) (html_ text_ : option string) (w : World),
    givenTemplateId request = Some id ->
    processEmailSend (withContent html_ text_ request) w = processEmailSend request w.
Proof.
  intros request id html_ text_ w Hid.
  assert (Hid' : givenTemplateId (withContent html_ text_ request) = Some id) by exact Hid.
  unfold processEmailSend, processEmailSendBody, afterCompliance.
  rewrite Hid, Hid'. reflexivity.
Qed.

Lemma createEmail_fields insertEmail w record w1 :
  Storage.createEmail insertEmail w = (Returned record, w1) ->
  Email.to record = Storage.to insertEmail /\
  Email.from record = Storage.from insertEmail /\
  Email.subject record = Storage.subject insertEmail /\
  Email.templateId record = Storage.templateId insertEmail /\
  Email.smtpProviderId record = Storage.smtpProviderId insertEmail /\
  Email.region record = Storage.region insertEmail /\
  Email.sentAt record = now w /\
  smtpProviders (db w1) = smtpProviders (db w) /\
  templates (db w1) = templates (db w).
Proof.
  unfold Storage.createEmail. intros H.
  apply bind_inv in H as [(fp & w2 & H1 & H)|(e & _ & He)]; [|discriminate].
  inversion H1; subst fp w2. clear H1.
  apply bind_inv in H as [(u & w3 & H1 & H)|(e & _ & He)]; [|discriminate].
  apply io_inv in H1 as [-> _]. cbv [bind get modifyDb ret] in H.
  inversion H; subst record w1. simpl. repeat split; reflexivity.
Qed.

Lemma updateEmailStatus_log id status w o w1 :
  Storage.updateEmailStatus id status w = (o, w1) ->
  log w1 = log w ++ [DbUpdateEmailStatus id status] /\ connections w1 = connections w.
Proof.
  unfold Storage.updateEmailStatus. intros H.
  apply bind_inv in H as [(u & w3 & H1 & H)|(e & H1 & ->)].
  - apply io_inv in H1 as [-> _]. cbv [bind get modifyDb ret] in H.
    inversion H; subst o w1. simpl. auto.
  - apply io_inv in H1 as [-> _]. simpl. auto.
Qed.

Lemma setStatus_sent at_ e : Email.status e = "sent" -> Storage.setStatus "sent" at_ e = e.
Proof. destruct e. simpl. intros ->. reflexivity. Qed.

(** When [processEmailSend] reports success, the email is on record and
    the message has gone out, once. The record has the id and the tracking
    id of the answer, the addresses and the subject of the request, the
    status [sent], and the provider that the message went through, which is
    an active provider. The body that went out is the content of the request
    (the rendered template if it names one) with the tracking of that
    tracking id injected. The record was inserted before the hand-over. *)
Theorem successful_send_is_recorded :
  forall (request : SendEmailRequest) (w : World) (res : SendEmailResponse) (w' : World),
    processEmailSend request w = (Returned res, w') ->
    success res = true ->
    exists record provider html_ text_ before after,
      res = {| success := true; emailId := Some (Email.id record);
               trackingId := Some (Email.trackingId record);
               message := "Email sent successfully"; error := None |} /\
      In record (emails (db w')) /\
      Email.id record = emailsIdSeq (db w) /\
      Email.status record = "sent" /\
      Email.to record = to request /\ Email.from record = from request /\
      Email.subject record = subject request /\
      Email.smtpProviderId record = Some (SmtpProvider.id provider) /\
      In provider (smtpProviders (db w)) /\ SmtpProvider.isActive provider = true /\
      contentOf (objectPrototype (env w)) (templates (db w)) request = Some (html_, text_) /\
      log w' = log w ++ before
                     ++ [SmtpSendMail (SmtpProvider.id provider)
                           (SmtpRouter.injectTracking (SmtpRouter.hostName (env w))
                              (Email.trackingId record)
                              (orElse html_ "<p>This email does not have HTML content</p>"))]
                     ++ after /\
      In (DbCreateEmail (Email.trackingId record)) before /\
      Forall (fun e => ~ isHandOver e) (before ++ after).
Proof.
  intros request w res w' H Hs.
  apply processEmailSend_returned in H
    as (w1 & ([He1 (evs1 & Hl1 & Hf1)] & Hdb1 & Hc1) & [(r & -> & _)|[(c & ->)|H]]);
    [discriminate Hs | discriminate Hs |].
  apply afterCompliance_returned in H
    as (w3 & Hdb3 & Hc3 & He3 & _ & (evs3 & Hl3 & Hf3) & H).
  rewrite He1, Hdb1 in H.
  destruct (contentOf _ _ _) as [[html_ text_]|] eqn:Hcontent;
    [|destruct H as [_ ->]; discriminate Hs].
  destruct (negb (truthy html_) && negb (truthy text_));
    [destruct H as [_ ->]; discriminate Hs|].
  destruct H as (found & w4 & H4 & H).
  pose proof (getSmtpProvider_select _ _ _ _ _ H4) as Hsel4.
  pose proof (getSmtpProvider_sameClock _ _ _ _ _ H4) as [_ He4].
  pose proof (getSmtpProvider_quiet _ _ _ _ _ H4) as ([_ (evs4 & Hl4 & Hf4)] & Hdb4 & Hc4).
  destruct found as [provider|]; [|destruct H as [_ ->]; discriminate Hs].
  apply recordAndSend_returned in H
    as (record & w5 & sendResult & w6 & updated & Hcreate & Hsend & Hupd & ->).
  destruct (SmtpRouter.success sendResult) eqn:Hok; [|discriminate Hs].
  pose proof (createEmail_fields _ _ _ _ Hcreate)
    as (Hto & Hfrom & Hsubject & _ & Hpid & _ & _ & Hprov5 & _).
  apply createEmail_run in Hcreate
    as (Hl5 & He5 & Hc5 & Hst & Hid & Htid & _ & _ & Hem5).
  destruct (sendEmail_success_run _ _ _ _ Hsend Hok)
    as (provider' & sent & acq & metrics & Hsel6 & _ & _ & _ & -> & Hl6 & Hf6 & Hfm & _ & Hem6).
  apply updateEmailStatus_run in Hupd as Hem7.
  pose proof (updateEmailStatus_log _ _ _ _ _ Hupd) as [Hl7 _].
  cbn [Storage.to Storage.from Storage.subject Storage.smtpProviderId Storage.trackingId
       insertOf SmtpRouter.to SmtpRouter.volume SmtpRouter.html SmtpRouter.trackingId
       optionsOf] in *.
  assert (provider' = provider).
  { rewrite Hprov5, Hdb4 in Hsel6. rewrite <- Hsel4 in Hsel6. now injection Hsel6. }
  subst provider'.
  destruct (select_active _ _ _ _ (eq_sym Hsel4)) as [Hin Hact].
  exists record, provider, html_, text_,
    (evs1 ++ evs3 ++ evs4 ++ [DbCreateEmail (Email.trackingId record)] ++ acq),
    (metrics ++ [DbUpdateEmailStatus (Email.id record) "sent"]).
  split; [rewrite Htid; reflexivity|].
  split.
  { rewrite Hem7, Hem6, Hem5. apply in_map_iff. exists record. split.
    - rewrite Z.eqb_refl. now apply setStatus_sent.
    - apply in_or_app. right. now left. }
  split; [rewrite Hid, Hdb4, Hdb3, Hdb1; reflexivity|].
  split; [exact Hst|]. split; [exact Hto|]. split; [exact Hfrom|].
  split; [exact Hsubject|]. split; [exact Hpid|].
  split; [rewrite <- Hdb1, <- Hdb3; exact Hin|]. split; [exact Hact|].
  split; [reflexivity|].
  split.
  { rewrite Hl7, Hl6, Hl5, Hl4, Hl3, Hl1, Htid, He5, He4, He3, He1.
    rewrite <- !List.app_assoc. reflexivity. }
  split.
  { rewrite Htid. apply in_or_app. right. apply in_or_app. right.
    apply in_or_app. right. now left. }
  rewrite !Forall_app. repeat split.
  - eapply List.Forall_impl; [|exact Hf1]. intros e; destruct e; simpl; tauto.
  - eapply List.Forall_impl; [|exact Hf3]. intros e; destruct e; simpl; tauto.
  - eapply List.Forall_impl; [|exact Hf4]. intros e; destruct e; simpl; tauto.
  - repeat constructor. exact id.
  - eapply List.Forall_impl; [|exact Hf6]. intros e; destruct e; simpl; tauto.
  - eapply List.Forall_impl; [|exact Hfm]. intros e; destruct e; simpl; tauto.
  - repeat constructor. exact id.
Qed.

Lemma unknown_template_is_rejected_witness :
  let request := Scenarios.withTemplateId 42 Scenarios.bare in
  let w := Examples.start Examples.calm in
  let w' := snd (processEmailSend request w) in
  exists id,
    templateId request = Some id /\ id <> 0 /\
    (forall t, In t (templates (db w)) -> Template.id t <> id) /\
    fst (processEmailSend request w)
    = Returned (failure "Template not found"
                  ("Template with ID " +:+ pretty_id id +:+ " does not exist")) /\
    db w' = db w /\ connections w' = connections w.
Proof.
  cbv zeta.
  set (request := Scenarios.withTemplateId 42 Scenarios.bare).
  set (w := Examples.start Examples.calm).
  assert (Ho : fst (processEmailSend request w)
               = Returned (Scenarios.valueOf Scenarios.noResponse
                             (fst (processEmailSend request w))))
    by (vm_compute; reflexivity).
  destruct (unknown_template_is_rejected request w
              (Scenarios.valueOf Scenarios.noResponse (fst (processEmailSend request w)))
              (snd (processEmailSend request w)))
    as (id & Hid & Hne & Hnone & Hres & Hdb & Hc & _).
  - rewrite <- Ho. destruct (processEmailSend request w); reflexivity.
  - vm_compute. reflexivity.
  - exists id. rewrite Ho, Hres.
    split; [exact Hid|]. split; [exact Hne|]. split; [exact Hnone|].
    split; [reflexivity|]. split; [exact Hdb|exact Hc].
Defined.

Lemma missing_content_is_rejected_witness :
  let w := Examples.start Examples.calm in
  let w' := snd (processEmailSend Scenarios.bare w) in
  fst (processEmailSend Scenarios.bare w)
  = Returned (failure "Email content is required"
                "Either html, text, or templateId must be provided") /\
  db w' = db w /\ connections w' = connections w.
Proof.
  cbv zeta.
  set (w := Examples.start Examples.calm).
  assert (Ho : fst (processEmailSend Scenarios.bare w)
               = Returned (Scenarios.valueOf Scenarios.noResponse
                             (fst (processEmailSend Scenarios.bare w))))
    by (vm_compute; reflexivity).
  destruct (missing_content_is_rejected Scenarios.bare w
              (Scenarios.valueOf Scenarios.noResponse
                 (fst (processEmailSend Scenarios.bare w)))
              (snd (processEmailSend Scenarios.bare w)))
    as (Hres & _ & Hdb & Hc & _).
  - rewrite <- Ho. destruct (processEmailSend Scenarios.bare w); reflexivity.
  - vm_compute. reflexivity.
  - rewrite Ho, Hres. split; [reflexivity|]. split; [exact Hdb|exact Hc].
Defined.

Lemma template_overrides_inline_content_witness :
  processEmailSend
    (withContent (Some "<p>Sale!</p>") (Some "Sale!") (Examples.request "ada@example.com"))
    (Examples.start Examples.calm)
  = processEmailSend (Examples.request "ada@example.com") (Examples.start Examples.calm).
Proof.
  apply (template_overrides_inline_content (Examples.request "ada@example.com") 1).
  reflexivity.
Defined.

Lemma successful_send_is_recorded_witness :
  let request := Examples.request "ada@example.com" in
  let w := Examples.start Examples.calm in
  let w' := snd (processEmailSend request w) in
  exists record provider,
    fst (processEmailSend request w)
    = Returned {| success := true; emailId := Some (Email.id record);
                  trackingId := Some (Email.trackingId record);
                  message := "Email sent successfully"; error := None |} /\
    In record (emails (db w')) /\
    Email.id record = emailsIdSeq (db w) /\
    Email.status record = "sent" /\
    Email.to record = "ada@example.com" /\
    Email.smtpProviderId record = Some (SmtpProvider.id provider) /\
    In provider (smtpProviders (db w)) /\ SmtpProvider.isActive provider = true.
Proof.
  cbv zeta.
  set (request := Examples.request "ada@example.com").
  set (w := Examples.start Examples.calm).
  assert (Ho : fst (processEmailSend request w)
               = Returned (Scenarios.valueOf Scenarios.noResponse
                             (fst (processEmailSend request w))))
    by (vm_compute; reflexivity).
  destruct (successful_send_is_recorded request w
              (Scenarios.valueOf Scenarios.noResponse (fst (processEmailSend request w)))
              (snd (processEmailSend request w)))
    as (record & provider & h & t & before & after & Hres & Hin & Hid & Hst & Hto & _ & _
        & Hp & Hpin & Hact & _).
  - rewrite <- Ho. destruct (processEmailSend request w); reflexivity.
  - vm_compute. reflexivity.
  - exists record, provider. rewrite Ho, Hres.
    split; [reflexivity|]. split; [exact Hin|]. split; [exact Hid|].
    split; [exact Hst|]. split; [exact Hto|]. split; [exact Hp|].
    split; [exact Hpin|exact Hact].
Defined.

End PipelineFacts.

Module OpenFacts.
Import JsString Async Trace AsyncSpec TraceSpec TrackingService SendSpec SendFacts SortFacts ListFacts.

Lemma getEmailByTrackingId_run trackingId w o w' :
  Storage.getEmailByTrackingId trackingId w = (o, w') ->
  w' = withTick (S (tick w)) (withLog (log w ++ [DbGetEmailByTrackingId trackingId]) w) /\
  match o with
  | Returned found =>
      found = head (List.filter (fun e => String.eqb (Email.trackingId e) trackingId)
                                (emails (db w)))
  | Thrown cause => fault (env w) (tick w) = Some cause
  end.
Proof.
  unfold Storage.getEmailByTrackingId. intros H.
  apply bind_inv in H as [(u & w1 & H1 & H)|(e & H1 & ->)].
  - apply io_inv in H1 as [-> _]. cbv [bind get ret] in H. inversion H; subst. auto.
  - apply io_inv in H1 as [-> Hf]. split; [reflexivity|].
    destruct (fault (env w) (tick w)); congruence.
Qed.

(** What the guarded update has done when it returns. *)
Lemma updateEmailTracking_returned trackingId type w updated w' :
  Storage.updateEmailTracking trackingId type w = (Returned updated, w') ->
  let stamp := match type with
               | Storage.opened => Storage.setOpenedAt (now w)
               | Storage.clicked => Storage.setClickedAt (now w)
               end in
  emails (db w')
  = map (fun e => if Storage.untracked trackingId type e then stamp e else e)
        (emails (db w)) /\
  updated = head (map stamp (List.filter (Storage.untracked trackingId type)
                                         (emails (db w)))) /\
  systemMetrics (db w') = systemMetrics (db w) /\
  env w' = env w /\ now w' = now w /\
  match updated with
  | Some row =>
      exists fingerprint,
        emailTrackingEvents (db w')
        = emailTrackingEvents (db w)
          ++ [{| TrackingEvent.emailId := Email.id row;
                 TrackingEvent.trackingId := trackingId;
                 TrackingEvent.eventType := Storage.typeName type;
                 TrackingEvent.rotatingFingerprint := fingerprint |}]
  | None => emailTrackingEvents (db w') = emailTrackingEvents (db w)
  end.
Proof.
  unfold Storage.updateEmailTracking. intros H.
  apply bind_inv in H as [(at_ & w0 & H0 & H)|(e & _ & He)]; [|discriminate].
  inversion H0; subst at_ w0. clear H0.
  apply bind_inv in H as [(u & w1 & H1 & H)|(e & _ & He)]; [|discriminate].
  apply io_inv in H1 as [-> _].
  apply bind_inv in H as [(rows & w2 & H2 & H)|(e & _ & He)]; [|discriminate].
  inversion H2; subst rows w2. clear H2. cbn [db withTick withLog] in H.
  apply bind_inv in H as [(u2 & w3 & H3 & H)|(e & _ & He)]; [|discriminate].
  inversion H3; subst u2 w3. clear H3.
  destruct (head _) as [row|] eqn:Hhead.
  - apply bind_inv in H as [(u4 & w4 & H4 & H)|(e & _ & He)]; [|discriminate].
    inversion H; subst updated w'. clear H.
    unfold Storage.logTrackingEvent in H4.
    apply bind_inv in H4 as [(fp & w5 & H5 & H4)|(e & _ & He)]; [|discriminate].
    inversion H5; subst fp w5. clear H5.
    apply bind_inv in H4 as [(u6 & w6 & H6 & H4)|(e & _ & He)]; [|discriminate].
    apply io_inv in H6 as [-> _]. inversion H4; subst w4. clear H4.
    cbn. repeat split; try reflexivity. eexists. reflexivity.
  - inversion H; subst updated w'. cbn. repeat split; reflexivity.
Qed.

(** The first open of an email: when [trackEmailOpen] answers with a
    success that was not tracked before, the record of the tracking id had
    no time of opening and has the time of the call now, one tracking event
    [opened] for that email was appended, and one metric [email_opened] for
    its region. *)
Theorem first_open_is_recorded :
  forall (trackingId : string) (w : World) (r : OpenResult) (w' : World),
    trackEmailOpen trackingId w = (Returned r, w') ->
    success r = true -> alreadyTracked r = false ->
    exists email fingerprint,
      head (List.filter (fun e => String.eqb (Email.trackingId e) trackingId)
                        (emails (db w))) = Some email /\
      Email.openedAt email = None /\
      emailId r = Some (Email.id email) /\
      emails (db w')
      = map (fun e => if Storage.untracked trackingId Storage.opened e
                      then Storage.setOpenedAt (now w) e else e) (emails (db w)) /\
      In (Storage.setOpenedAt (now w) email) (emails (db w')) /\
      emailTrackingEvents (db w')
      = emailTrackingEvents (db w)
        ++ [{| TrackingEvent.emailId := Email.id email;
               TrackingEvent.trackingId := trackingId;
               TrackingEvent.eventType := "opened";
               TrackingEvent.rotatingFingerprint := fingerprint |}] /\
      systemMetrics (db w')
      = systemMetrics (db w) ++ [SmtpRouter.metric "email_opened" "1" (Email.region email)].
Proof.
  intros trackingId w r w' H Hs Ha. unfold trackEmailOpen in H.
  apply tryCatch_inv in H as [(a & Hbody & E)|(e & w1 & _ & Hh)].
  2:{ inversion Hh; subst r. discriminate Hs. }
  injection E as <-.
  apply bind_inv in Hbody as [(found & w1 & H1 & Hbody)|(e & _ & He)]; [|discriminate].
  apply getEmailByTrackingId_run in H1 as [-> ->].
  destruct (head _) as [email|] eqn:Hhead; [|inversion Hbody; subst r; discriminate Hs].
  destruct (Email.openedAt email) as [t|] eqn:Hopened; cbn [isSome] in Hbody;
    [inversion Hbody; subst r; discriminate Ha|].
  apply bind_inv in Hbody as [(updated & w2 & H2 & Hbody)|(e & _ & He)]; [|discriminate].
  apply updateEmailTracking_returned in H2 as (Hem & Hu & Hsm & He2 & Hn2 & Hev).
  cbn [db now env withTick withLog] in *.
  assert (Hrow : head (List.filter (Storage.untracked trackingId Storage.opened)
                                   (emails (db w))) = Some email).
  { apply (head_filter_refine _ _ _ _ Hhead).
    - unfold Storage.untracked. rewrite Hopened.
      apply head_filter in Hhead as (_ & _ & _ & -> & _). reflexivity.
    - intros y Hy. unfold Storage.untracked in Hy. now apply andb_true_iff in Hy as [Hy _]. }
  destruct (List.filter (Storage.untracked trackingId Storage.opened) (emails (db w)))
    as [|first rest] eqn:Hfilter; [discriminate|].
  injection Hrow as ->. cbn [map head] in Hu. subst updated.
  destruct Hev as (fingerprint & Hev).
  apply bind_inv in Hbody as [(m & w3 & H3 & Hbody)|(e & _ & He)]; [|discriminate].
  apply createSystemMetric_run in H3 as (_ & _ & _ & _ & Hem3 & _ & Hev3 & Hsm3).
  inversion Hbody; subst r w'. clear Hbody.
  exists email, fingerprint. split; [reflexivity|]. split; [exact Hopened|].
  split; [reflexivity|]. split; [congruence|].
  split.
  { rewrite Hem3, Hem. apply in_map_iff. exists email. split.
    - assert (Hin : In email (List.filter (Storage.untracked trackingId Storage.opened)
                                (emails (db w)))) by (rewrite Hfilter; now left).
      apply filter_In in Hin as [_ ->]. reflexivity.
    - assert (Hin : In email (List.filter (Storage.untracked trackingId Storage.opened)
                                (emails (db w)))) by (rewrite Hfilter; now left).
      now apply filter_In in Hin as [Hin _]. }
  split; [rewrite Hev3, Hev; reflexivity|].
  rewrite Hsm3, Hsm. reflexivity.
Qed.

Lemma trackEmailOpen_returns trackingId : returns (trackEmailOpen trackingId).
Proof.
  unfold trackEmailOpen. apply returns_tryCatch. intros e.
  apply returns_bind; [apply returns_note | intros _; apply returns_ret].
Qed.


Lemma updateEmailTracking_ticks trackingId type w o w' :
  Storage.updateEmailTracking trackingId type w = (o, w') ->
  match o with
  | Returned (Some _) => tick w' = S (S (S (tick w)))
  | Returned None => tick w' = S (tick w)
  | Thrown cause =>
      fault (env w) (tick w) = Some cause \/ fault (env w) (S (S (tick w))) = Some cause
  end.
Proof.
  unfold Storage.updateEmailTracking. intros H.
  apply bind_inv in H as [(at_ & w0 & H0 & H)|(e & H0 & _)]; [|inversion H0].
  inversion H0; subst at_ w0. clear H0.
  apply bind_inv in H as [(u & w1 & H1 & H)|(e & H1 & ->)].
  2:{ apply io_inv in H1 as [_ Hf]. left. destruct (fault (env w) (tick w)); congruence. }
  apply io_inv in H1 as [-> _].
  apply bind_inv in H as [(rows & w2 & H2 & H)|(e & H2 & _)]; [|inversion H2].
  inversion H2; subst rows w2. clear H2. cbn [db withTick withLog] in H.
  apply bind_inv in H as [(u2 & w3 & H3 & H)|(e & H3 & _)]; [|inversion H3].
  inversion H3; subst u2 w3. clear H3.
  destruct (head _) as [row|].
  - apply bind_inv in H as [(u4 & w4 & H4 & H)|(e & H4 & ->)].
    + inversion H; subst o w'. clear H. unfold Storage.logTrackingEvent in H4.
      apply bind_inv in H4 as [(fp & w5 & H5 & H4)|(e & _ & He)]; [|discriminate].
      inversion H5; subst fp w5. clear H5.
      apply bind_inv in H4 as [(u6 & w6 & H6 & H4)|(e & _ & He)]; [|discriminate].
      apply io_inv in H6 as [-> _]. inversion H4; subst w4. reflexivity.
    + right. unfold Storage.logTrackingEvent in H4.
      apply bind_inv in H4 as [(fp & w5 & H5 & H4)|(e' & H5 & _)]; [|inversion H5].
      inversion H5; subst fp w5. clear H5.
      apply bind_inv in H4 as [(u6 & w6 & H6 & H4)|(e' & H6 & E)]; [inversion H4|].
      injection E as <-. apply io_inv in H6 as [_ Hf].
      cbn [env tick withTick withLog withDb] in Hf.
      destruct (fault (env w) (S (S (tick w)))); congruence.
  - inversion H; subst o w'. reflexivity.
Qed.

(** The answer of [trackEmailOpen] can say less than what happened. The
    metric is written inside the [try] block: when the open of an email is
    recorded and the write of the metric fails, the answer is
    [success: false], and the time of opening is on record all the same. *)
Theorem open_recorded_but_reported_failed :
  forall (trackingId : string) (w : World) (email : Email.t) (cause : string),
    head (List.filter (fun e => String.eqb (Email.trackingId e) trackingId)
                      (emails (db w))) = Some email ->
    Email.openedAt email = None ->
    fault (env w) (tick w) = None ->
    fault (env w) (S (tick w)) = None ->
    fault (env w) (S (S (S (tick w)))) = None ->
    fault (env w) (S (S (S (S (tick w))))) = Some cause ->
    exists w',
      trackEmailOpen trackingId w
      = (Returned {| success := false; alreadyTracked := false; emailId := None |}, w') /\
      In (Storage.setOpenedAt (now w) email) (emails (db w')) /\
      In (ConsoleError "Email open tracking error:" cause) (log w').
Proof.
  intros trackingId w email cause Hhead Hopened F0 F1 F3 F4.
  unfold trackEmailOpen, tryCatch, bind at 1.
  destruct (Storage.getEmailByTrackingId trackingId w) as [o1 w1] eqn:H1.
  apply getEmailByTrackingId_run in H1 as [-> H1].
  destruct o1 as [found|c]; [subst found|congruence]. rewrite Hhead, Hopened.
  cbn [isSome]. unfold bind at 1.
  match goal with |- context [Storage.updateEmailTracking ?t ?ty ?w1] =>
    set (w1_ := w1); destruct (Storage.updateEmailTracking t ty w1_) as [o2 w2] eqn:H2 end.
  pose proof (updateEmailTracking_ticks _ _ _ _ _ H2) as Ht.
  destruct o2 as [updated|c].
  2:{ exfalso. cbn [env tick w1_ withTick withLog] in Ht. destruct Ht; congruence. }
  apply updateEmailTracking_returned in H2 as (Hem & Hu & _ & He2 & _ & _).
  cbn [db now env tick w1_ withTick withLog] in *.
  assert (Hrow : head (List.filter (Storage.untracked trackingId Storage.opened)
                                   (emails (db w))) = Some email).
  { apply (head_filter_refine _ _ _ _ Hhead).
    - unfold Storage.untracked. rewrite Hopened.
      apply head_filter in Hhead as (_ & _ & _ & -> & _). reflexivity.
    - intros y Hy. unfold Storage.untracked in Hy. now apply andb_true_iff in Hy as [Hy _]. }
  assert (Hin : In email (List.filter (Storage.untracked trackingId Storage.opened)
                                      (emails (db w)))) by now apply head_In.
  apply filter_In in Hin as [Hin Hun].
  destruct (List.filter (Storage.untracked trackingId Storage.opened) (emails (db w)))
    as [|first rest]; [discriminate|]. cbn [map head] in Hu. subst updated.
  unfold bind. unfold Storage.createSystemMetric at 1. unfold bind at 1.
  rewrite io_fails with (cause := cause) by (rewrite He2, Ht; exact F4).
  unfold consoleError, note, ret. eexists. split; [reflexivity|].
  cbn [db log withTick withLog]. split.
  - rewrite Hem. apply in_map_iff. exists email. now rewrite Hun.
  - apply in_or_app. right. now left.
Qed.


Lemma first_open_is_recorded_witness :
  let w := withNow 1745014090754 Examples.sent in
  let w' := snd (trackEmailOpen Scenarios.adaTrackingId w) in
  exists email fingerprint,
    head (List.filter (fun e => String.eqb (Email.trackingId e) Scenarios.adaTrackingId)
                      (emails (db w))) = Some email /\
    Email.openedAt email = None /\
    In (Storage.setOpenedAt 1745014090754 email) (emails (db w')) /\
    emailTrackingEvents (db w')
    = emailTrackingEvents (db w)
      ++ [{| TrackingEvent.emailId := Email.id email;
             TrackingEvent.trackingId := Scenarios.adaTrackingId;
             TrackingEvent.eventType := "opened";
             TrackingEvent.rotatingFingerprint := fingerprint |}].
Proof.
  cbv zeta.
  set (w := withNow 1745014090754 Examples.sent).
  destruct (first_open_is_recorded Scenarios.adaTrackingId w
              (Scenarios.valueOf {| success := false; alreadyTracked := false;
                                    emailId := None |}
                 (fst (trackEmailOpen Scenarios.adaTrackingId w)))
              (snd (trackEmailOpen Scenarios.adaTrackingId w)))
    as (email & fingerprint & Hhead & Hopen & _ & _ & Hin & Hev & _).
  - vm_compute. reflexivity.
  - vm_compute. reflexivity.
  - vm_compute. reflexivity.
  - exists email, fingerprint.
    split; [exact Hhead|]. split; [exact Hopen|]. split; [exact Hin|exact Hev].
Defined.

Lemma open_recorded_but_reported_failed_witness :
  let w := Scenarios.sentUnder (Scenarios.failingAt 4 "too many connections") in
  exists email w',
    trackEmailOpen Scenarios.adaTrackingId w
    = (Returned {| success := false; alreadyTracked := false; emailId := None |}, w') /\
    In (Storage.setOpenedAt (now w) email) (emails (db w')) /\
    In (ConsoleError "Email open tracking error:" "too many connections") (log w').
Proof.
  cbv zeta.
  set (w := Scenarios.sentUnder (Scenarios.failingAt 4 "too many connections")).
  destruct (Scenarios.valueOf None
              (fst (Storage.getEmailByTrackingId Scenarios.adaTrackingId w)))
    as [email|] eqn:He; [|vm_compute in He; discriminate He].
  destruct (open_recorded_but_reported_failed Scenarios.adaTrackingId w email
              "too many connections") as (w' & H).
  - vm_compute in He. injection He as <-. vm_compute. reflexivity.
  - vm_compute in He. injection He as <-. reflexivity.
  - reflexivity.
  - reflexivity.
  - reflexivity.
  - reflexivity.
  - exists email, w'. exact H.
Defined.


End OpenFacts.

Module AdminFacts.
Import JsString Async Trace AsyncSpec TraceSpec SortFacts StorageAdmin ServiceResult.
Import ComplianceSpec ComplianceFacts ListFacts.

Lemma statement_run w o w' :
  statement w = (o, w') ->
  w' = withTick (S (tick w)) w /\
  match fault (env w) (tick w) with
  | Some cause => o = Thrown cause
  | None => o = Returned tt
  end.
Proof.
  unfold statement. intros H. inversion H; subst. split; [reflexivity|].
  now destruct (fault (env w) (tick w)).
Qed.

Lemma getBlockedRegion_run id w o w' :
  getBlockedRegion id w = (o, w') ->
  db w' = db w /\ connections w' = connections w /\ log w' = log w /\
  match o with
  | Returned found =>
      found = head (List.filter (fun r => BlockedRegion.id r =? id) (blockedRegions (db w)))
  | Thrown cause => fault (env w) (tick w) = Some cause
  end.
Proof.
  unfold getBlockedRegion. intros H.
  apply bind_inv in H as [(u & w1 & H1 & H)|(e & H1 & ->)];
    apply statement_run in H1 as [-> Hf].
  - cbv [bind get ret] in H. inversion H; subst. repeat split; reflexivity.
  - destruct (fault (env w) (tick w)); [|discriminate]. inversion Hf; subst.
    repeat split; reflexivity.
Qed.

Lemma updateSmtpProvider_run id isActive w o w' :
  updateSmtpProvider id isActive w = (o, w') ->
  blockedRegions (db w') = blockedRegions (db w) /\ emails (db w') = emails (db w) /\
  templates (db w') = templates (db w) /\
  connections w' = connections w /\ log w' = log w /\
  match o with
  | Returned updated =>
      smtpProviders (db w')
      = map (fun p => if SmtpProvider.id p =? id then setIsActive isActive p else p)
            (smtpProviders (db w)) /\
      updated = head (map (setIsActive isActive)
                        (List.filter (fun p => SmtpProvider.id p =? id)
                                     (smtpProviders (db w))))
  | Thrown cause => db w' = db w /\ fault (env w) (tick w) = Some cause
  end.
Proof.
  unfold updateSmtpProvider. intros H.
  apply bind_inv in H as [(u & w1 & H1 & H)|(e & H1 & ->)];
    apply statement_run in H1 as [-> Hf].
  - cbv [bind get modifyDb ret] in H. inversion H; subst. cbn.
    repeat split; try reflexivity.
    now rewrite (filter_map_same_key SmtpProvider.id id (setIsActive isActive)).
  - destruct (fault (env w) (tick w)); [|discriminate]. inversion Hf; subst.
    repeat split; reflexivity.
Qed.

(** [updateBlockedRegionStatus] does not update a blocked region. It looks
    the region up, and then sets the flag of the SMTP provider that has the
    same id. The table of blocked regions is never changed: a region that is
    deactivated in this way stays blocked, a later compliance lookup finds
    what it found before. A success means that a blocked region and a
    provider with this id both exist, and that the provider now has the
    flag; without a success the providers are as they were. *)
Theorem updateBlockedRegionStatus_updates_a_provider :
  forall (id : Z) (isActive : bool) (w : World) (o : Outcome ServiceResult.t) (w' : World),
    ComplianceAdmin.updateBlockedRegionStatus id isActive w = (o, w') ->
    exists res,
      o = Returned res /\
      blockedRegions (db w') = blockedRegions (db w) /\
      (forall code w2 found w2',
         db w2 = db w' ->
         Storage.getBlockedRegionByCode code w2 = (Returned found, w2') ->
         found = head (List.filter (fun r => String.eqb (BlockedRegion.regionCode r) code
                                            && BlockedRegion.isActive r)
                                   (blockedRegions (db w)))) /\
      (success res = true ->
         (exists region, In region (blockedRegions (db w)) /\ BlockedRegion.id region = id) /\
         (exists provider, In provider (smtpProviders (db w)) /\
                           SmtpProvider.id provider = id) /\
         smtpProviders (db w')
         = map (fun p => if SmtpProvider.id p =? id then setIsActive isActive p else p)
               (smtpProviders (db w)) /\
         message res = "Region " +:+ (if isActive then "activated" else "deactivated")
                       +:+ " successfully") /\
      (success res = false -> smtpProviders (db w') = smtpProviders (db w)).
Proof.
  intros id isActive w o w' H. unfold ComplianceAdmin.updateBlockedRegionStatus in H.
  assert (Hlookups : blockedRegions (db w') = blockedRegions (db w) ->
            forall code w2 found w2',
              db w2 = db w' ->
              Storage.getBlockedRegionByCode code w2 = (Returned found, w2') ->
              found = head (List.filter (fun r => String.eqb (BlockedRegion.regionCode r) code
                                                 && BlockedRegion.isActive r)
                                        (blockedRegions (db w)))).
  { intros Hb code w2 found w2' Hd2 H2.
    apply getBlockedRegionByCode_returned in H2. now rewrite H2, Hd2, Hb. }
  assert (Hgoal : exists res, o = Returned res /\
            blockedRegions (db w') = blockedRegions (db w) /\
            (success res = true ->
               (exists region, In region (blockedRegions (db w)) /\
                               BlockedRegion.id region = id) /\
               (exists provider, In provider (smtpProviders (db w)) /\
                                 SmtpProvider.id provider = id) /\
               smtpProviders (db w')
               = map (fun p => if SmtpProvider.id p =? id then setIsActive isActive p else p)
                     (smtpProviders (db w)) /\
               message res = "Region " +:+ (if isActive then "activated" else "deactivated")
                             +:+ " successfully") /\
            (success res = false -> smtpProviders (db w') = smtpProviders (db w))).
  { apply tryCatch_inv in H as [(a & Hbody & ->)|(e & w1 & Hbody & Hh)].
    - exists a. split; [reflexivity|].
      apply bind_inv in Hbody as [(existing & w1 & H1 & Hbody)|(e & _ & He)];
        [|discriminate].
      apply getBlockedRegion_run in H1 as (Hdb1 & _ & _ & ->).
      destruct (head _) as [region|] eqn:Hregion.
      + apply bind_inv in Hbody as [(updated & w2 & H2 & Hbody)|(e & _ & He)];
          [|discriminate].
        apply updateSmtpProvider_run in H2 as (Hb & _ & _ & _ & _ & Hp & ->).
        rewrite Hdb1 in *.
        destruct (List.filter (fun p => SmtpProvider.id p =? id) (smtpProviders (db w)))
          as [|provider rest] eqn:Hf; cbn [map head] in Hbody;
          inversion Hbody; subst a w'; clear Hbody.
        * split; [exact Hb|]. split; [discriminate|]. intros _.
          rewrite Hp. now apply map_unmatched.
        * split; [exact Hb|]. split; [|discriminate]. intros _.
          apply head_filter in Hregion as (pre & post & Hl & Hid & _).
          split; [exists region; split;
                  [rewrite Hl; apply in_or_app; right; now left | now apply Z.eqb_eq]|].
          assert (Hin : In provider (List.filter (fun p => SmtpProvider.id p =? id)
                                       (smtpProviders (db w)))) by (rewrite Hf; now left).
          apply filter_In in Hin as [Hin Hpid].
          split; [exists provider; split; [exact Hin | now apply Z.eqb_eq]|].
          split; [exact Hp | reflexivity].
      + inversion Hbody; subst a w'. split; [now rewrite Hdb1|].
        split; [discriminate|]. intros _. now rewrite Hdb1.
    - inversion Hh; subst o w'. clear Hh. eexists. split; [reflexivity|].
      cbn [db withLog success].
      assert (Hdb : db w1 = db w).
      { apply bind_inv in Hbody as [(existing & w2 & H1 & Hbody)|(e' & H1 & _)].
        - apply getBlockedRegion_run in H1 as (Hdb1 & _ & _ & ->).
          destruct (head _) as [region|].
          + apply bind_inv in Hbody as [(updated & w3 & H2 & Hbody)|(e' & H2 & _)].
            * destruct updated; inversion Hbody.
            * apply updateSmtpProvider_run in H2 as (_ & _ & _ & _ & _ & Hd & _).
              congruence.
          + inversion Hbody.
        - now apply getBlockedRegion_run in H1 as (Hdb1 & _). }
      rewrite Hdb. split; [reflexivity|]. split; [discriminate | reflexivity]. }
  destruct Hgoal as (res & Ho & Hb & Hs & Hf). exists res.
  split; [exact Ho|]. split; [exact Hb|]. split; [exact (Hlookups Hb)|].
  split; assumption.
Qed.

(** The compliance check by region code always answers, and it changes
    nothing. It allows a code only when the lookup went through and no row
    of that code is active; when the lookup goes through, it answers with
    the first active row of that code, or allows the code when there is
    none. *)
Theorem compliance_check_allows_only_unblocked :
  forall (code : string) (w : World),
    exists res w',
      ComplianceService.checkRegionCompliance code w = (Returned res, w') /\
      db w' = db w /\ connections w' = connections w /\
      (ComplianceService.allowed res = true ->
       fault (env w) (tick w) = None /\
       forall r, In r (blockedRegions (db w)) ->
                 BlockedRegion.regionCode r = code -> BlockedRegion.isActive r = false) /\
      (fault (env w) (tick w) = None ->
       res = match head (List.filter (fun r => String.eqb (BlockedRegion.regionCode r) code
                                               && BlockedRegion.isActive r)
                                     (blockedRegions (db w))) with
             | Some r =>
                 {| ComplianceService.allowed := false;
                    ComplianceService.region :=
                      Some {| ComplianceService.code := code;
                              ComplianceService.reason := BlockedRegion.reason r |} |}
             | None => {| ComplianceService.allowed := true;
                          ComplianceService.region := None |}
             end).
Proof.
  intros code w. unfold ComplianceService.checkRegionCompliance, tryCatch, bind.
  destruct (Storage.getBlockedRegionByCode code w) as [[found|cause] w1] eqn:H1.
  - pose proof (getBlockedRegionByCode_quiet code _ _ _ H1) as (_ & Hdb & Hc).
    assert (Hok : fault (env w) (tick w) = None).
    { unfold Storage.getBlockedRegionByCode in H1. run_inv H1. assumption. }
    apply getBlockedRegionByCode_returned in H1. subst found.
    destruct (head _) as [r|] eqn:Hhead.
    + apply head_filter in Hhead as (pre & post & Hl & Hr & _).
      apply andb_true_iff in Hr as [Hcode Hact]. apply String.eqb_eq in Hcode.
      rewrite Hact, Hcode. eexists _, w1. split; [reflexivity|].
      split; [exact Hdb|]. split; [exact Hc|]. split; [discriminate | reflexivity].
    + eexists _, w1. split; [reflexivity|]. split; [exact Hdb|]. split; [exact Hc|].
      split; [|reflexivity]. intros _. split; [exact Hok|]. intros r Hin Hcode.
      destruct (List.filter _ (blockedRegions (db w))) eqn:Hf; [|discriminate].
      pose proof (filter_nil_inv _ _ Hf r Hin) as Hr. simpl in Hr.
      rewrite Hcode, String.eqb_refl in Hr. exact Hr.
  - pose proof (getBlockedRegionByCode_quiet code _ _ _ H1) as (_ & Hdb & Hc).
    apply getBlockedRegionByCode_thrown in H1.
    eexists _, _. split; [reflexivity|]. cbn [db connections withLog].
    split; [exact Hdb|]. split; [exact Hc|]. split; [discriminate | congruence].
Qed.

Lemma updateBlockedRegionStatus_updates_a_provider_witness :
  let w := Examples.start Examples.calm in
  let run := ComplianceAdmin.updateBlockedRegionStatus 2 false w in
  fst run = Returned (mk true "Region deactivated successfully" None) /\
  blockedRegions (db (snd run)) = blockedRegions (db w) /\
  smtpProviders (db (snd run))
  = map (fun p => if SmtpProvider.id p =? 2 then setIsActive false p else p)
        (smtpProviders (db w)).
Proof.
  cbv zeta.
  set (w := Examples.start Examples.calm).
  set (run := ComplianceAdmin.updateBlockedRegionStatus 2 false w).
  destruct (updateBlockedRegionStatus_updates_a_provider 2 false w (fst run) (snd run))
    as (res & Ho & Hb & _ & Hsuccess & _).
  - apply surjective_pairing.
  - split; [vm_compute; reflexivity|]. split; [exact Hb|].
    assert (Hres : res = mk true "Region deactivated successfully" None).
    { vm_compute in Ho. injection Ho as <-. reflexivity. }
    destruct Hsuccess as (_ & _ & Hp & _); [rewrite Hres; reflexivity|exact Hp].
Defined.

End AdminFacts.

Module TemplateServiceFacts.
Import JsString Async Trace AsyncSpec TraceSpec SortFacts StorageAdmin ServiceResult.
Import AdminFacts PipelineFacts ListFacts TemplateService.

Lemma includes_In l v : TemplateService.includes l v = true <-> In v l.
Proof.
  unfold TemplateService.includes. rewrite existsb_exists. split.
  - intros (x & Hx & E). apply String.eqb_eq in E. now subst.
  - intros H. exists v. split; [exact H | apply String.eqb_refl].
Qed.

(** No variable is missing exactly when every variable of the html body is
    a variable of the text body. *)
Lemma missingVariables_nil html text :
  missingVariables html text = [] <->
  forall v, In v (variablesIn html) -> In v (variablesIn text).
Proof.
  unfold missingVariables. split.
  - intros H v Hv. pose proof (filter_nil_inv _ _ H v Hv) as Hn. simpl in Hn.
    apply negb_false_iff in Hn. now apply includes_In.
  - intros H. apply filter_none. intros v Hv. apply negb_false_iff.
    apply includes_In. now apply H.
Qed.

Lemma updateTemplate_run id request w o w' :
  StorageAdmin.updateTemplate id request w = (o, w') ->
  match o with
  | Returned updated =>
      templates (db w')
      = map (fun t => if Template.id t =? id then patch request t else t)
            (templates (db w)) /\
      updated = head (map (patch request)
                        (List.filter (fun t => Template.id t =? id) (templates (db w)))) /\
      fault (env w) (tick w) = None
  | Thrown cause => db w' = db w /\ fault (env w) (tick w) = Some cause
  end.
Proof.
  unfold StorageAdmin.updateTemplate. intros H.
  apply bind_inv in H as [(u & w1 & H1 & H)|(e & H1 & ->)];
    apply statement_run in H1 as [-> Hf].
  - cbv [bind get modifyDb ret] in H. inversion H; subst. cbn.
    split; [reflexivity|]. split.
    + now rewrite (filter_map_same_key Template.id id (patch request)).
    + destruct (fault (env w) (tick w)); [discriminate | reflexivity].
  - destruct (fault (env w) (tick w)); [|discriminate]. inversion Hf; subst.
    split; reflexivity.
Qed.

Lemma bothGiven_Some x y html text :
  bothGiven x y = Some (html, text) ->
  x = Some html /\ y = Some text /\ html <> "" /\ text <> "".
Proof.
  unfold bothGiven. destruct x as [a|], y as [b|]; try discriminate.
  destruct a, b; simpl; try discriminate. intros H. inversion H; subst.
  repeat split; discriminate.
Qed.

Lemma bothGiven_intro html text :
  html <> "" -> text <> "" -> bothGiven (Some html) (Some text) = Some (html, text).
Proof. destruct html, text; simpl; intros H1 H2; congruence. Qed.

(** The tail of [updateTemplate]: the update itself and its answer. *)
Lemma update_tail id request w o w' :
  (updatedTemplate <- StorageAdmin.updateTemplate id request ;;
   match updatedTemplate with
   | None => ret (mk false "Failed to update template"
                    (Some "Database update operation failed"))
   | Some _ => ret (mk true "Template updated successfully" None)
   end) w = (o, w') ->
  match o with
  | Returned res =>
      templates (db w')
      = map (fun t => if Template.id t =? id then patch request t else t)
            (templates (db w)) /\
      (success res = true ->
       exists t, In t (templates (db w)) /\ Template.id t = id) /\
      (success res = false -> templates (db w') = templates (db w)) /\
      message res <> "HTML and text template versions have mismatched variables"
  | Thrown cause => db w' = db w
  end.
Proof.
  intros H. apply bind_inv in H as [(updated & w1 & H1 & H)|(e & H1 & ->)].
  - apply updateTemplate_run in H1 as (Ht & -> & _).
    destruct (List.filter (fun t => Template.id t =? id) (templates (db w)))
      as [|t rest] eqn:Hf; cbn [map head] in H; inversion H; subst o w'.
    + split; [exact Ht|]. split; [discriminate|]. split; [|discriminate].
      intros _. rewrite Ht. now apply map_unmatched.
    + split; [exact Ht|]. split; [|split; discriminate]. intros _.
      assert (Hin : In t (List.filter (fun t => Template.id t =? id) (templates (db w))))
        by (rewrite Hf; now left).
      apply filter_In in Hin as [Hin Hid]. exists t. split; [exact Hin | now apply Z.eqb_eq].
  - now apply updateTemplate_run in H1 as [Hdb _].
Qed.

(** [updateTemplate] always answers. When the request gives both bodies
    (and neither is empty), the update goes through only if every variable
    of the html body is a variable of the text body; the answer
    [mismatched variables] names the missing ones and nothing is written.
    A success means that the template exists and that the given columns
    were written. *)
Theorem updateTemplate_checks_variables :
  forall (id : Z) (request : UpdateTemplateRequest) (w : World)
         (o : Outcome ServiceResult.t) (w' : World),
    TemplateService.updateTemplate id request w = (o, w') ->
    exists res,
      o = Returned res /\
      (message res = "HTML and text template versions have mismatched variables" ->
       exists html text v,
         htmlContent request = Some html /\ textContent request = Some text /\
         html <> "" /\ text <> "" /\
         In v (variablesIn html) /\ ~ In v (variablesIn text) /\
         res = mk false "HTML and text template versions have mismatched variables"
                 (Some ("Variables found in HTML but not in text: "
                        +:+ join ", " (missingVariables html text))) /\
         db w' = db w) /\
      (success res = true ->
       (exists t, In t (templates (db w)) /\ Template.id t = id) /\
       templates (db w')
       = map (fun t => if Template.id t =? id then patch request t else t)
             (templates (db w)) /\
       forall html text,
         htmlContent request = Some html -> textContent request = Some text ->
         html <> "" -> text <> "" ->
         forall v, In v (variablesIn html) -> In v (variablesIn text)) /\
      (success res = false -> templates (db w') = templates (db w)).
Proof.
  intros id request w o w' H. unfold TemplateService.updateTemplate in H.
  apply tryCatch_inv in H as [(a & Hbody & ->)|(e & w1 & Hbody & Hh)].
  - exists a. split; [reflexivity|].
    apply bind_inv in Hbody as [(existing & w1 & H1 & Hbody)|(e & _ & He)]; [|discriminate].
    apply getTemplate_run in H1 as [-> ->]. cbv zeta in Hbody.
    destruct (head _) as [existing|].
    2:{ inversion Hbody; subst a w'. split; [discriminate|]. split; [discriminate|].
        reflexivity. }
    destruct (bothGiven _ _) as [[html text]|] eqn:Hboth.
    + destruct (0 <? length (missingVariables html text))%nat eqn:Hmiss.
      * inversion Hbody; subst a w'. clear Hbody.
        apply bothGiven_Some in Hboth as (Hh & Ht & Hnh & Hnt).
        split; [|split; [discriminate | reflexivity]]. intros _.
        destruct (missingVariables html text) as [|v rest] eqn:Hm; [discriminate|].
        assert (Hv : In v (missingVariables html text)) by (rewrite Hm; now left).
        unfold missingVariables in Hv. apply filter_In in Hv as [Hv Hn].
        apply negb_true_iff in Hn.
        exists html, text, v.
        split; [exact Hh|]. split; [exact Ht|]. split; [exact Hnh|]. split; [exact Hnt|].
        split; [exact Hv|].
        split; [intros Hin; apply includes_In in Hin; congruence|].
        split; [now rewrite Hm | reflexivity].
      * apply update_tail in Hbody as (Ht & Hs & Hf & Hm).
        cbn [db templates withTick withLog] in *.
        split; [intros E; contradiction|]. split; [|exact Hf]. intros Hok.
        split; [exact (Hs Hok)|]. split; [exact Ht|].
        intros html' text' Hh' Ht' Hnh Hnt.
        apply bothGiven_Some in Hboth as (Hh & Ht2 & _ & _).
        assert (html' = html) by congruence. assert (text' = text) by congruence.
        subst html' text'. apply missingVariables_nil.
        destruct (missingVariables html text); [reflexivity | discriminate].
    + apply update_tail in Hbody as (Ht & Hs & Hf & Hm).
      cbn [db templates withTick withLog] in *.
      split; [intros E; contradiction|]. split; [|exact Hf]. intros Hok.
      split; [exact (Hs Hok)|]. split; [exact Ht|].
      intros html text Hh Ht' Hnh Hnt. rewrite Hh, Ht' in Hboth.
      rewrite bothGiven_intro in Hboth by assumption. discriminate.
  - inversion Hh; subst o w'. clear Hh. eexists. split; [reflexivity|].
    cbn [db withLog success message].
    split; [discriminate|]. split; [discriminate|]. intros _.
    apply bind_inv in Hbody as [(existing & w2 & H1 & Hbody)|(e' & H1 & _)].
    + apply getTemplate_run in H1 as [-> ->]. cbv zeta in Hbody.
      destruct (head _) as [existing|]; [|inversion Hbody].
      destruct (bothGiven _ _) as [[html text]|];
        [destruct (0 <? length _)%nat; [inversion Hbody|]|];
        apply update_tail in Hbody; cbn [db withTick withLog] in Hbody; congruence.
    + now apply getTemplate_run in H1 as [-> _].
Qed.

(** A request that gives one of the two bodies only is not checked at all:
    when the template exists and the database answers, the update goes
    through whatever variables the one body has. *)
Theorem partial_update_is_not_checked :
  forall (id : Z) (request : UpdateTemplateRequest) (w : World) (template : Template.t),
    bothGiven (htmlContent request) (textContent request) = None ->
    head (List.filter (fun t => Template.id t =? id) (templates (db w))) = Some template ->
    fault (env w) (tick w) = None ->
    fault (env w) (S (tick w)) = None ->
    exists w',
      TemplateService.updateTemplate id request w
      = (Returned (mk true "Template updated successfully" None), w') /\
      templates (db w')
      = map (fun t => if Template.id t =? id then patch request t else t)
            (templates (db w)) /\
      In (patch request template) (templates (db w')).
Proof.
  intros id request w template Hnone Hhead F0 F1.
  pose proof (head_In _ _ Hhead) as Hin. apply filter_In in Hin as [Hin Hid].
  destruct (TemplateService.updateTemplate id request w) as [o w'] eqn:H.
  exists w'. unfold TemplateService.updateTemplate in H.
  assert (Hbody : forall o1 w1,
            (existingTemplate <- Storage.getTemplate id ;;
             match existingTemplate with
             | None =>
                 ret (mk false "Template not found"
                        (Some ("Template with ID " +:+ EmailService.pretty_id id
                               +:+ " does not exist")))
             | Some _ =>
                 let update :=
                   updatedTemplate <- StorageAdmin.updateTemplate id request ;;
                   match updatedTemplate with
                   | None =>
                       ret (mk false "Failed to update template"
                              (Some "Database update operation failed"))
                   | Some _ => ret (mk true "Template updated successfully" None)
                   end in
                 match bothGiven (htmlContent request) (textContent request) with
                 | Some (html, text) =>
                     let missing := missingVariables html text in
                     if (0 <? length missing)%nat then
                       ret (mk false
                              "HTML and text template versions have mismatched variables"
                              (Some ("Variables found in HTML but not in text: "
                                     +:+ join ", " missing)))
                     else update
                 | None => update
                 end
             end) w = (o1, w1) ->
            o1 = Returned (mk true "Template updated successfully" None) /\
            templates (db w1)
            = map (fun t => if Template.id t =? id then patch request t else t)
                  (templates (db w))).
  { intros o1 w1 Hrun.
    apply bind_inv in Hrun as [(existing & w2 & H1 & Hrun)|(e & H1 & _)].
    2:{ apply getTemplate_run in H1 as [_ H1]. congruence. }
    apply getTemplate_run in H1 as [-> ->]. rewrite Hhead, Hnone in Hrun. cbv zeta in Hrun.
    apply bind_inv in Hrun as [(updated & w3 & H2 & Hrun)|(e & H2 & _)].
    2:{ apply updateTemplate_run in H2 as [_ H2].
        cbn [env tick withTick withLog] in H2. congruence. }
    apply updateTemplate_run in H2 as (Ht & -> & _). cbn [db withTick withLog] in Ht, Hrun.
    destruct (List.filter (fun t => Template.id t =? id) (templates (db w)));
      [discriminate|].
    cbn [map head] in Hrun. cbv [ret] in Hrun. injection Hrun as <- <-.
    split; [reflexivity | exact Ht]. }
  apply tryCatch_inv in H as [(a & Hrun & ->)|(e & w1 & Hrun & _)];
    apply Hbody in Hrun as [Ho Ht]; [|discriminate].
  split; [congruence|]. split; [exact Ht|].
  rewrite Ht. apply in_map_iff. exists template. now rewrite Hid.
Qed.

Lemma updateTemplate_checks_variables_witness :
  let w := Examples.start Examples.calm in
  let request := {| name := None; subject := None;
                    htmlContent := Some "<p>{{name}}, your code is {{ code }}</p>";
                    textContent := Some "{{name}}" |} in
  let run := TemplateService.updateTemplate 1 request w in
  fst run
  = Returned (mk false "HTML and text template versions have mismatched variables"
                (Some "Variables found in HTML but not in text: code")) /\
  templates (db (snd run)) = templates (db w).
Proof.
  cbv zeta.
  set (w := Examples.start Examples.calm).
  set (request := {| name := None; subject := None;
                     htmlContent := Some "<p>{{name}}, your code is {{ code }}</p>";
                     textContent := Some "{{name}}" |}).
  set (run := TemplateService.updateTemplate 1 request w).
  destruct (updateTemplate_checks_variables 1 request w (fst run) (snd run))
    as (res & Ho & _ & _ & Hfailure).
  - apply surjective_pairing.
  - split; [vm_compute; reflexivity|].
    apply Hfailure. vm_compute in Ho. injection Ho as <-. reflexivity.
Defined.

Lemma partial_update_is_not_checked_witness :
  let w := Examples.start Examples.calm in
  let request := {| name := None; subject := None;
                    htmlContent := Some "<p>{{name}}, your code is {{ code }}</p>";
                    textContent := None |} in
  exists w',
    TemplateService.updateTemplate 1 request w
    = (Returned (mk true "Template updated successfully" None), w') /\
    In (patch request Examples.welcome) (templates (db w')).
Proof.
  cbv zeta.
  destruct (partial_update_is_not_checked 1
              {| name := None; subject := None;
                 htmlContent := Some "<p>{{name}}, your code is {{ code }}</p>";
                 textContent := None |}
              (Examples.start Examples.calm) Examples.welcome)
    as (w' & Hrun & _ & Hin).
  - reflexivity.
  - reflexivity.
  - reflexivity.
  - reflexivity.
  - exists w'. split; [exact Hrun|exact Hin].
Defined.

End TemplateServiceFacts.

Module StatisticsFacts.
Import JsString Async Trace AsyncSpec TraceSpec SortFacts ListFacts StorageAdmin AdminFacts.
Import TrackingService TrackingStatistics DeliveryFacts StatisticsSpec.

Lemma insertSorted_Permutation {A} (compare : A -> A -> Z) x l :
  Permutation (insertSorted compare x l) (x :: l).
Proof.
  induction l as [|y l IH]; simpl; [reflexivity|].
  destruct (compare x y <=? 0); [reflexivity|].
  rewrite IH. apply perm_swap.
Qed.

(** Sorting rearranges. *)
Lemma sort_Permutation {A} (compare : A -> A -> Z) l : Permutation (sort compare l) l.
Proof.
  induction l as [|x l IH]; simpl; [reflexivity|].
  rewrite insertSorted_Permutation. now constructor.
Qed.

Lemma count_Permutation {A} (f : A -> bool) l l' :
  Permutation l l' -> count f l = count f l'.
Proof.
  unfold count. intros H. f_equal.
  induction H as [|x l l' H IH|x y l|l l' l'' H1 IH1 H2 IH2]; simpl.
  - reflexivity.
  - destruct (f x); simpl; now rewrite IH.
  - destruct (f x), (f y); reflexivity.
  - congruence.
Qed.

Lemma count_bounds {A} (f : A -> bool) l : 0 <= count f l <= Z.of_nat (length l).
Proof.
  unfold count. split; [lia|]. apply Nat2Z.inj_le. induction l as [|x l IH]; simpl; [lia|].
  destruct (f x); simpl; lia.
Qed.

Lemma count_le {A} (f g : A -> bool) l :
  (forall x, In x l -> f x = true -> g x = true) -> count f l <= count g l.
Proof.
  unfold count. intros H. apply Nat2Z.inj_le. induction l as [|x l IH]; simpl; [lia|].
  assert (IH' : (length (List.filter f l) <= length (List.filter g l))%nat).
  { apply IH. intros y Hy. apply H. now right. }
  destruct (f x) eqn:Hf.
  - rewrite (H x (or_introl eq_refl) Hf). simpl. lia.
  - destruct (g x); simpl; lia.
Qed.

Lemma getEmails_run limit offset w o w' :
  getEmails limit offset w = (o, w') ->
  db w' = db w /\ connections w' = connections w /\ log w' = log w /\
  match o with
  | Returned rows =>
      0 <= limit /\ 0 <= offset /\
      rows = firstn (Z.to_nat limit)
               (skipn (Z.to_nat offset)
                  (sort (fun a b => Email.sentAt b - Email.sentAt a) (emails (db w))))
  | Thrown cause =>
      fault (env w) (tick w) = Some cause \/ limit < 0 \/ offset < 0
  end.
Proof.
  unfold getEmails. intros H.
  apply bind_inv in H as [(u & w1 & H1 & H)|(e & H1 & ->)];
    apply statement_run in H1 as [-> Hf].
  - destruct (limit <? 0) eqn:Hl; [|destruct (offset <? 0) eqn:Ho].
    + inversion H; subst. apply Z.ltb_lt in Hl. repeat split; auto.
    + inversion H; subst. apply Z.ltb_lt in Ho. repeat split; auto.
    + cbv [bind get ret] in H. inversion H; subst.
      apply Z.ltb_ge in Hl, Ho. repeat split; auto.
  - destruct (fault (env w) (tick w)); [|discriminate]. inversion Hf; subst.
    repeat split; auto.
Qed.

(** The tracking statistics are counts over the thousand emails sent last
    (over all of them, when there are no more than a thousand). The opened
    and the clicked are among the sent. No rate divides by zero: a rate is
    zero when its base is, and the quotient of two counts otherwise. The
    open rate and the click rate are at most 100 per cent; the click-through
    rate is, provided that every email that was clicked was opened. *)
Theorem tracking_statistics_are_counts :
  forall (w : World) (s : Statistics) (w' : World),
    getTrackingStatistics w = (Returned s, w') ->
    db w' = db w /\
    0 <= totalOpened s <= totalSent s /\
    0 <= totalClicked s <= totalSent s /\
    totalSent s <= 1000 /\
    openRate s = (if totalSent s =? 0 then Zero
                  else Percent (totalOpened s) (totalSent s)) /\
    clickRate s = (if totalSent s =? 0 then Zero
                   else Percent (totalClicked s) (totalSent s)) /\
    clickThroughRate s = (if totalOpened s =? 0 then Zero
                          else Percent (totalClicked s) (totalOpened s)) /\
    ((length (emails (db w)) <= 1000)%nat ->
     totalSent s = Z.of_nat (length (emails (db w))) /\
     totalOpened s = count (fun e => isSome (Email.openedAt e)) (emails (db w)) /\
     totalClicked s = count (fun e => isSome (Email.clickedAt e)) (emails (db w))) /\
    ((forall e, In e (emails (db w)) ->
        isSome (Email.clickedAt e) = true -> isSome (Email.openedAt e) = true) ->
     totalClicked s <= totalOpened s).
Proof.
  intros w s w' H. unfold getTrackingStatistics in H.
  apply bind_inv in H as [(rows & w1 & H1 & H)|(e & _ & He)]; [|discriminate].
  apply getEmails_run in H1 as (Hdb & _ & _ & _ & _ & Hrows).
  inversion H; subst s w'. clear H. cbn.
  set (sorted := sort (fun a b => Email.sentAt b - Email.sentAt a) (emails (db w))) in *.
  change (skipn (Z.to_nat 0) sorted) with sorted in Hrows.
  assert (Hlen : (length rows <= 1000)%nat).
  { rewrite Hrows, length_firstn. change (Z.to_nat 1000) with 1000%nat. lia. }
  pose proof (count_bounds (fun e => isSome (Email.openedAt e)) rows) as Ho.
  pose proof (count_bounds (fun e => isSome (Email.clickedAt e)) rows) as Hc.
  assert (Hgt : forall n, 0 <= n -> (n >? 0) = negb (n =? 0)).
  { intros n Hn. destruct (n =? 0) eqn:E.
    - apply Z.eqb_eq in E. subst. reflexivity.
    - apply Z.eqb_neq in E. simpl. apply Z.gtb_lt. lia. }
  split; [exact Hdb|]. split; [exact Ho|]. split; [exact Hc|]. split; [lia|].
  rewrite !Hgt by lia.
  split; [now destruct (_ =? 0)|]. split; [now destruct (_ =? 0)|].
  split; [now destruct (_ =? 0)|].
  split.
  - intros Hsmall.
    assert (Hall : rows = sorted).
    { rewrite Hrows. apply firstn_all2. unfold sorted.
      rewrite (Permutation_length (sort_Permutation _ _)).
      change (Z.to_nat 1000) with 1000%nat. lia. }
    rewrite Hall. unfold sorted.
    rewrite (Permutation_length (sort_Permutation _ _)).
    split; [reflexivity|]. split; apply count_Permutation, sort_Permutation.
  - intros Himp. apply count_le. intros e He. apply Himp.
    rewrite Hrows in He. apply In_firstn in He.
    unfold sorted in He. now apply (Permutation_in _ (sort_Permutation _ _)) in He.
Qed.

Lemma setStatus_keeps_delivery status at_ e :
  Email.id (Storage.setStatus status at_ e) = Email.id e /\
  (isSome (Email.deliveredAt e) = true ->
   isSome (Email.deliveredAt (Storage.setStatus status at_ e)) = true).
Proof.
  split; [reflexivity|]. simpl. now destruct (String.eqb status "delivered").
Qed.

Lemma updateEmailStatus_deliveredAll id id' status w o w' :
  Storage.updateEmailStatus id' status w = (o, w') ->
  deliveredAll id (emails (db w)) -> deliveredAll id (emails (db w')).
Proof.
  intros H Hinv. apply updateEmailStatus_run in H. destruct o as [u|cause].
  - rewrite H. intros e He Hid. apply in_map_iff in He as (e0 & <- & He0).
    destruct (Email.id e0 =? id'); [|now apply Hinv].
    destruct (setStatus_keeps_delivery status (now w) e0) as [Hk Hd].
    apply Hd, Hinv; [exact He0 | congruence].
  - now rewrite H.
Qed.

Lemma apply_deliveredAll id updates :
  forall w, deliveredAll id (emails (db w)) ->
            deliveredAll id (emails (db (StatusProcess.apply updates w))).
Proof.
  induction updates as [|[[at_ id'] status] rest IH]; intros w Hinv; [exact Hinv|].
  cbn [StatusProcess.apply]. apply IH.
  destruct (Storage.updateEmailStatus id' status (withNow at_ w)) as [o w1] eqn:H.
  exact (updateEmailStatus_deliveredAll _ _ _ _ _ _ H Hinv).
Qed.

(** Once the status of an email was set to [delivered], its statistics say
    [delivered] for good: the time of delivery is never cleared, whatever
    status is written afterwards, [failed] included. *)
Theorem delivered_is_never_taken_back :
  forall (id : Z) (w : World) (updated : Email.t) (w1 : World)
         (updates : list (Z * Z * string)) (stats : EmailStats) (w3 : World),
    Storage.updateEmailStatus id "delivered" w = (Returned (Some updated), w1) ->
    getEmailTrackingStats id (StatusProcess.apply updates w1) = (Returned stats, w3) ->
    delivered stats = true /\ isSome (deliveredAt stats) = true /\ emailId stats = id.
Proof.
  intros id w updated w1 updates stats w3 H1 H2.
  assert (Hinv : deliveredAll id (emails (db w1))).
  { apply updateEmailStatus_run in H1. rewrite H1. intros e He Hid.
    apply in_map_iff in He as (e0 & <- & He0).
    destruct (Email.id e0 =? id) eqn:E; [reflexivity|].
    apply Z.eqb_neq in E. contradiction. }
  apply (apply_deliveredAll id updates) in Hinv.
  unfold getEmailTrackingStats in H2.
  apply bind_inv in H2 as [(found & w2 & Hget & H2)|(e & _ & He)]; [|discriminate].
  unfold getEmail in Hget.
  apply bind_inv in Hget as [(u & w4 & Hs & Hget)|(e & _ & He)]; [|discriminate].
  apply statement_run in Hs as [-> _]. cbv [bind get ret] in Hget.
  inversion Hget; subst found w2. clear Hget. cbn [db withTick] in H2.
  destruct (head _) as [email|] eqn:Hhead; [|discriminate].
  inversion H2; subst stats w3. clear H2. cbn.
  apply head_filter in Hhead as (pre & post & Hl & Hid & _). apply Z.eqb_eq in Hid.
  assert (Hd : isSome (Email.deliveredAt email) = true).
  { apply Hinv; [rewrite Hl; apply in_or_app; right; now left | exact Hid]. }
  rewrite Hd. split; [apply orb_true_r|]. split; [reflexivity | exact Hid].
Qed.

Lemma tracking_statistics_are_counts_witness :
  let w := Examples.opened in
  let s := Scenarios.valueOf (Build_Statistics 0 0 0 Zero Zero Zero)
             (fst (getTrackingStatistics w)) in
  totalSent s = 1 /\ totalOpened s = 1 /\ totalClicked s = 0 /\
  openRate s = Percent 1 1 /\ clickRate s = Percent 0 1 /\
  clickThroughRate s = Percent 0 1.
Proof.
  cbv zeta.
  set (w := Examples.opened).
  set (s := Scenarios.valueOf (Build_Statistics 0 0 0 Zero Zero Zero)
              (fst (getTrackingStatistics w))).
  destruct (tracking_statistics_are_counts w s (snd (getTrackingStatistics w)))
    as (_ & _ & _ & _ & Hopen & Hclick & Hthrough & Hcounts & _).
  - vm_compute. reflexivity.
  - destruct Hcounts as (Hsent & Hopened & Hclicked); [vm_compute; lia|].
    assert (H1 : totalSent s = 1) by (rewrite Hsent; vm_compute; reflexivity).
    assert (H2 : totalOpened s = 1) by (rewrite Hopened; vm_compute; reflexivity).
    assert (H3 : totalClicked s = 0) by (rewrite Hclicked; vm_compute; reflexivity).
    rewrite Hopen, Hclick, Hthrough, H1, H2, H3. repeat split; reflexivity.
Defined.

Lemma delivered_is_never_taken_back_witness :
  let w1 := snd (Storage.updateEmailStatus 1 "delivered"
                   (withNow 1745014090754 Examples.sent)) in
  let w2 := StatusProcess.apply [(1745014099999, 1, "bounced")] w1 in
  let stats := Scenarios.valueOf (Build_EmailStats 0 false false false false 0 None None None)
                 (fst (getEmailTrackingStats 1 w2)) in
  delivered stats = true /\ isSome (deliveredAt stats) = true /\ emailId stats = 1.
Proof.
  cbv zeta.
  set (w := withNow 1745014090754 Examples.sent).
  set (w1 := snd (Storage.updateEmailStatus 1 "delivered" w)).
  set (w2 := StatusProcess.apply [(1745014099999, 1, "bounced")] w1).
  destruct (Scenarios.valueOf None (fst (Storage.updateEmailStatus 1 "delivered" w)))
    as [updated|] eqn:Hu; [|vm_compute in Hu; discriminate Hu].
  apply (delivered_is_never_taken_back 1 w updated w1 [(1745014099999, 1, "bounced")]
           _ (snd (getEmailTrackingStats 1 w2))).
  - vm_compute in Hu. injection Hu as <-. vm_compute. reflexivity.
  - vm_compute. reflexivity.
Defined.

End StatisticsFacts.

Module JsMapFacts.
Import MemStorageSpec ListFacts.

Section Table.
Context {V : Type}.
Implicit Types (m : JsMap.t V) (k : Z) (v : V).

Lemma has_keys k m : JsMap.has k m = true <-> In k (keys m).
Proof.
  unfold JsMap.has, keys. rewrite existsb_exists, in_map_iff. split.
  - intros (kv & Hin & Heq). exists kv. split; [lia|exact Hin].
  - intros (kv & Heq & Hin). exists kv. split; [exact Hin|lia].
Qed.

Lemma has_false k m : JsMap.has k m = false <-> ~ In k (keys m).
Proof. rewrite <- has_keys. destruct (JsMap.has k m); split; congruence. Qed.

Lemma get_none k m : JsMap.get k m = None <-> ~ In k (keys m).
Proof.
  unfold JsMap.get, keys. induction m as [|[k' v'] m IH]; cbn.
  - tauto.
  - destruct (k' =? k) eqn:E.
    + split; [discriminate|]. intros H. exfalso. apply H. left. lia.
    + rewrite IH. split; [intros H [H'|H']; [lia|tauto]|tauto].
Qed.

Lemma get_has k m : JsMap.has k m = TrackingService.isSome (JsMap.get k m).
Proof.
  destruct (JsMap.get k m) eqn:E; cbn.
  - apply has_keys. destruct (in_dec Z.eq_dec k (keys m)) as [H|H]; [exact H|].
    apply get_none in H. congruence.
  - apply has_false, get_none, E.
Qed.

Lemma get_In k v m : JsMap.get k m = Some v -> In (k, v) m.
Proof.
  unfold JsMap.get. destruct (List.find _ m) as [[k' v']|] eqn:E; [|discriminate].
  intros [= <-]. apply find_some in E as [Hin Hk]. cbn in Hk.
  assert (k' = k) by lia. subst. exact Hin.
Qed.

Lemma In_get k v m : List.NoDup (keys m) -> In (k, v) m -> JsMap.get k m = Some v.
Proof.
  unfold JsMap.get, keys. induction m as [|[k' v'] m IH]; cbn; [tauto|].
  intros Hnd [H|H].
  - injection H as -> ->. rewrite Z.eqb_refl. reflexivity.
  - inversion Hnd as [|? ? Hnot Hnd']; subst.
    destruct (k' =? k) eqn:E.
    + exfalso. apply Hnot. assert (k' = k) by lia. subst.
      apply in_map_iff. exists (k, v). split; [reflexivity|exact H].
    + apply IH; assumption.
Qed.

Lemma keys_set k v m :
  keys (JsMap.set k v m) = if JsMap.has k m then keys m else keys m ++ [k].
Proof.
  unfold JsMap.set, keys. destruct (JsMap.has k m).
  - rewrite map_map. apply map_ext_in. intros [k' v'] _. cbn.
    destruct (k' =? k) eqn:E; cbn; lia.
  - rewrite map_app. reflexivity.
Qed.

Lemma get_set_eq k v m : JsMap.get k (JsMap.set k v m) = Some v.
Proof.
  unfold JsMap.set. destruct (JsMap.has k m) eqn:Hhas.
  - unfold JsMap.get, JsMap.has in *. induction m as [|[k' v'] m IH]; cbn in *.
    + discriminate.
    + destruct (k' =? k) eqn:E; cbn.
      * rewrite Z.eqb_refl. reflexivity.
      * rewrite E. apply IH. exact Hhas.
  - apply has_false, get_none in Hhas. unfold JsMap.get in *.
    induction m as [|[k' v'] m IH]; cbn in *.
    + rewrite Z.eqb_refl. reflexivity.
    + destruct (k' =? k) eqn:E; [discriminate|]. apply IH. exact Hhas.
Qed.

Lemma get_set_ne k k' v m : k' <> k -> JsMap.get k' (JsMap.set k v m) = JsMap.get k' m.
Proof.
  intros Hne. unfold JsMap.set. destruct (JsMap.has k m).
  - unfold JsMap.get. induction m as [|[k1 v1] m IH]; cbn; [reflexivity|].
    destruct (k1 =? k) eqn:E; cbn.
    + assert (k1 = k) by lia. subst.
      destruct (k =? k') eqn:E'; [lia|]. exact IH.
    + destruct (k1 =? k'); [reflexivity|exact IH].
  - unfold JsMap.get. induction m as [|[k1 v1] m IH]; cbn.
    + destruct (k =? k') eqn:E'; [lia|reflexivity].
    + destruct (k1 =? k'); [reflexivity|exact IH].
Qed.

Lemma keys_delete k m : keys (snd (JsMap.delete k m)) = List.filter (fun x => negb (x =? k)) (keys m).
Proof.
  unfold JsMap.delete, keys. cbn. induction m as [|[k' v'] m IH]; cbn; [reflexivity|].
  destruct (k' =? k); cbn; [exact IH|now rewrite IH].
Qed.

Lemma get_delete_eq k m : JsMap.get k (snd (JsMap.delete k m)) = None.
Proof.
  apply get_none. rewrite keys_delete, filter_In. intros [_ H].
  rewrite Z.eqb_refl in H. discriminate.
Qed.

Lemma get_delete_ne k k' m : k' <> k -> JsMap.get k' (snd (JsMap.delete k m)) = JsMap.get k' m.
Proof.
  intros Hne. unfold JsMap.delete, JsMap.get. cbn.
  induction m as [|[k1 v1] m IH]; cbn; [reflexivity|].
  destruct (k1 =? k) eqn:E; cbn.
  - destruct (k1 =? k') eqn:E'; [lia|exact IH].
  - destruct (k1 =? k'); [reflexivity|exact IH].
Qed.

Lemma In_delete kv k m : In kv (snd (JsMap.delete k m)) -> In kv m.
Proof. unfold JsMap.delete. cbn. rewrite filter_In. tauto. Qed.

Lemma In_set kv k v m : In kv (JsMap.set k v m) -> kv = (k, v) \/ In kv m.
Proof.
  unfold JsMap.set. destruct (JsMap.has k m).
  - rewrite in_map_iff. intros ([k' v'] & Heq & Hin). cbn in Heq.
    destruct (k' =? k); [left|right]; congruence.
  - rewrite in_app_iff. cbn. intros [H|[H|[]]]; [right|left]; auto.
Qed.

Variable idOf : V -> Z.

Lemma tableOk_nil counter : 0 < counter -> tableOk idOf counter [].
Proof. intros H. split; [exact H|]. split; constructor. Qed.

Lemma tableOk_mono counter counter' m :
  counter <= counter' -> tableOk idOf counter m -> tableOk idOf counter' m.
Proof.
  intros Hle (Hpos & Hnd & Hall). split; [lia|]. split; [exact Hnd|].
  eapply List.Forall_impl; [|exact Hall]. cbn. intros kv [H1 H2]. split; [exact H1|lia].
Qed.

Lemma tableOk_fresh counter m : tableOk idOf counter m -> JsMap.get counter m = None.
Proof.
  intros (_ & _ & Hall). apply get_none. unfold keys. rewrite in_map_iff.
  intros (kv & Heq & Hin). rewrite List.Forall_forall in Hall. apply Hall in Hin. lia.
Qed.

Lemma NoDup_snoc (l : list Z) x : List.NoDup l -> ~ In x l -> List.NoDup (l ++ [x]).
Proof.
  induction l as [|y l IH]; cbn; intros Hnd Hnot.
  - constructor; [tauto|constructor].
  - inversion Hnd; subst. constructor.
    + rewrite in_app_iff. cbn. intros [H|[H|[]]]; [tauto|]. subst. tauto.
    + apply IH; tauto.
Qed.

(** [set] with a key that is positive and below the counter. *)
Lemma tableOk_set counter m k v :
  tableOk idOf counter m -> idOf v = k -> 0 < k < counter ->
  tableOk idOf counter (JsMap.set k v m).
Proof.
  intros (Hpos & Hnd & Hall) Hid Hk. split; [exact Hpos|]. split.
  - rewrite keys_set. destruct (JsMap.has k m) eqn:Hhas; [exact Hnd|].
    apply NoDup_snoc; [exact Hnd|]. apply has_false, Hhas.
  - rewrite List.Forall_forall in *. intros kv Hin. apply In_set in Hin as [->|Hin].
    + cbn. split; [exact Hid|exact Hk].
    + apply Hall, Hin.
Qed.

Lemma NoDup_filter (f : Z -> bool) (l : list Z) : List.NoDup l -> List.NoDup (List.filter f l).
Proof.
  induction 1 as [|x l Hnot Hnd IH]; cbn; [constructor|].
  destruct (f x); [|exact IH]. constructor; [|exact IH].
  rewrite filter_In. tauto.
Qed.

Lemma tableOk_delete counter m k :
  tableOk idOf counter m -> tableOk idOf counter (snd (JsMap.delete k m)).
Proof.
  intros (Hpos & Hnd & Hall). split; [exact Hpos|]. split.
  - rewrite keys_delete. apply NoDup_filter, Hnd.
  - rewrite List.Forall_forall in *. intros kv Hin. apply Hall. eapply In_delete, Hin.
Qed.

Lemma tableOk_get counter m k v :
  tableOk idOf counter m -> JsMap.get k m = Some v -> idOf v = k /\ 0 < k < counter.
Proof.
  intros (_ & _ & Hall) Hget. apply get_In in Hget. rewrite List.Forall_forall in Hall.
  apply (Hall _ Hget).
Qed.

(** A new row gets the counter as its key. *)
Lemma tableOk_create counter m v :
  tableOk idOf counter m -> idOf v = counter ->
  tableOk idOf (counter + 1) (JsMap.set counter v m).
Proof.
  intros Hok Hid. apply tableOk_set.
  - eapply tableOk_mono; [|exact Hok]. lia.
  - exact Hid.
  - destruct Hok as (Hpos & _). lia.
Qed.

Lemma tableOk_value counter m v :
  tableOk idOf counter m -> In v (JsMap.values m) ->
  JsMap.get (idOf v) m = Some v /\ 0 < idOf v < counter.
Proof.
  intros (_ & Hnd & Hall) Hin. unfold JsMap.values in Hin.
  apply in_map_iff in Hin as ([k v'] & Heq & Hin). cbn in Heq. subst v'.
  rewrite List.Forall_forall in Hall. destruct (Hall _ Hin) as [Hid Hk]. cbn in Hid, Hk.
  rewrite Hid. split; [|exact Hk]. apply In_get; assumption.
Qed.

Lemma find_values (f : V -> bool) m v :
  List.find f (JsMap.values m) = Some v -> In v (JsMap.values m) /\ f v = true.
Proof. apply find_some. Qed.

End Table.

End JsMapFacts.

Module MemStorageFacts.
Import MemStorage MemStorageProcess MemStorageSpec JsMapFacts ListFacts.

Ltac tables := unfold consistent; cbn; split; [|split; [|split]]; try assumption.

Lemma consistent_createTemplate i now s :
  consistent s -> consistent (snd (createTemplate i now s)).
Proof.
  intros (Ht & Hp & He & Hb). tables.
  apply (tableOk_create templateId _ _ _ Ht). reflexivity.
Qed.

Lemma consistent_createSmtpProvider i s :
  consistent s -> consistent (snd (createSmtpProvider i s)).
Proof.
  intros (Ht & Hp & He & Hb). tables.
  apply (tableOk_create SmtpProvider.id _ _ _ Hp). reflexivity.
Qed.

Lemma consistent_createEmail i now s :
  consistent s -> consistent (snd (createEmail i now s)).
Proof.
  intros (Ht & Hp & He & Hb). tables.
  apply (tableOk_create emailId _ _ _ He). reflexivity.
Qed.

Lemma consistent_createBlockedRegion i s :
  consistent s -> consistent (snd (createBlockedRegion i s)).
Proof.
  intros (Ht & Hp & He & Hb). tables.
  apply (tableOk_create BlockedRegion.id _ _ _ Hb). reflexivity.
Qed.

Lemma consistent_call c now s : consistent s -> consistent (call c now s).
Proof.
  intros Hs. destruct c; cbn [call].
  - apply consistent_createTemplate, Hs.
  - destruct Hs as (Ht & Hp & He & Hb). unfold updateTemplate.
    destruct (JsMap.get id (templates s)) as [existing|] eqn:Hget; [|tables].
    tables. destruct (tableOk_get templateId _ _ _ _ Ht Hget) as [Hid Hk].
    apply tableOk_set; [exact Ht|exact Hid|exact Hk].
  - destruct Hs as (Ht & Hp & He & Hb). tables. apply (tableOk_delete templateId), Ht.
  - apply consistent_createSmtpProvider, Hs.
  - destruct Hs as (Ht & Hp & He & Hb). unfold updateSmtpProvider.
    destruct (JsMap.get id (smtpProviders s)) as [existing|] eqn:Hget; [|tables].
    tables. destruct (tableOk_get SmtpProvider.id _ _ _ _ Hp Hget) as [Hid Hk].
    apply tableOk_set; [exact Hp|exact Hid|exact Hk].
  - destruct Hs as (Ht & Hp & He & Hb). tables. apply (tableOk_delete SmtpProvider.id), Hp.
  - apply consistent_createEmail, Hs.
  - destruct Hs as (Ht & Hp & He & Hb). unfold updateEmailStatus.
    destruct (JsMap.get id (emails s)) as [existing|] eqn:Hget; [|tables].
    tables. destruct (tableOk_get emailId _ _ _ _ He Hget) as [Hid Hk].
    apply tableOk_set; [exact He|exact Hid|exact Hk].
  - destruct Hs as (Ht & Hp & He & Hb). unfold updateEmailTracking.
    destruct (List.find _ (JsMap.values (emails s))) as [email|] eqn:Hfind; [|tables].
    tables. apply find_values in Hfind as [Hin _].
    destruct (tableOk_value emailId _ _ _ He Hin) as [_ Hk].
    apply tableOk_set; [exact He| |exact Hk].
    destruct (isOpened type && _); [reflexivity|].
    destruct (negb (isOpened type) && _); reflexivity.
  - apply consistent_createBlockedRegion, Hs.
  - destruct Hs as (Ht & Hp & He & Hb). tables. apply (tableOk_delete BlockedRegion.id), Hb.
Qed.

Lemma consistent_calls cs s : consistent s -> consistent (calls cs s).
Proof.
  revert s. induction cs as [|[now c] cs IH]; intros s Hs; [exact Hs|].
  apply IH, consistent_call, Hs.
Qed.

Lemma consistent_new now : consistent (new now).
Proof.
  unfold new, initDefaultData. apply consistent_createTemplate.
  cbn [fold_left defaultBlockedRegions defaultProviders].
  do 3 apply consistent_createBlockedRegion.
  do 3 apply consistent_createSmtpProvider.
  unfold consistent. cbn. repeat split; try lia; constructor.
Qed.

Lemma calls_app cs cs' s : calls (cs ++ cs') s = calls cs' (calls cs s).
Proof. apply fold_left_app. Qed.

Lemma reachable_consistent now cs : consistent (calls cs (new now)).
Proof. apply consistent_calls, consistent_new. Qed.

Lemma get_iff_listed {V} (idOf : V -> Z) counter (m : JsMap.t V) id row :
  tableOk idOf counter m ->
  JsMap.get id m = Some row <-> In row (JsMap.values m) /\ idOf row = id.
Proof.
  intros Hok. split.
  - intros Hget. split.
    + apply get_In in Hget. unfold JsMap.values. apply in_map_iff.
      exists (id, row). split; [reflexivity|exact Hget].
    + apply (tableOk_get idOf _ _ _ _ Hok Hget).
  - intros [Hin <-]. apply (tableOk_value idOf _ _ _ Hok Hin).
Qed.

(** In every state that calls bring a new [MemStorage] to, each of the four
    tables stores every row under the id of the row, the ids of a table are
    distinct, positive and below its counter, and the lookup by id finds
    exactly the rows that the listing shows. *)
Theorem rows_are_stored_under_their_ids :
  forall (now : Z) (cs : list (Z * Call)),
    let s := calls cs (new now) in
    consistent s /\
    (forall id row, getTemplate id s = Some row
                    <-> In row (getTemplates s) /\ templateId row = id) /\
    (forall id row, getSmtpProvider id s = Some row
                    <-> In row (getSmtpProviders s) /\ SmtpProvider.id row = id) /\
    (forall id row, getEmail id s = Some row
                    <-> In row (JsMap.values (emails s)) /\ emailId row = id) /\
    (forall id row, getBlockedRegion id s = Some row
                    <-> In row (getBlockedRegions s) /\ BlockedRegion.id row = id).
Proof.
  intros now cs s. pose proof (reachable_consistent now cs) as Hs. fold s in Hs.
  split; [exact Hs|]. destruct Hs as (Ht & Hp & He & Hb).
  split; [|split; [|split]]; intros id row.
  - apply (get_iff_listed templateId _ _ _ _ Ht).
  - apply (get_iff_listed SmtpProvider.id _ _ _ _ Hp).
  - apply (get_iff_listed emailId _ _ _ _ He).
  - apply (get_iff_listed BlockedRegion.id _ _ _ _ Hb).
Qed.

Lemma values_set_fresh {V} k (v : V) m :
  JsMap.get k m = None -> JsMap.values (JsMap.set k v m) = JsMap.values m ++ [v].
Proof.
  intros Hget. unfold JsMap.set. rewrite get_has, Hget. cbn.
  unfold JsMap.values. rewrite map_app. reflexivity.
Qed.

Lemma find_snoc {A} (f : A -> bool) l x :
  List.find f (l ++ [x])
  = match List.find f l with Some y => Some y | None => if f x then Some x else None end.
Proof.
  induction l as [|y l IH]; cbn; [reflexivity|]. destruct (f y); [reflexivity|exact IH].
Qed.

(** An email that [createEmail] stores gets an id that no email has, can be
    looked up by that id afterwards, and leaves the lookups of the other ids
    as they were. A lookup by tracking id finds the new email only if no
    email had that tracking id before: the table does not refuse a second
    email with the same tracking id, and the one stored first is found. *)
Theorem created_email_is_found :
  forall (now0 : Z) (cs : list (Z * Call)) (insertEmail : Storage.InsertEmail) (now : Z),
    let s := calls cs (new now0) in
    let email := fst (createEmail insertEmail now s) in
    let s' := snd (createEmail insertEmail now s) in
    getEmail (emailId email) s = None /\
    getEmail (emailId email) s' = Some email /\
    (forall id, id <> emailId email -> getEmail id s' = getEmail id s) /\
    (forall trackingId,
       getEmailByTrackingId trackingId s'
       = match getEmailByTrackingId trackingId s with
         | Some earlier => Some earlier
         | None => if String.eqb (Storage.trackingId insertEmail) trackingId
                   then Some email else None
         end) /\
    status email = "sent" /\ sentAt email = now /\
    deliveredAt email = None /\ openedAt email = None /\ clickedAt email = None.
Proof.
  intros now0 cs insertEmail now s email s'.
  destruct (reachable_consistent now0 cs) as (_ & _ & He & _). fold s in He.
  pose proof (tableOk_fresh emailId _ _ He) as Hfresh.
  split; [exact Hfresh|]. split; [apply get_set_eq|].
  split; [intros id Hne; apply get_set_ne; exact Hne|].
  split; [|repeat split].
  intros trackingId. unfold getEmailByTrackingId. subst s'. cbn [createEmail snd emails withEmails].
  rewrite (values_set_fresh _ _ _ Hfresh), find_snoc. reflexivity.
Qed.

(** The calls that do not touch the templates. *)
Lemma templates_call c now s :
  match c with
  | CreateTemplate _ | UpdateTemplate _ _ | DeleteTemplate _ => True
  | _ => templates (call c now s) = templates s
         /\ templateIdCounter (call c now s) = templateIdCounter s
  end.
Proof.
  destruct c; cbn [call]; try exact I; try (split; reflexivity).
  - unfold updateSmtpProvider. destruct (JsMap.get _ _); split; reflexivity.
  - unfold updateEmailStatus. destruct (JsMap.get _ _); split; reflexivity.
  - unfold updateEmailTracking. destruct (List.find _ _); split; reflexivity.
Qed.

Lemma gone_call id c now s : gone id s -> gone id (call c now s).
Proof.
  intros [Hlt Hnone]. unfold gone, getTemplate in *.
  pose proof (templates_call c now s) as Hc.
  destruct c;
    try (lazymatch type of Hc with
         | _ /\ _ => destruct Hc as [Hc1 Hc2]; rewrite Hc1, Hc2; split; assumption
         end);
    cbn [call].
  - cbn. split; [lia|]. rewrite get_set_ne; [exact Hnone|lia].
  - unfold updateTemplate.
    destruct (JsMap.get id0 (templates s)) as [existing|] eqn:Hget; cbn.
    + split; [exact Hlt|]. rewrite get_set_ne; [exact Hnone|]. congruence.
    + split; assumption.
  - cbn. split; [exact Hlt|].
    destruct (Z.eq_dec id id0) as [->|Hne].
    + apply (get_delete_eq id0 (templates s)).
    + exact (eq_trans (get_delete_ne id0 id (templates s) Hne) Hnone).
Qed.

Lemma gone_calls id cs s : gone id s -> gone id (calls cs s).
Proof.
  revert s. induction cs as [|[now c] cs IH]; intros s Hs; [exact Hs|].
  apply IH, gone_call, Hs.
Qed.

(** A template that [deleteTemplate] deleted does not come back: whatever
    is called afterwards, no template has its id, and every template that
    is created afterwards gets a greater id. *)
Theorem deleted_template_never_returns :
  forall (now0 : Z) (cs : list (Z * Call)) (id : Z) (cs' : list (Z * Call)),
    let s := calls cs (new now0) in
    fst (deleteTemplate id s) = true ->
    let s' := calls cs' (snd (deleteTemplate id s)) in
    getTemplate id s' = None /\
    (forall template, In template (getTemplates s') -> templateId template <> id) /\
    (forall insertTemplate now,
       id < templateId (fst (createTemplate insertTemplate now s'))).
Proof.
  intros now0 cs id cs' s Hhad s'.
  destruct (reachable_consistent now0 cs) as (Ht & _). fold s in Ht.
  assert (Hgone : gone id (snd (deleteTemplate id s))).
  { split; cbn.
    - cbn in Hhad. rewrite get_has in Hhad.
      destruct (JsMap.get id (templates s)) as [row|] eqn:Hget; [|discriminate].
      apply (tableOk_get templateId _ _ _ _ Ht Hget).
    - apply (get_delete_eq id (templates s)). }
  apply (gone_calls id cs') in Hgone. fold s' in Hgone. destruct Hgone as [Hlt Hnone].
  split; [exact Hnone|]. split; [|intros; exact Hlt].
  intros template Hin Hid.
  assert (Hs' : consistent s').
  { apply consistent_calls. apply (consistent_call (DeleteTemplate id) 0).
    apply reachable_consistent. }
  destruct Hs' as (Ht' & _).
  destruct (tableOk_value templateId _ _ _ Ht' Hin) as [Hget _].
  rewrite Hid in Hget. unfold getTemplate in Hnone. congruence.
Qed.

Lemma deleted_template_never_returns_witness :
  let s := snd (deleteTemplate 1 (new 1745014089754)) in
  let s' := calls [(1745014090754,
                    CreateTemplate {| name := "Receipt"; subject := "Your receipt";
                                      htmlContent := "<p>{{total}}</p>";
                                      textContent := "{{total}}" |})] s in
  getTemplate 1 s' = None /\
  (forall template, In template (getTemplates s') -> templateId template <> 1) /\
  (forall insertTemplate now,
     1 < templateId (fst (createTemplate insertTemplate now s'))).
Proof.
  cbv zeta. apply (deleted_template_never_returns 1745014089754 [] 1). reflexivity.
Defined.


Lemma firstn_min {A} n (l : list A) : firstn (Nat.min n (length l)) l = firstn n l.
Proof.
  destruct (Nat.le_gt_cases n (length l)) as [H|H].
  - rewrite Nat.min_l; [reflexivity|exact H].
  - rewrite Nat.min_r by lia. rewrite !firstn_all2; [reflexivity|lia|lia].
Qed.

(** [slice] between two indices that are not negative. *)
Lemma slice_page {A} (start n : Z) (l : list A) :
  0 <= start -> 0 <= n ->
  slice start (start + n) l = firstn (Z.to_nat n) (skipn (Z.to_nat start) l).
Proof.
  intros Hs Hn. unfold slice.
  destruct (start <? 0) eqn:E1; [lia|]. destruct (start + n <? 0) eqn:E2; [lia|].
  destruct (Z.le_gt_cases (Z.of_nat (length l)) start) as [H|H].
  - rewrite (skipn_all2 l) by lia. rewrite Z.min_r by lia.
    rewrite skipn_all2 by lia. now rewrite !firstn_nil.
  - rewrite (Z.min_l start) by lia.
    rewrite <- (firstn_min (Z.to_nat n)). f_equal.
    rewrite length_skipn. lia.
Qed.

Lemma StronglySorted_skipn {A} (R : A -> A -> Prop) n l :
  StronglySorted R l -> StronglySorted R (skipn n l).
Proof.
  revert l. induction n as [|n IH]; intros l H; [exact H|].
  destruct l as [|x l]; [constructor|]. cbn. apply IH. now inversion H.
Qed.

Lemma StronglySorted_firstn {A} (R : A -> A -> Prop) n l :
  StronglySorted R l -> StronglySorted R (firstn n l).
Proof.
  revert l. induction n as [|n IH]; intros l H; [constructor|].
  destruct l as [|x l]; [constructor|]. cbn. inversion H as [|? ? Hs Hall]; subst.
  constructor; [apply IH, Hs|].
  rewrite List.Forall_forall in *. intros y Hy. apply Hall. eapply In_firstn, Hy.
Qed.

Lemma StronglySorted_mono {A} (R R' : A -> A -> Prop) l :
  (forall a b, R a b -> R' a b) -> StronglySorted R l -> StronglySorted R' l.
Proof.
  intros HR. induction 1 as [|x l Hs IH Hall]; constructor; [exact IH|].
  eapply List.Forall_impl; [|exact Hall]. intros b. apply HR.
Qed.

Lemma allEmails_latestFirst s : latestFirst (allEmails s).
Proof.
  unfold latestFirst, allEmails.
  eapply StronglySorted_mono;
    [|apply (SortFacts.sort_sorted (fun a b => sentAt b - sentAt a) (fun a => - sentAt a))].
  - cbn. intros a b H. lia.
  - intros a b. lia.
Qed.

Lemma firstn_skipn_app {A} a b (l : list A) :
  firstn a l ++ firstn b (skipn a l) = firstn (a + b) l.
Proof.
  revert l. induction a as [|a IH]; intros l; [reflexivity|].
  destruct l as [|x l]; cbn; [now rewrite firstn_nil|]. now rewrite IH.
Qed.

Lemma skipn_skipn' {A} a b (l : list A) : skipn a (skipn b l) = skipn (b + a) l.
Proof.
  revert l. induction b as [|b IH]; intros l; [reflexivity|].
  destruct l as [|x l]; cbn; [now rewrite skipn_nil|]. apply IH.
Qed.

Lemma In_skipn {A} n (l : list A) x : In x (skipn n l) -> In x l.
Proof.
  revert l. induction n as [|n IH]; intros l; [tauto|].
  destruct l as [|y l]; cbn; [tauto|]. intros H. right. apply IH, H.
Qed.

(** With a limit and an offset that are not negative, [getEmails] returns
    the page of at most [limit] emails after the [offset] latest ones, the
    latest first, each of them an email of the table; the page and the page
    after it make the page of both; a limit that is not below the number of
    emails gives them all. *)
Theorem getEmails_pages :
  forall (now0 : Z) (cs : list (Z * Call)) (limit offset : Z),
    0 <= limit -> 0 <= offset ->
    let s := calls cs (new now0) in
    let page := getEmails limit offset s in
    page = firstn (Z.to_nat limit) (skipn (Z.to_nat offset) (allEmails s)) /\
    Z.of_nat (length page) <= limit /\
    latestFirst page /\
    (forall email, In email page -> getEmail (emailId email) s = Some email) /\
    (forall limit', 0 <= limit' ->
       page ++ getEmails limit' (offset + limit) s = getEmails (limit + limit') offset s) /\
    (Z.of_nat (length (emails s)) <= limit ->
     Permutation (getEmails limit 0 s) (JsMap.values (emails s))).
Proof.
  intros now0 cs limit offset Hl Ho s page.
  assert (Hpage : forall l o, 0 <= l -> 0 <= o ->
            getEmails l o s = firstn (Z.to_nat l) (skipn (Z.to_nat o) (allEmails s))).
  { intros l o Hl' Ho'. unfold getEmails. apply slice_page; assumption. }
  assert (Hp : page = firstn (Z.to_nat limit) (skipn (Z.to_nat offset) (allEmails s)))
    by (apply Hpage; assumption).
  split; [exact Hp|]. split; [|split; [|split; [|split]]].
  - rewrite Hp, length_firstn. lia.
  - rewrite Hp. apply StronglySorted_firstn, StronglySorted_skipn, allEmails_latestFirst.
  - intros email Hin. rewrite Hp in Hin. apply In_firstn, In_skipn in Hin.
    apply SortFacts.sort_In in Hin.
    destruct (reachable_consistent now0 cs) as (_ & _ & He & _). fold s in He.
    apply (tableOk_value emailId _ _ _ He Hin).
  - intros limit' Hl'. rewrite Hp, !Hpage by lia.
    rewrite Z2Nat.inj_add by lia. rewrite <- skipn_skipn'.
    rewrite Z2Nat.inj_add by lia. apply firstn_skipn_app.
  - intros Hall. rewrite Hpage by lia. change (Z.to_nat 0) with 0%nat.
    change (skipn 0 (allEmails s)) with (allEmails s).
    rewrite firstn_all2.
    + unfold allEmails. apply StatisticsFacts.sort_Permutation.
    + unfold allEmails.
      rewrite (Permutation_length (StatisticsFacts.sort_Permutation _ _)).
      unfold JsMap.values. rewrite length_map. lia.
Qed.

Lemma getEmails_pages_witness :
  let s := MemScenarios.threeEmails in
  map emailId (getEmails 2 0 s) = [3; 2] /\
  map emailId (getEmails 2 2 s) = [1] /\
  getEmails 2 0 s ++ getEmails 2 2 s = getEmails 4 0 s.
Proof.
  cbv zeta. split; [reflexivity|]. split; [reflexivity|].
  refine (proj1 (proj2 (proj2 (proj2 (proj2
            (getEmails_pages 1745014089754 _ 2 0 _ _))))) 2 _); lia.
Defined.


Lemma length_allEmails s : length (allEmails s) = length (emails s).
Proof.
  unfold allEmails. rewrite (Permutation_length (StatisticsFacts.sort_Permutation _ _)).
  unfold JsMap.values. apply length_map.
Qed.

(** With a negative offset [getEmails] counts the offset from the oldest
    email: it returns the [-offset] oldest emails when the limit reaches
    beyond the table, nothing when [offset + limit] is at least 0 and at most
    the index that the offset stands for, and [limit] of the oldest emails
    when [offset + limit] is negative. *)
Theorem getEmails_negative_offset :
  forall (s : t) (limit offset : Z),
    offset < 0 -> 0 <= limit -> - offset <= Z.of_nat (length (emails s)) ->
    let n := Z.of_nat (length (emails s)) in
    let oldest := skipn (Z.to_nat (n + offset)) (allEmails s) in
    (n <= offset + limit -> getEmails limit offset s = oldest) /\
    (0 <= offset + limit <= n + offset -> getEmails limit offset s = []) /\
    (offset + limit < 0 -> getEmails limit offset s = firstn (Z.to_nat limit) oldest).
Proof.
  intros s limit offset Ho Hl Hn n oldest.
  assert (Hslice : getEmails limit offset s
                   = firstn (Z.to_nat ((if offset + limit <? 0
                                        then Z.max (n + (offset + limit)) 0
                                        else Z.min (offset + limit) n) - (n + offset)))
                            oldest).
  { unfold getEmails, slice. fold (allEmails s). rewrite length_allEmails. fold n.
    destruct (offset <? 0) eqn:E; [|lia]. rewrite (Z.max_l (n + offset)) by lia.
    reflexivity. }
  assert (Hlen : length oldest = Z.to_nat (- offset)).
  { unfold oldest. rewrite length_skipn, length_allEmails. fold n. lia. }
  split; [|split].
  - intros H. rewrite Hslice. destruct (offset + limit <? 0) eqn:E; [lia|].
    rewrite Z.min_r by lia. apply firstn_all2. lia.
  - intros H. rewrite Hslice. destruct (offset + limit <? 0) eqn:E; [lia|].
    rewrite Z.min_l by lia. replace (Z.to_nat _) with 0%nat by lia. reflexivity.
  - intros H. rewrite Hslice. destruct (offset + limit <? 0) eqn:E; [|lia].
    rewrite Z.max_l by lia. f_equal. lia.
Qed.

Lemma getEmails_negative_offset_witness :
  let s := MemScenarios.threeEmails in
  getEmails 100 (-1) s = skipn 2 (allEmails s) /\
  map emailId (getEmails 100 (-1) s) = [1] /\
  getEmails 1 (-1) s = [].
Proof.
  cbv zeta. split; [|split; reflexivity].
  refine (proj1 (getEmails_negative_offset MemScenarios.threeEmails 100 (-1) _ _ _) _).
  - lia.
  - lia.
  - vm_compute. discriminate.
  - vm_compute. discriminate.
Defined.


(** The calls that do not touch the emails. *)
Lemma emails_call c now s :
  match c with
  | CreateEmail _ | UpdateEmailStatus _ _ | UpdateEmailTracking _ _ => True
  | _ => emails (call c now s) = emails s
  end.
Proof.
  destruct c; cbn [call]; try exact I; try reflexivity.
  - unfold updateTemplate. destruct (JsMap.get _ _); reflexivity.
  - unfold updateSmtpProvider. destruct (JsMap.get _ _); reflexivity.
Qed.

Lemma openedAtTime_call id at_ c now s :
  consistent s -> openedAtTime id at_ s -> openedAtTime id at_ (call c now s).
Proof.
  intros (_ & _ & He & _) (email & Hget & Hopened). unfold openedAtTime, getEmail in *.
  pose proof (emails_call c now s) as Hc.
  destruct c;
    try (lazymatch type of Hc with
         | _ = _ => rewrite Hc; exists email; split; assumption
         end);
    cbn [call].
  - cbn. exists email. split; [|exact Hopened].
    rewrite get_set_ne; [exact Hget|].
    destruct (tableOk_get emailId _ _ _ _ He Hget). lia.
  - unfold updateEmailStatus.
    destruct (JsMap.get id0 (emails s)) as [existing|] eqn:Hget0; cbn;
      [|exists email; split; assumption].
    destruct (Z.eq_dec id id0) as [->|Hne].
    + rewrite get_set_eq. eexists. split; [reflexivity|]. cbn. congruence.
    + rewrite get_set_ne by exact Hne. exists email. split; assumption.
  - unfold updateEmailTracking.
    destruct (List.find _ (JsMap.values (emails s))) as [found|] eqn:Hfind; cbn;
      [|exists email; split; assumption].
    apply find_values in Hfind as [Hin _].
    destruct (tableOk_value emailId _ _ _ He Hin) as [Hfound _].
    destruct (Z.eq_dec id (emailId found)) as [->|Hne].
    + rewrite get_set_eq. eexists. split; [reflexivity|].
      assert (found = email) by congruence. subst found. rewrite Hopened.
      cbn. rewrite andb_false_r.
      destruct (negb (isOpened type) && _); [reflexivity|exact Hopened].
    + rewrite get_set_ne by exact Hne. exists email. split; assumption.
Qed.

Lemma openedAtTime_calls id at_ cs s :
  consistent s -> openedAtTime id at_ s -> openedAtTime id at_ (calls cs s).
Proof.
  revert s. induction cs as [|[now c] cs IH]; intros s Hs Ho; [exact Ho|].
  apply IH; [apply consistent_call, Hs|apply openedAtTime_call; assumption].
Qed.

Lemma set_same {V} k (v : V) m :
  List.NoDup (keys m) -> JsMap.get k m = Some v -> JsMap.set k v m = m.
Proof.
  intros Hnd Hget. unfold JsMap.set. rewrite get_has, Hget. cbn.
  rewrite <- (map_id m) at 2. apply map_ext_in. intros [k' v'] Hin. cbn.
  destruct (k' =? k) eqn:E; [|reflexivity].
  assert (k' = k) by lia. subst k'.
  apply (In_get _ _ _ Hnd) in Hin. congruence.
Qed.

(** The time of the first open of an email stays: whatever is called
    afterwards, the email is in the table with that time. A later open of
    the email changes nothing in the storage, and [updateEmailTracking]
    returns the email as it does for the first open. *)
Theorem open_time_is_kept :
  forall (now0 : Z) (cs : list (Z * Call)) (id at_ : Z) (cs' : list (Z * Call)),
    let s := calls cs (new now0) in
    openedAtTime id at_ s ->
    openedAtTime id at_ (calls cs' s) /\
    (forall email now,
       getEmailByTrackingId (trackingIdOf email) s = Some email ->
       emailId email = id ->
       updateEmailTracking (trackingIdOf email) Storage.opened now s = (Some email, s)).
Proof.
  intros now0 cs id at_ cs' s Hopened.
  pose proof (reachable_consistent now0 cs) as Hs. fold s in Hs.
  split; [apply openedAtTime_calls; assumption|].
  intros email now Hfind Hid. unfold updateEmailTracking.
  unfold getEmailByTrackingId in Hfind. rewrite Hfind.
  destruct Hs as (_ & _ & He & _).
  apply find_values in Hfind as [Hin _].
  destruct (tableOk_value emailId _ _ _ He Hin) as [Hget _].
  destruct Hopened as (email' & Hget' & Hat). unfold getEmail in Hget'.
  rewrite Hid in Hget. assert (email' = email) by congruence. subst email'.
  rewrite Hat. cbn [TrackingService.isSome negb andb isOpened].
  rewrite Hid, set_same; [|apply He|exact Hget].
  destruct s; reflexivity.
Qed.

Lemma open_time_is_kept_witness :
  openedAtTime 2 1745014095000
    (calls [(1745014096000, UpdateEmailTracking "t2" Storage.opened);
            (1745014097000, UpdateEmailTracking "t2" Storage.clicked);
            (1745014098000, UpdateEmailStatus 2 "delivered")]
       (calls [(1745014090754, CreateEmail (Scenarios.insertFor "ada@example.com" "t1"));
               (1745014091754, CreateEmail (Scenarios.insertFor "bob@example.com" "t2"));
               (1745014092754, CreateEmail (Scenarios.insertFor "eve@example.com" "t3"));
               (1745014095000, UpdateEmailTracking "t2" Storage.opened)]
          (new 1745014089754))).
Proof.
  refine (proj1 (open_time_is_kept 1745014089754
                   [(1745014090754, CreateEmail (Scenarios.insertFor "ada@example.com" "t1"));
                    (1745014091754, CreateEmail (Scenarios.insertFor "bob@example.com" "t2"));
                    (1745014092754, CreateEmail (Scenarios.insertFor "eve@example.com" "t3"));
                    (1745014095000, UpdateEmailTracking "t2" Storage.opened)]
                   2 1745014095000
                   [(1745014096000, UpdateEmailTracking "t2" Storage.opened);
                    (1745014097000, UpdateEmailTracking "t2" Storage.clicked);
                    (1745014098000, UpdateEmailStatus 2 "delivered")] _)).
  exists (MemStorage.Build_EmailRow (Scenarios.insertFor "bob@example.com" "t2") 2 "sent"
            1745014091754 None (Some 1745014095000) None).
  split; vm_compute; reflexivity.
Defined.

End MemStorageFacts.
